(** * claude-lsp: the daemon's framing, state store, port allocation and LSP client

    A shallow embedding of [src/daemon.ts].  JavaScript strings are
    sequences of UTF-16 code units, JSON values are an inductive type,
    the two [Map]s of [SimpleLspClient] are finite maps, and everything
    the code does to the outside world (files, processes, ports, the
    socket, promises, the clock) is explicit state. *)

From Stdlib Require Import ZArith NArith Zpow_facts String Ascii List Bool Lia.
From stdpp Require Import base option list gmap.
Import ListNotations.

(** ** JavaScript strings *)

(** A JS string is a sequence of UTF-16 code units; [length] and
    [slice] count code units. *)
Abbreviation jsstring := (list N).

(** Code units of an ASCII literal of the source text. *)
Definition js (s : string) : jsstring := N_of_ascii <$> list_ascii_of_string s.

Definition CR : N := 13.
Definition LF : N := 10.
Definition QUOTE : N := 34.
Definition BACKSLASH : N := 92.

(** ["\r\n\r\n"] *)
Definition CRLFCRLF : jsstring := [CR; LF; CR; LF].

Fixpoint startsWith (pat s : jsstring) : bool :=
  match pat, s with
  | [], _ => true
  | p :: pat', c :: s' => (p =? c)%N && startsWith pat' s'
  | _ :: _, [] => false
  end.

(** [s.indexOf(pat)]: position of the first occurrence, [None] for -1. *)
Fixpoint indexOf (pat s : jsstring) {struct s} : option nat :=
  if startsWith pat s then Some 0%nat
  else match s with
       | [] => None
       | _ :: s' => S <$> indexOf pat s'
       end.

(** [s.slice(a, b)] for [0 <= a <= b]; [slice] clamps at the end of [s]. *)
Definition slice (a b : nat) (s : jsstring) : jsstring := take (b - a) (drop a s).

(** *** Decimal numerals *)

Definition isDigit (c : N) : bool := ((48 <=? c) && (c <=? 57))%N.

Definition digitChar (d : N) : N := (48 + d)%N.

(** Number-to-string for a non-negative integer. [fuel] bounds the number
    of digits; [N.size_nat n] bits never need more digits than that. *)
Fixpoint decimalDigits (fuel : nat) (n : N) (acc : jsstring) : jsstring :=
  match fuel with
  | O => digitChar (n mod 10) :: acc
  | S fuel' =>
      if (n <? 10)%N then digitChar n :: acc
      else decimalDigits fuel' (n / 10)%N (digitChar (n mod 10) :: acc)
  end.

Definition N_toString (n : N) : jsstring := decimalDigits (N.size_nat n) n [].

Definition Z_toString (z : Z) : jsstring :=
  match z with
  | Zneg p => js "-" ++ N_toString (Npos p)
  | _ => N_toString (Z.to_N z)
  end.

(** The longest prefix of decimal digits, and what follows it. *)
Fixpoint spanDigits (s : jsstring) : jsstring * jsstring :=
  match s with
  | c :: s' =>
      if isDigit c then let '(ds, rest) := spanDigits s' in (c :: ds, rest)
      else ([], s)
  | [] => ([], [])
  end.

(** [parseInt(ds, 10)] on a string of decimal digits.  The value is kept
    exact; a double rounds it only from 2^53 on, above every string
    length, so the comparisons of [parseMessages] come out the same. *)
Definition parseInt10 (ds : jsstring) : N :=
  fold_left (fun acc d => (acc * 10 + (d - 48))%N) ds 0%N.

(** *** UTF-8 *)

Definition isHighSurrogate (c : N) : bool := ((55296 <=? c) && (c <=? 56319))%N.
Definition isLowSurrogate (c : N) : bool := ((56320 <=? c) && (c <=? 57343))%N.

(** UTF-8 bytes of a code point given by one code unit. *)
Definition utf8_unit (c : N) : list N :=
  if (c <? 128)%N then [c]
  else if (c <? 2048)%N then [192 + c / 64; 128 + c mod 64]%N
  else [224 + c / 4096; 128 + (c / 64) mod 64; 128 + c mod 64]%N.

(** UTF-8 bytes of the code point of a surrogate pair. *)
Definition utf8_pair (hi lo : N) : list N :=
  let cp := (65536 + (hi - 55296) * 1024 + (lo - 56320))%N in
  [240 + cp / 262144; 128 + (cp / 4096) mod 64; 128 + (cp / 64) mod 64; 128 + cp mod 64]%N.

(** The bytes a string is written as: a surrogate pair is one code
    point of four bytes, a lone surrogate is replaced by U+FFFD. *)
Fixpoint utf8_encode (s : jsstring) : list N :=
  match s with
  | [] => []
  | c :: s' =>
      if isHighSurrogate c then
        match s' with
        | d :: s'' =>
            if isLowSurrogate d then utf8_pair c d ++ utf8_encode s''
            else utf8_unit 65533 ++ utf8_encode s'
        | [] => utf8_unit 65533
        end
      else if isLowSurrogate c then utf8_unit 65533 ++ utf8_encode s'
      else utf8_unit c ++ utf8_encode s'
  end.

(** [Buffer.byteLength(s)] *)
Definition Buffer_byteLength (s : jsstring) : nat := length (utf8_encode s).

(** Every code unit is below 128: the string is its own UTF-8 text. *)
Definition isAscii (s : jsstring) : bool := forallb (fun c => (c <? 128)%N) s.

(** ** JSON values *)

(** What [JSON.parse] returns.  Numbers are the integers (ids, lines,
    columns, severities and versions are), exact where a double is,
    below 2^53; an object is its own properties in insertion order. *)
#[warnings="-register-all"]
Inductive json : Type :=
  | JNull
  | JBool (b : bool)
  | JNum (n : Z)
  | JStr (s : jsstring)
  | JArr (elems : list json)
  | JObj (fields : list (jsstring * json)).

(** [JSON.stringify] and [JSON.parse] belong to the runtime.  [JSON_parse]
    gives [None] where [JSON.parse] throws a [SyntaxError]. *)
Class JSONRuntime : Type := {
  JSON_stringify : json -> jsstring;
  JSON_parse : jsstring -> option json
}.

(** *** The runtime's JSON text *)

Definition hexChar (d : N) : N := if (d <? 10)%N then (48 + d)%N else (87 + d)%N.

(** [\uXXXX] with lower-case digits. *)
Definition unicodeEscape (c : N) : jsstring :=
  [BACKSLASH; 117; hexChar (c / 4096); hexChar ((c / 256) mod 16);
   hexChar ((c / 16) mod 16); hexChar (c mod 16)]%N.

Definition quoteUnit (c : N) : jsstring :=
  if (c =? QUOTE)%N then [BACKSLASH; QUOTE]
  else if (c =? BACKSLASH)%N then [BACKSLASH; BACKSLASH]
  else if (c =? 8)%N then [BACKSLASH; 98]%N
  else if (c =? 12)%N then [BACKSLASH; 102]%N
  else if (c =? 10)%N then [BACKSLASH; 110]%N
  else if (c =? 13)%N then [BACKSLASH; 114]%N
  else if (c =? 9)%N then [BACKSLASH; 116]%N
  else if (c <? 32)%N then unicodeEscape c
  else [c].

(** The body of a quoted JSON string: control characters, the quote and
    the backslash are escaped, a lone surrogate is written [\udXXX], and
    every other character, ASCII or not, stands for itself. *)
Fixpoint quoteBody (s : jsstring) : jsstring :=
  match s with
  | [] => []
  | c :: s' =>
      if isHighSurrogate c then
        match s' with
        | d :: s'' =>
            if isLowSurrogate d then c :: d :: quoteBody s''
            else unicodeEscape c ++ quoteBody s'
        | [] => unicodeEscape c
        end
      else if isLowSurrogate c then unicodeEscape c ++ quoteBody s'
      else quoteUnit c ++ quoteBody s'
  end.

Definition quoteJSONString (s : jsstring) : jsstring := QUOTE :: quoteBody s ++ [QUOTE].

Fixpoint ecma_stringify (v : json) : jsstring :=
  match v with
  | JNull => js "null"
  | JBool true => js "true"
  | JBool false => js "false"
  | JNum n => Z_toString n
  | JStr s => quoteJSONString s
  | JArr l =>
      js "[" ++
      (fix elements (l : list json) : jsstring :=
         match l with
         | [] => []
         | x :: l' =>
             ecma_stringify x ++
             match l' with [] => [] | _ :: _ => js "," ++ elements l' end
         end) l ++ js "]"
  | JObj fs =>
      js "{" ++
      (fix members (fs : list (jsstring * json)) : jsstring :=
         match fs with
         | [] => []
         | (k, x) :: fs' =>
             quoteJSONString k ++ js ":" ++ ecma_stringify x ++
             match fs' with [] => [] | _ :: _ => js "," ++ members fs' end
         end) fs ++ js "}"
  end.

(** *** Reading JSON text *)

Definition isWs (c : N) : bool :=
  ((c =? 32) || (c =? 9) || (c =? 10) || (c =? 13))%N.

Fixpoint skipWs (s : jsstring) : jsstring :=
  match s with
  | c :: s' => if isWs c then skipWs s' else s
  | [] => []
  end.

Definition hexValue (c : N) : option N :=
  if isDigit c then Some (c - 48)%N
  else if ((97 <=? c) && (c <=? 102))%N then Some (c - 87)%N
  else if ((65 <=? c) && (c <=? 70))%N then Some (c - 55)%N
  else None.

Definition readEscape (s : jsstring) : option (N * jsstring) :=
  match s with
  | c :: r =>
      if (c =? QUOTE)%N then Some (QUOTE, r)
      else if (c =? BACKSLASH)%N then Some (BACKSLASH, r)
      else if (c =? 47)%N then Some (47%N, r)
      else if (c =? 98)%N then Some (8%N, r)
      else if (c =? 102)%N then Some (12%N, r)
      else if (c =? 110)%N then Some (10%N, r)
      else if (c =? 114)%N then Some (13%N, r)
      else if (c =? 116)%N then Some (9%N, r)
      else if (c =? 117)%N then
        match r with
        | a :: b :: c' :: d :: r' =>
            match hexValue a, hexValue b, hexValue c', hexValue d with
            | Some x, Some y, Some z, Some w =>
                Some (x * 4096 + y * 256 + z * 16 + w, r')%N
            | _, _, _, _ => None
            end
        | _ => None
        end
      else None
  | [] => None
  end.

(** The characters after an opening quote, up to the closing one. *)
Fixpoint readStringBody (fuel : nat) (s : jsstring) : option (jsstring * jsstring) :=
  match fuel with
  | O => None
  | S fuel' =>
      match s with
      | [] => None
      | c :: r =>
          if (c =? QUOTE)%N then Some ([], r)
          else if (c =? BACKSLASH)%N then
            match readEscape r with
            | Some (u, r') =>
                match readStringBody fuel' r' with
                | Some (body, rest) => Some (u :: body, rest)
                | None => None
                end
            | None => None
            end
          else if (c <? 32)%N then None
          else
            match readStringBody fuel' r with
            | Some (body, rest) => Some (c :: body, rest)
            | None => None
            end
      end
  end.

(** An integer literal: [0], or a non-zero digit and more digits; a
    fraction or an exponent after it has no value in [json]. *)
Definition readNumber (s : jsstring) : option (Z * jsstring) :=
  let '(neg, s1) :=
    match s with
    | c :: r => if (c =? 45)%N then (true, r) else (false, s)
    | [] => (false, s)
    end in
  let '(ds, rest) := spanDigits s1 in
  match ds with
  | [] => None
  | d :: ds' =>
      if (d =? 48)%N && negb (match ds' with [] => true | _ => false end) then None
      else
        match rest with
        | c :: _ => if ((c =? 46) || (c =? 101) || (c =? 69))%N then None
                    else Some ((if neg then Z.opp else id) (Z.of_N (parseInt10 ds)), rest)
        | [] => Some ((if neg then Z.opp else id) (Z.of_N (parseInt10 ds)), rest)
        end
  end.

(** A property written twice keeps its place and takes the later value. *)
Fixpoint setField (k : jsstring) (v : json) (fs : list (jsstring * json)) : list (jsstring * json) :=
  match fs with
  | [] => [(k, v)]
  | (k', v') :: fs' =>
      if decide (k' = k) then (k', v) :: fs' else (k', v') :: setField k v fs'
  end.

Fixpoint readValue (fuel : nat) (s : jsstring) : option (json * jsstring) :=
  match fuel with
  | O => None
  | S fuel' =>
      match skipWs s with
      | [] => None
      | c :: r =>
          if (c =? 110)%N then
            if startsWith (js "ull") r then Some (JNull, drop 3 r) else None
          else if (c =? 116)%N then
            if startsWith (js "rue") r then Some (JBool true, drop 3 r) else None
          else if (c =? 102)%N then
            if startsWith (js "alse") r then Some (JBool false, drop 4 r) else None
          else if (c =? QUOTE)%N then
            match readStringBody (S (length r)) r with
            | Some (body, rest) => Some (JStr body, rest)
            | None => None
            end
          else if (c =? 91)%N then
            match skipWs r with
            | d :: r' => if (d =? 93)%N then Some (JArr [], r')
                         else readElements fuel' [] r
            | [] => None
            end
          else if (c =? 123)%N then
            match skipWs r with
            | d :: r' => if (d =? 125)%N then Some (JObj [], r')
                         else readMembers fuel' [] r
            | [] => None
            end
          else
            match readNumber (c :: r) with
            | Some (n, rest) => Some (JNum n, rest)
            | None => None
            end
      end
  end
with readElements (fuel : nat) (acc : list json) (s : jsstring) : option (json * jsstring) :=
  match fuel with
  | O => None
  | S fuel' =>
      match readValue fuel' s with
      | Some (v, r) =>
          match skipWs r with
          | c :: r' =>
              if (c =? 44)%N then readElements fuel' (acc ++ [v]) r'
              else if (c =? 93)%N then Some (JArr (acc ++ [v]), r')
              else None
          | [] => None
          end
      | None => None
      end
  end
with readMembers (fuel : nat) (acc : list (jsstring * json)) (s : jsstring) : option (json * jsstring) :=
  match fuel with
  | O => None
  | S fuel' =>
      match skipWs s with
      | q :: r =>
          if (q =? QUOTE)%N then
            match readStringBody (S (length r)) r with
            | Some (k, r1) =>
                match skipWs r1 with
                | c :: r2 =>
                    if (c =? 58)%N then
                      match readValue fuel' r2 with
                      | Some (v, r3) =>
                          match skipWs r3 with
                          | d :: r4 =>
                              if (d =? 44)%N then readMembers fuel' (setField k v acc) r4
                              else if (d =? 125)%N then Some (JObj (setField k v acc), r4)
                              else None
                          | [] => None
                          end
                      | None => None
                      end
                    else None
                | [] => None
                end
            | None => None
            end
          else None
      | [] => None
      end
  end.

(** One value, white space around it, and nothing else. *)
Definition ecma_parse (s : jsstring) : option json :=
  match readValue (S (S (length s))) s with
  | Some (v, rest) => match skipWs rest with [] => Some v | _ :: _ => None end
  | None => None
  end.

#[export] Instance ecma_JSON : JSONRuntime :=
  {| JSON_stringify := ecma_stringify; JSON_parse := ecma_parse |}.

(** ** Message framing: [encodeMessage] and [parseMessages] *)

Definition CONTENT_LENGTH : jsstring := js "Content-Length: ".

(** The [i] flag of the regular expression: an ASCII letter of the
    pattern matches both of its cases and nothing else. *)
Definition toLowerAscii (c : N) : N :=
  if ((65 <=? c) && (c <=? 90))%N then (c + 32)%N else c.

Fixpoint startsWith_ci (pat s : jsstring) : bool :=
  match pat, s with
  | [], _ => true
  | p :: pat', c :: s' => (toLowerAscii p =? toLowerAscii c)%N && startsWith_ci pat' s'
  | _ :: _, [] => false
  end.

(** [/Content-Length: (\d+)/i] tried at the start of [s]: the digits of
    the group, as many as there are, and at least one. *)
Definition matchHere (s : jsstring) : option jsstring :=
  if startsWith_ci CONTENT_LENGTH s then
    match fst (spanDigits (drop (length CONTENT_LENGTH) s)) with
    | [] => None
    | d :: ds => Some (d :: ds)
    end
  else None.

(** [header.match(/Content-Length: (\d+)/i)]: group 1 of the leftmost
    match, [None] when the header has none. *)
Fixpoint matchContentLength (header : jsstring) : option jsstring :=
  match matchHere header with
  | Some ds => Some ds
  | None =>
      match header with
      | [] => None
      | _ :: header' => matchContentLength header'
      end
  end.

Section Framer.
Context `{JSONRuntime}.

Definition encodeMessage (msg : json) : jsstring :=
  let content := JSON_stringify msg in
  CONTENT_LENGTH ++ N_toString (N.of_nat (Buffer_byteLength content))
    ++ CRLFCRLF ++ content.

(** The [while (true)] loop of [parseMessages]. Each turn either leaves
    the loop or drops at least four code units of [remaining]; [fuel]
    counts the turns, [None] is a loop that did not finish within it. *)
Fixpoint parseLoop (fuel : nat) (messages : list json) (remaining : jsstring)
  : option (list json * jsstring) :=
  match fuel with
  | O => None
  | S fuel' =>
      match indexOf CRLFCRLF remaining with
      | None => Some (messages, remaining)
      | Some headerEnd =>
          let header := slice 0 headerEnd remaining in
          match matchContentLength header with
          | None => parseLoop fuel' messages (drop (headerEnd + 4) remaining)
          | Some digits =>
              let len := parseInt10 digits in
              let start := (headerEnd + 4)%nat in
              let end_ := (N.of_nat start + len)%N in
              if (N.of_nat (length remaining) <? end_)%N then Some (messages, remaining)
              else
                let messages' :=
                  match JSON_parse (slice start (N.to_nat end_) remaining) with
                  | Some v => messages ++ [v]
                  | None => messages
                  end in
                parseLoop fuel' messages' (drop (N.to_nat end_) remaining)
          end
      end
  end.

Definition parseMessages (buffer : jsstring) : option (list json * jsstring) :=
  parseLoop (S (length buffer)) [] buffer.

(** What the client does with a chunk of received text (the [data]
    callback and the first two lines of [processBuffer]): append it to
    the buffer, decode, keep the rest. *)
Definition receive (st : list json * jsstring) (chunk : jsstring)
  : option (list json * jsstring) :=
  let '(seen, buffer) := st in
  match parseMessages (buffer ++ chunk) with
  | Some (messages, remaining) => Some (seen ++ messages, remaining)
  | None => None
  end.

Fixpoint receiveAll (st : list json * jsstring) (chunks : list jsstring)
  : option (list json * jsstring) :=
  match chunks with
  | [] => Some st
  | chunk :: chunks' =>
      match receive st chunk with
      | Some st' => receiveAll st' chunks'
      | None => None
      end
  end.
End Framer.

(** ** [createHash("sha256").update(s).digest("hex")] *)

Module SHA256.
Definition add32 (x y : N) : N := ((x + y) mod 4294967296)%N.
Definition rotr (n x : N) : N :=
  N.lor (N.shiftr x n) (N.shiftl x (32 - n) mod 4294967296)%N.
Definition not32 (x : N) : N := N.lxor x 4294967295.

Definition Ch (x y z : N) : N := N.lxor (N.land x y) (N.land (not32 x) z).
Definition Maj (x y z : N) : N :=
  N.lxor (N.lxor (N.land x y) (N.land x z)) (N.land y z).
Definition Sigma0 (x : N) : N := N.lxor (N.lxor (rotr 2 x) (rotr 13 x)) (rotr 22 x).
Definition Sigma1 (x : N) : N := N.lxor (N.lxor (rotr 6 x) (rotr 11 x)) (rotr 25 x).
Definition sigma0 (x : N) : N := N.lxor (N.lxor (rotr 7 x) (rotr 18 x)) (N.shiftr x 3).
Definition sigma1 (x : N) : N := N.lxor (N.lxor (rotr 17 x) (rotr 19 x)) (N.shiftr x 10).

(** The round constants: 32 bits of the fractional parts of the cube
    roots of the first 64 primes. *)
Definition K : list N :=
  [1116352408; 1899447441; 3049323471; 3921009573;
   961987163; 1508970993; 2453635748; 2870763221;
   3624381080; 310598401; 607225278; 1426881987;
   1925078388; 2162078206; 2614888103; 3248222580;
   3835390401; 4022224774; 264347078; 604807628;
   770255983; 1249150122; 1555081692; 1996064986;
   2554220882; 2821834349; 2952996808; 3210313671;
   3336571891; 3584528711; 113926993; 338241895;
   666307205; 773529912; 1294757372; 1396182291;
   1695183700; 1986661051; 2177026350; 2456956037;
   2730485921; 2820302411; 3259730800; 3345764771;
   3516065817; 3600352804; 4094571909; 275423344;
   430227734; 506948616; 659060556; 883997877;
   958139571; 1322822218; 1537002063; 1747873779;
   1955562222; 2024104815; 2227730452; 2361852424;
   2428436474; 2756734187; 3204031479; 3329325298]%N.

(** The eight working words. *)
Record words8 : Type := W8 { wa : N; wb : N; wc : N; wd : N; we : N; wf : N; wg : N; wh : N }.

Definition H0 : words8 :=
  W8 1779033703 3144134277 1013904242 2773480762
     1359893119 2600822924 528734635 1541459225.

(** One bit, zeros up to 56 modulo 64, and the bit length on 8 bytes. *)
Definition pad (msg : list N) : list N :=
  let len := length msg in
  let zeros := ((64 - (len + 9) mod 64) mod 64)%nat in
  let bits := N.of_nat (8 * len) in
  msg ++ [128%N] ++ repeat 0%N zeros
    ++ ((fun i => (bits / 256 ^ N.of_nat (7 - i)) mod 256)%N <$> seq 0 8).

Fixpoint splitBlocks (n : nat) (l : list N) : list (list N) :=
  match n with
  | O => []
  | S n' => take 64 l :: splitBlocks n' (drop 64 l)
  end.

Fixpoint bigEndianWords (n : nat) (l : list N) : list N :=
  match n with
  | O => []
  | S n' =>
      match l with
      | a :: b :: c :: d :: l' =>
          (a * 16777216 + b * 65536 + c * 256 + d)%N :: bigEndianWords n' l'
      | _ => []
      end
  end.

(** The message schedule, latest word first. *)
Fixpoint extend (n : nat) (w : list N) : list N :=
  match n with
  | O => w
  | S n' =>
      let x := add32 (add32 (sigma1 (nth 1 w 0%N)) (nth 6 w 0%N))
                     (add32 (sigma0 (nth 14 w 0%N)) (nth 15 w 0%N)) in
      extend n' (x :: w)
  end.

Definition schedule (block : list N) : list N :=
  rev (extend 48 (rev (bigEndianWords 16 block))).

Definition round (s : words8) (kw : N * N) : words8 :=
  let t1 := add32 (add32 (add32 (wh s) (Sigma1 (we s))) (Ch (we s) (wf s) (wg s)))
                  (add32 (fst kw) (snd kw)) in
  let t2 := add32 (Sigma0 (wa s)) (Maj (wa s) (wb s) (wc s)) in
  W8 (add32 t1 t2) (wa s) (wb s) (wc s) (add32 (wd s) t1) (we s) (wf s) (wg s).

Definition compress (h : words8) (block : list N) : words8 :=
  let s := fold_left round (combine K (schedule block)) h in
  W8 (add32 (wa h) (wa s)) (add32 (wb h) (wb s)) (add32 (wc h) (wc s))
     (add32 (wd h) (wd s)) (add32 (we h) (we s)) (add32 (wf h) (wf s))
     (add32 (wg h) (wg s)) (add32 (wh h) (wh s)).

Definition hash (msg : list N) : words8 :=
  let padded := pad msg in
  fold_left compress (splitBlocks (length padded / 64) padded) H0.

(** Eight lower-case hexadecimal digits of a word. *)
Definition hex8 (w : N) : jsstring :=
  (fun i => hexChar ((w / 16 ^ N.of_nat (7 - i)) mod 16)%N) <$> seq 0 8.

Definition hexdigest (msg : list N) : jsstring :=
  let h := hash msg in
  hex8 (wa h) ++ hex8 (wb h) ++ hex8 (wc h) ++ hex8 (wd h)
    ++ hex8 (we h) ++ hex8 (wf h) ++ hex8 (wg h) ++ hex8 (wh h).
End SHA256.

(** ** The state file of a project *)

Definition STATE_DIR : jsstring := js "/tmp/claude-lsp".
Definition BASE_PORT : Z := 19200.

(** The first eight hexadecimal digits of the SHA-256 of the path. *)
Definition hashPath (path : jsstring) : jsstring :=
  slice 0 8 (SHA256.hexdigest (utf8_encode path)).

(** [join(STATE_DIR, `ra-${hashPath(projectPath)}.json`)] *)
Definition getStatePath (projectPath : jsstring) : jsstring :=
  STATE_DIR ++ js "/" ++ js "ra-" ++ hashPath projectPath ++ js ".json".

(** ** Reading a property *)

Fixpoint lookupField (k : jsstring) (fs : list (jsstring * json)) : option json :=
  match fs with
  | [] => None
  | (k', v) :: fs' => if decide (k' = k) then Some v else lookupField k fs'
  end.

(** [v.k] for the property names the code reads ([pid], [id], [error],
    [message], [result], [method], [params], [uri], [diagnostics]):
    [None] is the [TypeError] of reading a property of [null],
    [Some None] is [undefined]; no number, string, boolean or array
    has a property of one of these names. *)
Definition getProp (v : json) (k : jsstring) : option (option json) :=
  match v with
  | JNull => None
  | JObj fs => Some (lookupField k fs)
  | _ => Some None
  end.

(** ** The daemon state store *)

(** What the store sees of the machine: the files with their text, and
    which values [process.kill(pid, 0)] accepts without throwing. *)
Record os : Type := {
  files : gmap jsstring jsstring;
  kill0 : option json -> bool
}.

Definition existsSync (fs : gmap jsstring jsstring) (path : jsstring) : bool :=
  bool_decide (is_Some (fs !! path)).

(** [None] where the call throws. *)
Definition readFileSync (fs : gmap jsstring jsstring) (path : jsstring) : option jsstring :=
  fs !! path.

Definition unlinkSync (fs : gmap jsstring jsstring) (path : jsstring)
  : option (gmap jsstring jsstring) :=
  match fs !! path with
  | Some _ => Some (delete path fs)
  | None => None
  end.

(** [try { process.kill(pid, 0); return true } catch { return false }] *)
Definition isProcessRunning (w : os) (pid : option json) : bool := kill0 w pid.

(** The result and the machine afterwards; every [None] inside the
    [try] block is caught and leads to [return null]. *)
Definition getDaemonState `{JSONRuntime} (w : os) (projectPath : jsstring)
  : option json * os :=
  let statePath := getStatePath projectPath in
  if negb (existsSync (files w) statePath) then (None, w)
  else
    match readFileSync (files w) statePath with
    | None => (None, w)
    | Some text =>
        match JSON_parse text with
        | None => (None, w)
        | Some state =>
            match getProp state (js "pid") with
            | None => (None, w)
            | Some pid =>
                if isProcessRunning w pid then (Some state, w)
                else
                  match unlinkSync (files w) statePath with
                  | Some files' => (None, {| files := files'; kill0 := kill0 w |})
                  | None => (None, w)
                  end
            end
        end
    end.

(** ** Port allocation *)

(** How a call ends. *)
Inductive completion (A : Type) : Type :=
  | Return (a : A)
  | ThrowError (message : jsstring).
Arguments Return {A} a.
Arguments ThrowError {A} message.

(** [Bun.listen] on 127.0.0.1 against the set of ports that are taken:
    the new set, or [None] where it throws. *)
Definition Bun_listen (taken : gset Z) (port : Z) : option (gset Z) :=
  if decide (0 <= port <= 65535 /\ port ∉ taken)%Z then Some ({[port]} ∪ taken) else None.

Definition server_stop (taken : gset Z) (port : Z) : gset Z := taken ∖ {[port]}.

(** The [for] loop of [findFreePort]; [fuel] counts its turns, [None] is
    a loop that did not finish within it. *)
Fixpoint findFreePort_loop (fuel : nat) (taken : gset Z) (start port : Z)
  : option (completion Z * gset Z) :=
  match fuel with
  | O => None
  | S fuel' =>
      if (port <? start + 100)%Z then
        match Bun_listen taken port with
        | Some taken' => Some (Return port, server_stop taken' port)
        | None => findFreePort_loop fuel' taken start (port + 1)%Z
        end
      else Some (ThrowError (js "No free port found"), taken)
  end.

Definition findFreePort (taken : gset Z) (start : Z) : option (completion Z * gset Z) :=
  findFreePort_loop 101 taken start start.

Fixpoint spanHex (s : jsstring) : list N :=
  match s with
  | c :: s' => match hexValue c with Some d => d :: spanHex s' | None => [] end
  | [] => []
  end.

(** [parseInt(s, 16)] for a string that starts with a digit or a letter:
    the value of its longest prefix of hexadecimal digits, [None] for
    [NaN] when there is no such digit. *)
Definition parseInt16 (s : jsstring) : option N :=
  match spanHex s with
  | [] => None
  | d :: ds => Some (fold_left (fun acc x => (acc * 16 + x)%N) (d :: ds) 0%N)
  end.

(** The port [spawnDaemon] asks for:
    [findFreePort(BASE_PORT + parseInt(hashPath(projectPath), 16) % 100)].
    With [NaN] for a start the loop of [findFreePort] has no turn. *)
Definition spawnDaemon_port (taken : gset Z) (projectPath : jsstring)
  : option (completion Z * gset Z) :=
  match parseInt16 (hashPath projectPath) with
  | Some h => findFreePort taken (BASE_PORT + Z.of_N h mod 100)%Z
  | None => Some (ThrowError (js "No free port found"), taken)
  end.

(** ** The LSP client *)

(** How a promise of [request] was settled; [Rejected] keeps the value
    the [Error] was built from. *)
Inductive settlement : Type :=
  | Resolved (value : option json)
  | Rejected (message : option json).

(** The connection: the texts written to it, and whether [end] was called. *)
Record socketState : Type := { written : list jsstring; ended : bool }.

(** The fields of [SimpleLspClient].  [pending] maps an id to the promise
    whose [resolve] and [reject] the entry holds.  [diagnostics] holds
    what [get] can tell about string keys: a key bound to [undefined]
    reads like a missing one, and is kept out of the map. *)
Record SimpleLspClient : Type := {
  socket : option socketState;
  buffer : jsstring;
  requestId : Z;
  pending : gmap Z nat;
  diagnostics : gmap jsstring json
}.

(** The client together with what the event loop keeps for it: the
    promises settled so far, the number of promises created, the
    callbacks handed to [setTimeout] that have not run (due time, and
    the [id] and promise of their closure), and the clock in ms. *)
Record runtime : Type := {
  client : SimpleLspClient;
  settled : gmap nat settlement;
  promiseCount : nat;
  timers : list (Z * (Z * nat));
  now : Z
}.

Definition new_SimpleLspClient : SimpleLspClient :=
  {| socket := None; buffer := []; requestId := 0; pending := ∅; diagnostics := ∅ |}.

Definition startup : runtime :=
  {| client := new_SimpleLspClient; settled := ∅; promiseCount := 0; timers := []; now := 0 |}.

Definition with_socket (c : SimpleLspClient) (s : option socketState) : SimpleLspClient :=
  {| socket := s; buffer := buffer c; requestId := requestId c;
     pending := pending c; diagnostics := diagnostics c |}.
Definition with_buffer (c : SimpleLspClient) (b : jsstring) : SimpleLspClient :=
  {| socket := socket c; buffer := b; requestId := requestId c;
     pending := pending c; diagnostics := diagnostics c |}.
Definition with_requestId (c : SimpleLspClient) (n : Z) : SimpleLspClient :=
  {| socket := socket c; buffer := buffer c; requestId := n;
     pending := pending c; diagnostics := diagnostics c |}.
Definition with_pending (c : SimpleLspClient) (p : gmap Z nat) : SimpleLspClient :=
  {| socket := socket c; buffer := buffer c; requestId := requestId c;
     pending := p; diagnostics := diagnostics c |}.
Definition with_diagnostics (c : SimpleLspClient) (d : gmap jsstring json) : SimpleLspClient :=
  {| socket := socket c; buffer := buffer c; requestId := requestId c;
     pending := pending c; diagnostics := d |}.
Definition with_client (rt : runtime) (c : SimpleLspClient) : runtime :=
  {| client := c; settled := settled rt; promiseCount := promiseCount rt;
     timers := timers rt; now := now rt |}.
Definition with_settled (rt : runtime) (s : gmap nat settlement) : runtime :=
  {| client := client rt; settled := s; promiseCount := promiseCount rt;
     timers := timers rt; now := now rt |}.

(** A promise is settled once; later calls of its [resolve] or [reject]
    do nothing. *)
Definition settle (p : nat) (s : settlement) (done : gmap nat settlement)
  : gmap nat settlement :=
  match done !! p with
  | Some _ => done
  | None => <[p := s]> done
  end.

(** [++n] on a number: exact below 2^53, where a double stops counting. *)
Definition MAX_EXACT : Z := 9007199254740992.
Definition increment (n : Z) : Z := if (n <? MAX_EXACT)%Z then (n + 1)%Z else n.

Definition REQUEST_TIMEOUT : Z := 30000.
Definition POLL_INTERVAL : Z := 100.
Definition PUBLISH_DIAGNOSTICS : jsstring := js "textDocument/publishDiagnostics".
Definition timeoutError : settlement := Rejected (Some (JStr (js "Request timeout"))).

(** [k in v]: [None] is the [TypeError] for a value that is no object. *)
Definition inOperator (k : jsstring) (v : json) : option bool :=
  match v with
  | JObj fs => Some (bool_decide (is_Some (lookupField k fs)))
  | JArr _ => Some false
  | _ => None
  end.

(** [v.k] where [v] is known to be an object or an array. *)
Definition field (v : json) (k : jsstring) : option json :=
  match v with
  | JObj fs => lookupField k fs
  | _ => None
  end.

(** [v.k] where [v] may be [undefined]. *)
Definition getPropOf (v : option json) (k : jsstring) : option (option json) :=
  match v with
  | Some v' => getProp v' k
  | None => None
  end.

Definition truthy (v : option json) : bool :=
  match v with
  | None | Some JNull => false
  | Some (JBool b) => b
  | Some (JNum n) => negb (n =? 0)%Z
  | Some (JStr s) => match s with [] => false | _ :: _ => true end
  | Some (JArr _) | Some (JObj _) => true
  end.

(** [v === s] for a string literal [s]. *)
Definition isString (v : option json) (s : jsstring) : bool :=
  match v with
  | Some (JStr t) => bool_decide (t = s)
  | _ => false
  end.

(** [pending.has(v)] and [pending.get(v)]: the keys are numbers. *)
Definition pendingEntry (p : gmap Z nat) (v : option json) : option (Z * nat) :=
  match v with
  | Some (JNum id) => match p !! id with Some pr => Some (id, pr) | None => None end
  | _ => None
  end.

(** [diagnostics.set(key, value)] as far as string keys can tell. *)
Definition setDiagnostics (m : gmap jsstring json) (key value : option json)
  : gmap jsstring json :=
  match key with
  | Some (JStr uri) =>
      match value with
      | Some d => <[uri := d]> m
      | None => delete uri m
      end
  | _ => m
  end.

Section Client.
Context `{JSONRuntime}.

(** [connect], once the connection is there. *)
Definition connect (c : SimpleLspClient) : SimpleLspClient :=
  with_socket c (Some {| written := []; ended := false |}).

(** [this.socket?.write(encodeMessage(msg))] *)
Definition send (c : SimpleLspClient) (msg : json) : SimpleLspClient :=
  match socket c with
  | Some s =>
      with_socket c (Some {| written := written s ++ [encodeMessage msg];
                             ended := ended s |})
  | None => c
  end.

(** The object literal of a message; a [params] that is [undefined]
    is left out by [JSON.stringify]. *)
Definition paramsField (params : option json) : list (jsstring * json) :=
  match params with
  | Some v => [(js "params", v)]
  | None => []
  end.

Definition requestMessage (id : Z) (method : jsstring) (params : option json) : json :=
  JObj ([(js "jsonrpc", JStr (js "2.0")); (js "id", JNum id);
         (js "method", JStr method)] ++ paramsField params).

Definition notifyMessage (method : jsstring) (params : option json) : json :=
  JObj ([(js "jsonrpc", JStr (js "2.0")); (js "method", JStr method)]
          ++ paramsField params).

(** The body of one turn of the [for] loop of [processBuffer];
    [None] is a [TypeError], thrown before anything was changed. *)
Definition dispatch (rt : runtime) (msg : json) : option runtime :=
  let c := client rt in
  match inOperator (js "id") msg with
  | None => None
  | Some hasId =>
      match (if hasId then pendingEntry (pending c) (field msg (js "id")) else None) with
      | Some (id, p) =>
          let c' := with_pending c (delete id (pending c)) in
          let outcome :=
            if truthy (field msg (js "error"))
            then Rejected (match field msg (js "error") with
                           | Some e => field e (js "message")
                           | None => None
                           end)
            else Resolved (field msg (js "result")) in
          Some (with_settled (with_client rt c') (settle p outcome (settled rt)))
      | None =>
          if isString (field msg (js "method")) PUBLISH_DIAGNOSTICS then
            match getPropOf (field msg (js "params")) (js "uri"),
                  getPropOf (field msg (js "params")) (js "diagnostics") with
            | Some uri, Some diags =>
                Some (with_client rt
                        (with_diagnostics c (setDiagnostics (diagnostics c) uri diags)))
            | _, _ => None
            end
          else Some rt
      end
  end.

(** The [for] loop: it ends early, with [true], when a turn throws. *)
Fixpoint dispatchAll (rt : runtime) (messages : list json) : runtime * bool :=
  match messages with
  | [] => (rt, false)
  | msg :: messages' =>
      match dispatch rt msg with
      | Some rt' => dispatchAll rt' messages'
      | None => (rt, true)
      end
  end.

Definition processBuffer (rt : runtime) : runtime * bool :=
  match parseMessages (buffer (client rt)) with
  | Some (messages, remaining) =>
      dispatchAll (with_client rt (with_buffer (client rt) remaining)) messages
  | None => (rt, false)
  end.

(** The [data] callback of the socket, for the text of a chunk. *)
Definition onData (rt : runtime) (text : jsstring) : runtime * bool :=
  processBuffer (with_client rt (with_buffer (client rt) (buffer (client rt) ++ text))).

(** [request]: the promise it returns, and the state after its
    executor ran. *)
Definition request (rt : runtime) (method : jsstring) (params : option json)
  : nat * runtime :=
  let c := client rt in
  let id := increment (requestId c) in
  let p := promiseCount rt in
  let c1 := with_pending (with_requestId c id) (<[id := p]> (pending c)) in
  let c2 := send c1 (requestMessage id method params) in
  (p, {| client := c2; settled := settled rt; promiseCount := S p;
         timers := timers rt ++ [((now rt + REQUEST_TIMEOUT)%Z, (id, p))];
         now := now rt |}).

Definition notify (c : SimpleLspClient) (method : jsstring) (params : option json)
  : SimpleLspClient :=
  send c (notifyMessage method params).

Definition close (c : SimpleLspClient) : SimpleLspClient :=
  match socket c with
  | Some s => with_socket c (Some {| written := written s; ended := true |})
  | None => c
  end.
End Client.

(** The callback [request] hands to [setTimeout], for the [id] and the
    promise [p] of its closure. *)
Definition onRequestTimeout (rt : runtime) (id : Z) (p : nat) : runtime :=
  match pending (client rt) !! id with
  | Some _ =>
      with_settled (with_client rt (with_pending (client rt) (delete id (pending (client rt)))))
        (settle p timeoutError (settled rt))
  | None => rt
  end.

(** Time passes: the clock moves on by [ms] and the callbacks that are
    due by then run, in the order they were handed over. *)
Definition runCallbacks (ts : list (Z * (Z * nat))) (rt : runtime) : runtime :=
  fold_left (fun rt' t => onRequestTimeout rt' t.2.1 t.2.2) ts rt.

Definition advance (rt : runtime) (ms : Z) : runtime :=
  runCallbacks (filter (fun t => (t.1 <= now rt + ms)%Z) (timers rt))
    {| client := client rt; settled := settled rt; promiseCount := promiseCount rt;
       timers := filter (fun t => (now rt + ms < t.1)%Z) (timers rt);
       now := (now rt + ms)%Z |}.

(** What happens to a client, one thing after the other. *)
Inductive event : Type :=
  | Connect
  | Data (text : jsstring)
  | Request (method : jsstring) (params : option json)
  | Notify (method : jsstring) (params : option json)
  | Advance (ms : Z)
  | Close.

Section Run.
Context `{JSONRuntime}.

Definition step (rt : runtime) (ev : event) : runtime :=
  match ev with
  | Connect => with_client rt (connect (client rt))
  | Data text => (onData rt text).1
  | Request method params => (request rt method params).2
  | Notify method params => with_client rt (notify (client rt) method params)
  | Advance ms => advance rt ms
  | Close => with_client rt (close (client rt))
  end.

Definition run (rt : runtime) (evs : list event) : runtime := fold_left step evs rt.
End Run.

(** [getDiagnostics]: [??] turns [undefined] and [null] into [[]]. *)
Definition getDiagnostics (c : SimpleLspClient) (uri : jsstring) : json :=
  match diagnostics c !! uri with
  | None | Some JNull => JArr []
  | Some d => d
  end.

Section Waiting.
(** The client as it is at each time, and when a [Bun.sleep(100)]
    that starts at a time is over. *)
Variable clientAt : Z -> SimpleLspClient.
Variable wake : Z -> Z.

(** The [while] loop of [waitForDiagnostics], entered at time [t];
    [fuel] counts its turns.  The result comes with the time of the
    [return]. *)
Fixpoint waitLoop (fuel : nat) (uri : jsstring) (timeoutMs start t : Z)
  : option (json * Z) :=
  match fuel with
  | O => None
  | S fuel' =>
      if (t - start <? timeoutMs)%Z then
        match diagnostics (clientAt t) !! uri with
        | Some diags => Some (diags, t)
        | None => waitLoop fuel' uri timeoutMs start (wake t)
        end
      else Some (JArr [], t)
  end.

(** The time of the [k]-th look-up after one at time [t]. *)
Fixpoint pollTime (k : nat) (t : Z) : Z :=
  match k with
  | O => t
  | S k' => pollTime k' (wake t)
  end.

(** [waitForDiagnostics(uri, timeoutMs)] called at time [start]. *)
Definition waitForDiagnostics (fuel : nat) (uri : jsstring) (timeoutMs start : Z)
  : option (json * Z) :=
  waitLoop fuel uri timeoutMs start start.
End Waiting.

(** ** Notions used to state the properties *)

(** Messages found earlier, put in front of a result of the decoder. *)
Definition prepend (acc : list json) (r : list json * jsstring) : list json * jsstring :=
  (acc ++ r.1, r.2).

(** What the decoder keeps of a payload: its value if it is JSON. *)
Definition parsed `{JSONRuntime} (payload : jsstring) : list json :=
  match JSON_parse payload with Some v => [v] | None => [] end.

(** A frame: the header [encodeMessage] writes for [n], the delimiter,
    and a payload. *)
Definition frame (n : N) (payload : jsstring) : jsstring :=
  CONTENT_LENGTH ++ N_toString n ++ CRLFCRLF ++ payload.

(** What a probe that starts at [start] ends with. *)
Definition probed (taken : gset Z) (start : Z) (r : completion Z) : Prop :=
  match r with
  | Return port =>
      (start <= port < start + 100)%Z /\ (port ∉ taken) /\
      forall q, (start <= q < port)%Z -> q ∈ taken
  | ThrowError message =>
      (message = js "No free port found") /\
      (forall q, (start <= q < start + 100)%Z -> q ∈ taken)
  end.

(** The ids and promises in use are below their counters. *)
Definition wellFormed (rt : runtime) : Prop :=
  (forall id p, pending (client rt) !! id = Some p ->
                (id <= requestId (client rt))%Z /\ p < promiseCount rt) /\
  (forall due id p, (due, (id, p)) ∈ timers rt ->
                    (id <= requestId (client rt))%Z /\ p < promiseCount rt) /\
  (forall p, promiseCount rt <= p -> settled rt !! p = None).

(** The request [id], with promise [p] and its timer due at [deadline],
    has neither been answered nor timed out, and no other request
    shares its id or its promise. *)
Definition awaiting (id : Z) (p : nat) (deadline : Z) (rt : runtime) : Prop :=
  pending (client rt) !! id = Some p /\
  settled rt !! p = None /\
  (id <= requestId (client rt))%Z /\
  p < promiseCount rt /\
  (forall id' p', pending (client rt) !! id' = Some p' -> id' <> id -> p' <> p) /\
  (forall due id' p', (due, (id', p')) ∈ timers rt ->
                      (id' = id /\ p' = p /\ due = deadline) \/ (id' <> id /\ p' <> p)) /\
  (deadline, (id, p)) ∈ timers rt /\
  (now rt < deadline)%Z.

(** [msg.id === id] *)
Definition hasId (id : Z) (msg : json) : bool :=
  match field msg (js "id") with
  | Some (JNum n) => (n =? id)%Z
  | _ => false
  end.

Section Quiet.
Context `{JSONRuntime}.

(** Nothing in [ev], met in state [rt], answers request [id] or
    reaches [deadline]: a chunk completes no message with this id,
    time stops short of [deadline], and a further request finds the
    counter below 2^53. *)
Definition quietEvent (id deadline : Z) (rt : runtime) (ev : event) : bool :=
  match ev with
  | Data text =>
      match parseMessages (buffer (client rt) ++ text) with
      | Some (messages, _) => forallb (fun msg => negb (hasId id msg)) messages
      | None => true
      end
  | Advance ms => (now rt + ms <? deadline)%Z
  | Request _ _ => (requestId (client rt) <? MAX_EXACT)%Z
  | Connect | Notify _ _ | Close => true
  end.

Fixpoint quiet (id deadline : Z) (rt : runtime) (evs : list event) : bool :=
  match evs with
  | [] => true
  | ev :: evs' => quietEvent id deadline rt ev && quiet id deadline (step rt ev) evs'
  end.
End Quiet.

(** ** Sample messages *)

(** [{"a":"é"}]: nine code units, ten bytes. *)
Definition msg_e_acute : json := JObj [(js "a", JStr [233%N])].

(** [{"b":1}] *)
Definition msg_b1 : json := JObj [(js "b", JNum 1)].

(** A string one code unit at a time. *)
Definition unitChunks (s : jsstring) : list jsstring := (fun c => [c]) <$> s.

(** ** A sample project and its record *)

Definition demoProject : jsstring := js "/home/u/proj".

Definition demoRecord : json :=
  JObj [(js "pid", JNum 4242); (js "port", JNum 19213);
        (js "projectPath", JStr demoProject);
        (js "startedAt", JNum 1700000000000); (js "initialized", JBool false)].

(** The system knows one process. *)
Definition onlyPid (n : Z) (v : option json) : bool :=
  match v with
  | Some (JNum m) => (m =? n)%Z
  | _ => false
  end.

Definition demoFiles (text : jsstring) : gmap jsstring jsstring :=
  {[ getStatePath demoProject := text ]}.

(** The record on disk, with its process running and with none running. *)
Definition os_live : os :=
  {| files := demoFiles (JSON_stringify demoRecord); kill0 := onlyPid 4242 |}.
Definition os_stale : os :=
  {| files := demoFiles (JSON_stringify demoRecord); kill0 := onlyPid 1 |}.
(** No record, and a record cut off in the middle. *)
Definition os_none : os := {| files := ∅; kill0 := onlyPid 4242 |}.
Definition os_torn : os :=
  {| files := demoFiles (take 20 (JSON_stringify demoRecord)); kill0 := onlyPid 4242 |}.

(** ** A sample session *)

Definition demoUri : jsstring := js "file:///a.rs".

Definition demoDiagnostic (message : jsstring) : json :=
  JObj [(js "range",
         JObj [(js "start", JObj [(js "line", JNum 0); (js "character", JNum 4)]);
               (js "end", JObj [(js "line", JNum 0); (js "character", JNum 9)])]);
        (js "severity", JNum 1); (js "message", JStr message)].

(** A push of one diagnostic for [demoUri]. *)
Definition demoPush : json :=
  JObj [(js "jsonrpc", JStr (js "2.0"));
        (js "method", JStr PUBLISH_DIAGNOSTICS);
        (js "params",
         JObj [(js "uri", JStr demoUri);
               (js "diagnostics", JArr [demoDiagnostic (js "stub error")])])].

(** A client that holds two older diagnostics for [demoUri]. *)
Definition rt_with_old : runtime :=
  with_client startup
    (with_diagnostics new_SimpleLspClient
       {[ demoUri := JArr [demoDiagnostic (js "old one"); demoDiagnostic (js "old two")] ]}).

(** A client that connected and sent two requests. *)
Definition rt_two_requests : runtime :=
  run startup [Connect; Request (js "initialize") None; Request (js "shutdown") None].

(** ** Sample time lines *)

Definition demoEntry : json := JArr [demoDiagnostic (js "stub error")].

(** A client that receives the push for [demoUri] at time [t0]. *)
Definition pushedAt (t0 : Z) (t : Z) : SimpleLspClient :=
  if (t <? t0)%Z then new_SimpleLspClient
  else with_diagnostics new_SimpleLspClient {[ demoUri := demoEntry ]}.

(** A client that never receives one. *)
Definition neverPushed (t : Z) : SimpleLspClient := new_SimpleLspClient.

(** Sleeps that take exactly 100 ms. *)
Definition sleepExactly (t : Z) : Z := (t + POLL_INTERVAL)%Z.

(** The response to request 1, with [null] for a result. *)
Definition demoResponse1 : json :=
  JObj [(js "jsonrpc", JStr (js "2.0")); (js "id", JNum 1); (js "result", JNull)].

(** A client that connected and sent [initialize]. *)
Definition demoBefore : list event := [Connect; Request (js "initialize") None].

(** After a second request: the answer to the first, a push, a
    notification, and 29.999 s. *)
Definition demoMeanwhile `{JSONRuntime} : list event :=
  [Data (encodeMessage demoResponse1); Data (encodeMessage demoPush);
   Notify (js "initialized") (Some (JObj [])); Advance 29999].

(** ** [node:path] on POSIX, as far as the code uses it *)

Module Path.
Definition SLASH : N := 47.
Definition DOT : N := 46.

Fixpoint dropSlashes (r : jsstring) : jsstring :=
  match r with
  | c :: r' => if (c =? SLASH)%N then dropSlashes r' else r
  | [] => []
  end.

(** Up to the next slash, which is kept. *)
Fixpoint dropSegment (r : jsstring) : jsstring :=
  match r with
  | c :: r' => if (c =? SLASH)%N then r else dropSegment r'
  | [] => []
  end.

(** [dirname(path)]: the scan runs from the end down to index 1, over
    the slashes at the end and the segment before them, and stops at
    the slash before that segment. *)
Definition dirname (path : jsstring) : jsstring :=
  match path with
  | [] => js "."
  | c0 :: rest =>
      match dropSegment (dropSlashes (rev rest)) with
      | [] => if (c0 =? SLASH)%N then js "/" else js "."
      | _ :: before =>
          if (c0 =? SLASH)%N && (length before =? 0)%nat then js "//"
          else c0 :: rev before
      end
  end.

(** The segments between the slashes of a path. *)
Fixpoint segments (cur : jsstring) (s : jsstring) : list jsstring :=
  match s with
  | [] => [cur]
  | c :: s' => if (c =? SLASH)%N then cur :: segments [] s' else segments (cur ++ [c]) s'
  end.

(** One segment more on the stack of the segments kept so far (the
    latest first): an empty one and [.] are skipped, [..] takes the
    latest one off, or stays if there is none to take and the path
    is relative. *)
Definition pushSegment (allowAboveRoot : bool) (stack : list jsstring) (seg : jsstring)
  : list jsstring :=
  if decide (seg = [] \/ seg = [DOT]) then stack
  else if decide (seg = [DOT; DOT]) then
    match stack with
    | top :: stack' =>
        if decide (top = [DOT; DOT]) then seg :: stack else stack'
    | [] => if allowAboveRoot then [seg] else []
    end
  else seg :: stack.

Fixpoint joinWith (sep : jsstring) (parts : list jsstring) : jsstring :=
  match parts with
  | [] => []
  | [p] => p
  | p :: parts' => p ++ sep ++ joinWith sep parts'
  end.

Definition normalizeString (path : jsstring) (allowAboveRoot : bool) : jsstring :=
  joinWith [SLASH] (rev (fold_left (pushSegment allowAboveRoot) (segments [] path) [])).

Definition normalize (path : jsstring) : jsstring :=
  match path with
  | [] => js "."
  | c0 :: _ =>
      let isAbsolute := (c0 =? SLASH)%N in
      let trailingSeparator :=
        match rev path with c :: _ => (c =? SLASH)%N | [] => false end in
      let p := normalizeString path (negb isAbsolute) in
      match p with
      | [] => if isAbsolute then js "/" else if trailingSeparator then js "./" else js "."
      | _ :: _ =>
          let p' := if trailingSeparator then p ++ [SLASH] else p in
          if isAbsolute then SLASH :: p' else p'
      end
  end.

(** [join(a, b)]: the arguments that are not empty, with a slash
    between them, normalized. *)
Definition join (a b : jsstring) : jsstring :=
  match a, b with
  | [], [] => js "."
  | [], _ => normalize b
  | _, [] => normalize a
  | _, _ => normalize (a ++ [SLASH] ++ b)
  end.
End Path.

(** ** [utils.ts] *)

Module Utils.
(** [s.includes(pat)] *)
Definition includes (pat s : jsstring) : bool :=
  match indexOf pat s with Some _ => true | None => false end.

Definition CARGO_TOML : jsstring := js "Cargo.toml".

(** The test of a directory by the loop of [findCargoRoot]: it has a
    [Cargo.toml], and this one has a [workspace] section or the
    directory above has no [Cargo.toml]. *)
Definition isCargoRoot (fs : gmap jsstring jsstring) (dir : jsstring) : bool :=
  match readFileSync fs (Path.join dir CARGO_TOML) with
  | Some content =>
      includes (js "[workspace]") content
      || negb (existsSync fs (Path.join (Path.dirname dir) CARGO_TOML))
  | None => false
  end.

(** The [while] loop of [findCargoRoot]; [fuel] counts its turns and
    the outer [None] is a loop that did not finish within it.  Inside,
    [None] is [null].  A file that exists has a text, so that the
    branch without one is never taken. *)
Fixpoint findCargoRoot_loop (fuel : nat) (fs : gmap jsstring jsstring) (dir : jsstring)
  : option (option jsstring) :=
  match fuel with
  | O => None
  | S fuel' =>
      if decide (dir = js "/") then Some None
      else
        let cargoToml := Path.join dir CARGO_TOML in
        if existsSync fs cargoToml then
          match readFileSync fs cargoToml with
          | Some content =>
              if includes (js "[workspace]") content
                 || negb (existsSync fs (Path.join (Path.dirname dir) CARGO_TOML))
              then Some (Some dir)
              else findCargoRoot_loop fuel' fs (Path.dirname dir)
          | None => findCargoRoot_loop fuel' fs (Path.dirname dir)
          end
        else findCargoRoot_loop fuel' fs (Path.dirname dir)
  end.

Definition findCargoRoot (fuel : nat) (fs : gmap jsstring jsstring) (filePath : jsstring)
  : option (option jsstring) :=
  findCargoRoot_loop fuel fs (Path.dirname filePath).

(** [hashProjectPath]: twelve digits of the hash [hashPath] takes eight of. *)
Definition hashProjectPath (projectPath : jsstring) : jsstring :=
  slice 0 12 (SHA256.hexdigest (utf8_encode projectPath)).

Definition getSocketPath (projectPath : jsstring) : jsstring :=
  js "/tmp/claude-lsp-ra-" ++ hashProjectPath projectPath ++ js ".sock".

Definition getPidPath (projectPath : jsstring) : jsstring :=
  js "/tmp/claude-lsp-ra-" ++ hashProjectPath projectPath ++ js ".pid".

Record Position : Type := { line : Z; character : Z }.
Record Range : Type := { range_start : Position; range_end : Position }.
Record Diagnostic : Type := {
  range : Range;
  severity : option Z;
  code : option (jsstring + Z);
  source : option jsstring;
  message : jsstring
}.

Definition severityWord (d : Diagnostic) : jsstring :=
  match severity d with
  | Some 1%Z => js "error"
  | Some 2%Z => js "warning"
  | _ => js "info"
  end.

(** [`${severity}[${loc}]: ${d.message}`] *)
Definition formatLine (d : Diagnostic) : jsstring :=
  let loc := Z_toString (line (range_start (range d)) + 1) ++ js ":"
             ++ Z_toString (character (range_start (range d)) + 1) in
  severityWord d ++ js "[" ++ loc ++ js "]: " ++ message d.

Definition formatDiagnostics (diagnostics : list Diagnostic) : jsstring :=
  Path.joinWith [LF] (formatLine <$> diagnostics).
End Utils.

(** ** [index.ts]: the hook *)

Module Hook.
(** What [main] finds outside: what [rustfmt --check] gives for a
    file, its text on the standard error and its exit code, [None]
    when it cannot be started; and how [ensureDaemon] followed by
    [queryDiagnostics] ends for a project root and a file. *)
Record world : Type := {
  rustfmt : jsstring -> option (jsstring * Z);
  daemon : jsstring -> jsstring -> completion (list Utils.Diagnostic)
}.

(** How the process ends: [process.exit(code)]; the handler of a
    rejected [main], which prints a fatal error with the message of
    the runtime and exits with 1; [main] running to its end; [main]
    waiting for a [findCargoRoot] that does not return. *)
Inductive outcome : Type :=
  | Exit (code : Z)
  | Fatal
  | Returns
  | Hangs.

(** [s.endsWith(suffix)] *)
Definition endsWith (suffix s : jsstring) : bool := startsWith (rev suffix) (rev s).

(** [v?.k] *)
Definition optionalChain (v : option json) (k : jsstring) : option json :=
  match v with
  | None | Some JNull => None
  | Some v' => match getProp v' k with Some x => x | None => None end
  end.

(** [a ?? b] *)
Definition nullish (a b : option json) : option json :=
  match a with
  | None | Some JNull => b
  | Some _ => a
  end.

(** [data.tool_input?.file_path ?? data.tool_result?.filePath ?? ""];
    [None] is the [TypeError] of reading a property of [null]. *)
Definition filePathOf (data : json) : option (option json) :=
  match getProp data (js "tool_input"), getProp data (js "tool_result") with
  | Some toolInput, Some toolResult =>
      Some (nullish (nullish (optionalChain toolInput (js "file_path"))
                             (optionalChain toolResult (js "filePath")))
                    (Some (JStr [])))
  | _, _ => None
  end.

(** What [fallbackSyntaxCheck] prints, and the exit code if it exits. *)
Definition fallbackSyntaxCheck (w : world) (filePath : jsstring)
  : list jsstring * option Z :=
  match rustfmt w filePath with
  | Some (stderr, exitCode) =>
      if negb (exitCode =? 0)%Z && match stderr with [] => false | _ :: _ => true end
      then ([stderr], Some 2%Z)
      else ([], None)
  | None => ([], None)
  end.

Definition hasSeverity (n : Z) (d : Utils.Diagnostic) : bool :=
  match Utils.severity d with
  | Some m => (m =? n)%Z
  | None => false
  end.

(** The [try] block of [main] once the diagnostics are there. *)
Definition report (diagnostics : list Utils.Diagnostic) : list jsstring * outcome :=
  let errors := List.filter (hasSeverity 1) diagnostics in
  match errors with
  | _ :: _ => ([Utils.formatDiagnostics errors], Exit 2)
  | [] =>
      let warnings := List.filter (hasSeverity 2) diagnostics in
      match warnings with
      | _ :: _ => ([js "[warnings]" ++ [LF] ++ Utils.formatDiagnostics warnings], Returns)
      | [] => ([], Returns)
      end
  end.

(** [main] for the text on the standard input: the texts handed to
    [console.error], and how the process ends. *)
Definition main `{JSONRuntime} (fuel : nat) (fs : gmap jsstring jsstring) (w : world)
    (input : jsstring) : list jsstring * outcome :=
  match input with
  | [] => ([], Exit 0)
  | _ :: _ =>
      match JSON_parse input with
      | None => ([], Exit 0)
      | Some data =>
          match filePathOf data with
          | Some (Some (JStr filePath)) =>
              if negb (endsWith (js ".rs") filePath) then ([], Exit 0)
              else
                match Utils.findCargoRoot fuel fs filePath with
                | None => ([], Hangs)
                | Some None | Some (Some []) =>
                    ((fallbackSyntaxCheck w filePath).1,
                     Exit (default 0%Z (fallbackSyntaxCheck w filePath).2))
                | Some (Some projectRoot) =>
                    match daemon w projectRoot filePath with
                    | Return diagnostics => report diagnostics
                    | ThrowError message =>
                        ((js "[claude-lsp] Daemon error: " ++ message
                             ++ js ", falling back to rustfmt")
                           :: (fallbackSyntaxCheck w filePath).1,
                         match (fallbackSyntaxCheck w filePath).2 with
                         | Some code => Exit code
                         | None => Returns
                         end)
                    end
                end
          | Some _ | None => ([], Fatal)
          end
      end
  end.
End Hook.

(** ** Finding and starting rust-analyzer *)

(** White space and line terminators, which [trim] takes off. *)
Definition isWhiteSpace (c : N) : bool :=
  ((9 <=? c) && (c <=? 13) || (c =? 32) || (c =? 160) || (c =? 5760)
   || (8192 <=? c) && (c <=? 8202) || (c =? 8232) || (c =? 8233) || (c =? 8239)
   || (c =? 8287) || (c =? 12288) || (c =? 65279))%N.

Fixpoint trimStart (s : jsstring) : jsstring :=
  match s with
  | c :: s' => if isWhiteSpace c then trimStart s' else s
  | [] => []
  end.

(** [s.trim()] *)
Definition trim (s : jsstring) : jsstring := rev (trimStart (rev (trimStart s))).

(** A child process that ran to its end: what it wrote to its standard
    output and its exit code. *)
Record child : Type := { output : jsstring; exited : Z }.

(** The body of one [try] block of [findRustAnalyzer], for a child that
    ran ([None]: [spawn] threw): the trimmed output, if the test
    [(await proc.exited) === 0 && output.trim()] holds. *)
Definition trimmedOutput (proc : option child) : option jsstring :=
  match proc with
  | Some p =>
      if (exited p =? 0)%Z then
        match trim (output p) with
        | [] => None
        | c :: t => Some (c :: t)
        end
      else None
  | None => None
  end.

(** [findRustAnalyzer], for the run of [nix build] and the run of
    [which]; [None] is [null]. *)
Definition findRustAnalyzer (nix which : option child) : option jsstring :=
  match trimmedOutput nix with
  | Some out => Some (out ++ js "/bin/rust-analyzer")
  | None => trimmedOutput which
  end.

(** What [spawnDaemon] meets outside the machine's files and ports: how
    [nix build] and [which] run, how the [spawn] of rust-analyzer ends
    (its pid, or what it throws), and [Date.now()]. *)
Record outside : Type := {
  nixBuild : option child;
  whichRustAnalyzer : option child;
  spawned : completion Z;
  dateNow : Z
}.

(** The machine: the files and processes the state store sees, the
    directories, the ports of 127.0.0.1 that are listened on, and what
    the file system answers where it refuses to create or to write a
    path (no permission, a disk that is full or read-only, and the
    like). *)
Record machine : Type := {
  disk : os;
  dirs : gset jsstring;
  ports : gset Z;
  refused : jsstring -> option jsstring
}.

Definition with_disk (m : machine) (w : os) : machine :=
  {| disk := w; dirs := dirs m; ports := ports m; refused := refused m |}.
Definition with_ports (m : machine) (p : gset Z) : machine :=
  {| disk := disk m; dirs := dirs m; ports := p; refused := refused m |}.
Definition with_dirs (m : machine) (d : gset jsstring) : machine :=
  {| disk := disk m; dirs := d; ports := ports m; refused := refused m |}.

(** [existsSync] for a path that may name a file or a directory. *)
Definition existsPath (m : machine) (path : jsstring) : bool :=
  existsSync (files (disk m)) path || bool_decide (path ∈ dirs m).

(** [mkdirSync(path, { recursive: true })] for a path right below
    [/tmp]: the directory is there afterwards, or the call throws what
    the file system answers. *)
Definition mkdirSync (m : machine) (path : jsstring) : completion machine :=
  match refused m path with
  | Some message => ThrowError message
  | None => Return (with_dirs m ({[path]} ∪ dirs m))
  end.

Definition ensureStateDir (m : machine) : completion machine :=
  if negb (existsPath m STATE_DIR) then mkdirSync m STATE_DIR else Return m.

(** What stands for the messages of two errors of the system. *)
Definition ENOENT : jsstring := js "ENOENT".
Definition EISDIR : jsstring := js "EISDIR".

(** [writeFileSync(path, text)]: it throws what the file system answers
    where it refuses the path, and it throws without the directory of
    the path and when the path names a directory. *)
Definition writeFileSync (m : machine) (path text : jsstring) : completion machine :=
  match refused m path with
  | Some message => ThrowError message
  | None =>
      if negb (bool_decide (Path.dirname path ∈ dirs m)) then ThrowError ENOENT
      else if bool_decide (path ∈ dirs m) then ThrowError EISDIR
      else Return (with_disk m {| files := <[path := text]> (files (disk m));
                                  kill0 := kill0 (disk m) |})
  end.

Definition isPid (pid : Z) (v : option json) : bool :=
  match v with
  | Some (JNum n) => (n =? pid)%Z
  | _ => false
  end.

(** The machine once a process with this pid runs. *)
Definition withProcess (w : os) (pid : Z) : os :=
  {| files := files w; kill0 := fun v => isPid pid v || kill0 w v |}.

(** The [DaemonState] object literal of [spawnDaemon]. *)
Definition daemonState (pid port : Z) (projectPath : jsstring) (startedAt : Z) : json :=
  JObj [(js "pid", JNum pid); (js "port", JNum port);
        (js "projectPath", JStr projectPath); (js "startedAt", JNum startedAt);
        (js "initialized", JBool false)].

(** What stands for the message of [Bun.listen] on a port in use. *)
Definition EADDRINUSE : jsstring := js "EADDRINUSE".

(** [spawnDaemon], for runs of [nix build] and [which] that ended, and
    while no one else acts on the machine.  The outer [None] is a probe
    for a port that did not finish. *)
Definition spawnDaemon `{JSONRuntime} (o : outside) (m : machine) (projectPath : jsstring)
  : option (completion json * machine) :=
  match ensureStateDir m with
  | ThrowError message => Some (ThrowError message, m)
  | Return m1 =>
      match findRustAnalyzer (nixBuild o) (whichRustAnalyzer o) with
      | None | Some [] => Some (ThrowError (js "rust-analyzer not found"), m1)
      | Some (_ :: _) =>
          match spawnDaemon_port (ports m1) projectPath with
          | None => None
          | Some (ThrowError message, taken) => Some (ThrowError message, with_ports m1 taken)
          | Some (Return port, taken) =>
              match spawned o with
              | ThrowError message => Some (ThrowError message, with_ports m1 taken)
              | Return pid =>
                  let m2 := with_disk (with_ports m1 taken) (withProcess (disk m1) pid) in
                  match Bun_listen taken port with
                  | None => Some (ThrowError EADDRINUSE, m2)
                  | Some taken' =>
                      let m3 := with_ports m2 taken' in
                      let state := daemonState pid port projectPath (dateNow o) in
                      match writeFileSync m3 (getStatePath projectPath)
                                          (JSON_stringify state) with
                      | Return m4 => Some (Return state, m4)
                      | ThrowError message => Some (ThrowError message, m3)
                      end
                  end
              end
          end
      end
  end.

(** The callback of [ra.exited] that [spawnDaemon] leaves behind, for
    the project and the port of its closure.  An [unlinkSync] that
    throws ends the callback. *)
Definition onExited (m : machine) (projectPath : jsstring) (port : Z) : machine :=
  let m1 := with_ports m (server_stop (ports m) port) in
  let statePath := getStatePath projectPath in
  if existsPath m1 statePath then
    match unlinkSync (files (disk m1)) statePath with
    | Some files' => with_disk m1 {| files := files'; kill0 := kill0 (disk m1) |}
    | None => m1
    end
  else m1.

(** [state.port] for a state that is not [null]. *)
Definition portOf (state : json) : option json :=
  match getProp state (js "port") with
  | Some v => v
  | None => None
  end.

(** [ensureDaemon], up to the [Bun.sleep(500)] after a start. *)
Definition ensureDaemon `{JSONRuntime} (o : outside) (m : machine) (projectPath : jsstring)
  : option (completion (option json) * machine) :=
  let found := getDaemonState (disk m) projectPath in
  let m0 := with_disk m found.2 in
  match found.1 with
  | Some state =>
      if truthy (Some state) then Some (Return (portOf state), m0)
      else
        match spawnDaemon o m0 projectPath with
        | Some (Return state', m') => Some (Return (portOf state'), m')
        | Some (ThrowError message, m') => Some (ThrowError message, m')
        | None => None
        end
  | None =>
      match spawnDaemon o m0 projectPath with
      | Some (Return state', m') => Some (Return (portOf state'), m')
      | Some (ThrowError message, m') => Some (ThrowError message, m')
      | None => None
      end
  end.

(** The key of [clientCache] in [queryDiagnostics]:
    [`${projectPath}:${port}`]. *)
Definition cacheKey (projectPath : jsstring) (port : Z) : jsstring :=
  projectPath ++ js ":" ++ Z_toString port.

(** ** Further notions used to state properties *)

(** Every pending request has its timer waiting, due within the
    request timeout from now. *)
Definition armed (rt : runtime) : Prop :=
  forall id p, pending (client rt) !! id = Some p ->
    exists due, (due, (id, p)) ∈ timers rt /\ (due <= now rt + REQUEST_TIMEOUT)%Z.

(** Time does not run backwards. *)
Definition forwardEvent (ev : event) : bool :=
  match ev with
  | Advance ms => (0 <=? ms)%Z
  | _ => true
  end.

Definition timeForward (evs : list event) : bool := forallb forwardEvent evs.

(** The directories once the state directory was made, if it had to be. *)
Definition withStateDir (m : machine) : gset jsstring :=
  if negb (existsPath m STATE_DIR) then {[STATE_DIR]} ∪ dirs m else dirs m.

(** The machine after [spawnDaemon] started rust-analyzer with this
    pid and bound this port: without the record, and with it. *)
Definition unwritten (m : machine) (pid port : Z) : machine :=
  {| disk := withProcess (disk m) pid;
     dirs := withStateDir m;
     ports := {[port]} ∪ ports m;
     refused := refused m |}.

Definition started `{JSONRuntime} (o : outside) (m : machine) (projectPath : jsstring)
    (pid port : Z) : machine :=
  {| disk := {| files := <[getStatePath projectPath :=
                            JSON_stringify (daemonState pid port projectPath (dateNow o))]>
                           (files (disk m));
                kill0 := kill0 (withProcess (disk m) pid) |};
     dirs := withStateDir m;
     ports := {[port]} ∪ ports m;
     refused := refused m |}.

(** A pending request has a promise that is not settled, which it
    shares with no other pending request, and the timers of the list
    know a promise that is pending under the id of its request. *)
Definition unsettledPending (ts : list (Z * (Z * nat))) (rt : runtime) : Prop :=
  (forall id p, pending (client rt) !! id = Some p -> settled rt !! p = None) /\
  (forall id id' p, pending (client rt) !! id = Some p ->
                    pending (client rt) !! id' = Some p -> id = id') /\
  (forall due id p id', (due, (id, p)) ∈ ts ->
                        pending (client rt) !! id' = Some p -> id' = id).

(** ** Samples for the hook *)

Definition demoDiag (sev : option Z) (l c : Z) (text : jsstring) : Utils.Diagnostic :=
  {| Utils.range := {| Utils.range_start := {| Utils.line := l; Utils.character := c |};
                       Utils.range_end := {| Utils.line := l; Utils.character := c + 1 |} |};
     Utils.severity := sev; Utils.code := None; Utils.source := None;
     Utils.message := text |}.

(** A workspace at [/w] with one source file. *)
Definition demoTree : gmap jsstring jsstring :=
  {[ js "/w/Cargo.toml" := js "[workspace]" ]}.

Definition demoHookInput (filePath : jsstring) : json :=
  JObj [(js "tool_input", JObj [(js "file_path", JStr filePath)])].

(** A daemon that reports one error and one warning, and a [rustfmt]
    that is not there. *)
Definition demoWorld : Hook.world :=
  {| Hook.rustfmt := fun _ => None;
     Hook.daemon := fun _ _ =>
       Return [demoDiag (Some 2%Z) 0 0 (js "unused variable");
               demoDiag (Some 1%Z) 2 4 (js "mismatched types")] |}.

(** ** Samples for the start of the daemon *)

(** [which] finds rust-analyzer, [nix] is not there; the child gets
    pid 4711. *)
Definition demoOutside : outside :=
  {| nixBuild := None;
     whichRustAnalyzer :=
       Some {| output := js "/usr/bin/rust-analyzer" ++ [LF]; exited := 0 |};
     spawned := Return 4711%Z;
     dateNow := 1700000000000%Z |}.

(** A machine with no file, no process and no port in use, where
    [/tmp/claude-lsp] is not there yet. *)
Definition demoMachine : machine :=
  {| disk := {| files := ∅; kill0 := fun _ => false |}; dirs := ∅; ports := ∅;
     refused := fun _ => None |}.


(** The port the probe for [demoProject] starts at, and finds free on
    [demoMachine]. *)
Definition demoPort : Z := 19213.


(** ** [new TextDecoder().decode(data)] *)

(** A code point in UTF-16. *)
Definition utf16 (cp : N) : jsstring :=
  if (cp <? 65536)%N then [cp]
  else [55296 + (cp - 65536) / 1024; 56320 + (cp - 65536) mod 1024]%N.

Definition REPLACEMENT : N := 65533.
Definition BOM : N := 65279.

(** A sequence of several bytes that is not complete: the code point
    so far, the number of bytes that are needed after the next one, and
    the bounds of the next one. *)
Record sequence : Type := { codePoint : N; more : nat; lower : N; upper : N }.

(** A byte that is met when no sequence is open: what is written for
    it, and the sequence it opens. *)
Definition lead (b : N) : jsstring * option sequence :=
  if (b <=? 127)%N then ([b], None)
  else if ((194 <=? b) && (b <=? 223))%N then
    ([], Some {| codePoint := N.land b 31; more := 0; lower := 128; upper := 191 |})
  else if ((224 <=? b) && (b <=? 239))%N then
    ([], Some {| codePoint := N.land b 15; more := 1;
                 lower := if (b =? 224)%N then 160 else 128;
                 upper := if (b =? 237)%N then 159 else 191 |})
  else if ((240 <=? b) && (b <=? 244))%N then
    ([], Some {| codePoint := N.land b 7; more := 2;
                 lower := if (b =? 240)%N then 144 else 128;
                 upper := if (b =? 244)%N then 143 else 191 |})
  else ([REPLACEMENT], None).

(** The UTF-8 decoder: a byte that does not continue the open sequence
    ends it with U+FFFD and is read again as a first byte; so does the
    end of the bytes. *)
Fixpoint decodeFrom (open : option sequence) (bytes : list N) : jsstring :=
  match bytes with
  | [] => match open with Some _ => [REPLACEMENT] | None => [] end
  | b :: bytes' =>
      match open with
      | None => (lead b).1 ++ decodeFrom (lead b).2 bytes'
      | Some s =>
          if ((lower s <=? b) && (b <=? upper s))%N then
            let cp := (codePoint s * 64 + N.land b 63)%N in
            match more s with
            | O => utf16 cp ++ decodeFrom None bytes'
            | S n =>
                decodeFrom (Some {| codePoint := cp; more := n; lower := 128; upper := 191 |})
                           bytes'
            end
          else REPLACEMENT :: (lead b).1 ++ decodeFrom (lead b).2 bytes'
      end
  end.

(** [new TextDecoder().decode(data)]: a decoder of its own for the
    bytes of this call, which are all it sees; a byte order mark at
    their start is left out. *)
Definition TextDecoder_decode (data : list N) : jsstring :=
  match decodeFrom None data with
  | c :: text => if (c =? BOM)%N then text else c :: text
  | [] => []
  end.

Section Bytes.
Context `{JSONRuntime}.

(** The [data] callback of the socket, for the bytes of a chunk, and
    the first two lines of [processBuffer]. *)
Definition receiveBytes (st : list json * jsstring) (data : list N)
  : option (list json * jsstring) :=
  receive st (TextDecoder_decode data).

Fixpoint receiveAllBytes (st : list json * jsstring) (chunks : list (list N))
  : option (list json * jsstring) :=
  match chunks with
  | [] => Some st
  | data :: chunks' =>
      match receiveBytes st data with
      | Some st' => receiveAllBytes st' chunks'
      | None => None
      end
  end.
End Bytes.

(** * Properties *)

(** ** Strings and numerals *)

Lemma startsWith_length pat s : startsWith pat s = true -> length pat <= length s.
Proof.
  revert s. induction pat as [|p pat IH]; intros [|c s]; simpl; try lia; try discriminate.
  intros Hs. apply andb_true_iff in Hs as [_ Hs]. apply IH in Hs. lia.
Qed.

Lemma indexOf_bound pat s k : indexOf pat s = Some k -> k + length pat <= length s.
Proof.
  revert k. induction s as [|c s IH]; intros k; simpl.
  - destruct (startsWith pat []) eqn:E; [|discriminate].
    intros [= <-]. apply startsWith_length in E. simpl in *. lia.
  - destruct (startsWith pat (c :: s)) eqn:E.
    + intros [= <-]. apply startsWith_length in E. simpl in *. lia.
    + destruct (indexOf pat s) as [j|]; simpl; [|discriminate].
      intros [= <-]. specialize (IH j eq_refl). lia.
Qed.

(** A header without a carriage return: the delimiter that follows it is
    the first one. *)
Lemma indexOf_after_header (h x : jsstring) :
  Forall (fun c => c <> CR) h ->
  indexOf CRLFCRLF (h ++ CRLFCRLF ++ x) = Some (length h).
Proof.
  induction 1 as [|c h Hc _ IH]; [reflexivity|].
  cbn [app length indexOf]. rewrite IH.
  replace (startsWith CRLFCRLF (c :: h ++ CRLFCRLF ++ x)) with false; [reflexivity|].
  unfold CRLFCRLF at 1. cbn [startsWith].
  destruct (N.eqb_spec CR c); [congruence | reflexivity].
Qed.

(** Before the delimiter is complete, there is none. *)
Lemma indexOf_before_delimiter (h x : jsstring) (k : nat) :
  Forall (fun c => c <> CR) h ->
  k < length h + 4 ->
  indexOf CRLFCRLF (take k (h ++ CRLFCRLF ++ x)) = None.
Proof.
  intros Hh. revert k. induction Hh as [|c h Hc _ IH]; intros k Hk.
  - simpl in Hk. destruct k as [|[|[|[|k]]]]; try lia; reflexivity.
  - destruct k as [|k]; [reflexivity|].
    cbn [app take indexOf length] in *. rewrite IH by lia.
    replace (startsWith CRLFCRLF (c :: take k (h ++ CRLFCRLF ++ x))) with false; [reflexivity|].
    unfold CRLFCRLF at 1. cbn [startsWith].
    destruct (N.eqb_spec CR c); [congruence | reflexivity].
Qed.

Lemma parseInt10_app ds es :
  parseInt10 (ds ++ es) = fold_left (fun acc d => (acc * 10 + (d - 48))%N) es (parseInt10 ds).
Proof. unfold parseInt10. apply fold_left_app. Qed.

Lemma parseInt10_snoc ds d : parseInt10 (ds ++ [d]) = (parseInt10 ds * 10 + (d - 48))%N.
Proof. rewrite parseInt10_app. reflexivity. Qed.

Lemma isDigit_digitChar d : (d < 10)%N -> isDigit (digitChar d) = true.
Proof.
  intros Hd. unfold isDigit, digitChar.
  apply andb_true_iff; split; apply N.leb_le; lia.
Qed.

(** The digits [decimalDigits] puts before [acc] are decimal digits, at
    least one, and read back as [n]. *)
Lemma decimalDigits_spec fuel : forall n acc,
  (Z.of_N n < 2 ^ Z.of_nat fuel)%Z ->
  exists ds, decimalDigits fuel n acc = ds ++ acc /\ ds <> [] /\
             forallb isDigit ds = true /\ parseInt10 ds = n.
Proof.
  induction fuel as [|fuel IH]; intros n acc Hn.
  - assert (n = 0%N) as -> by (simpl in Hn; lia).
    exists [48%N]. repeat split; discriminate.
  - cbn [decimalDigits]. destruct (N.ltb_spec n 10) as [Hlt|Hge].
    + exists [digitChar n]. repeat split; [discriminate| |].
      * simpl. rewrite isDigit_digitChar by assumption. reflexivity.
      * unfold parseInt10, digitChar. simpl. lia.
    + destruct (IH (n / 10)%N (digitChar (n mod 10) :: acc)) as (ds & E & Hne & Hd & Hv).
      { rewrite Nat2Z.inj_succ, Z.pow_succ_r in Hn by lia.
        rewrite N2Z.inj_div. change (Z.of_N 10) with 10%Z.
        apply Z.div_lt_upper_bound; lia. }
      exists (ds ++ [digitChar (n mod 10)]). repeat split.
      * rewrite E, <- app_assoc. reflexivity.
      * destruct ds; discriminate.
      * rewrite forallb_app, Hd. simpl.
        rewrite isDigit_digitChar; [reflexivity|]. apply N.mod_lt. lia.
      * rewrite parseInt10_snoc, Hv. unfold digitChar.
        pose proof (N.div_mod n 10 ltac:(lia)) as Hdm.
        rewrite (N.add_comm 48), N.add_sub, N.mul_comm. symmetry. exact Hdm.
Qed.

Lemma size_nat_bound n : (Z.of_N n < 2 ^ Z.of_nat (N.size_nat n))%Z.
Proof.
  destruct n as [|p]; [reflexivity|].
  simpl. apply Zpower2_Psize. lia.
Qed.

Lemma N_toString_spec n :
  N_toString n <> [] /\ forallb isDigit (N_toString n) = true /\
  parseInt10 (N_toString n) = n.
Proof.
  destruct (decimalDigits_spec (N.size_nat n) n [] (size_nat_bound n))
    as (ds & E & Hne & Hd & Hv).
  unfold N_toString. rewrite E, app_nil_r. auto.
Qed.

(** [parseInt] undoes number-to-string. *)
Lemma parseInt10_N_toString n : parseInt10 (N_toString n) = n.
Proof. apply N_toString_spec. Qed.

Lemma spanDigits_all ds : forallb isDigit ds = true -> spanDigits ds = (ds, []).
Proof.
  induction ds as [|d ds IH]; [reflexivity|]. simpl.
  intros Hd. apply andb_true_iff in Hd as [Hd Hds].
  rewrite Hd, (IH Hds). reflexivity.
Qed.

Lemma spanDigits_app ds rest :
  forallb isDigit ds = true ->
  spanDigits (ds ++ rest) = (ds ++ fst (spanDigits rest), snd (spanDigits rest)).
Proof.
  induction ds as [|d ds IH]; simpl.
  - intros _. destruct (spanDigits rest); reflexivity.
  - intros Hd. apply andb_true_iff in Hd as [Hd Hds].
    rewrite Hd, (IH Hds). reflexivity.
Qed.

Lemma startsWith_ci_app pat s : startsWith_ci pat (pat ++ s) = true.
Proof.
  induction pat as [|p pat IH]; [reflexivity|]. simpl.
  rewrite N.eqb_refl, IH. reflexivity.
Qed.

Lemma matchContentLength_here h ds :
  matchHere h = Some ds -> matchContentLength h = Some ds.
Proof. intros E. destruct h; cbn [matchContentLength]; rewrite E; reflexivity. Qed.

(** The header [encodeMessage] writes is matched at its start, with all
    of its digits in the group. *)
Lemma matchContentLength_header n :
  matchContentLength (CONTENT_LENGTH ++ N_toString n) = Some (N_toString n).
Proof.
  destruct (N_toString_spec n) as (Hne & Hd & _).
  apply matchContentLength_here.
  unfold matchHere. rewrite startsWith_ci_app, drop_app_length.
  rewrite spanDigits_all by assumption. simpl.
  destruct (N_toString n); [congruence | reflexivity].
Qed.

Lemma isDigit_not_CR c : isDigit c = true -> c <> CR.
Proof.
  unfold isDigit, CR. intros Hd ->. discriminate.
Qed.

Lemma header_no_CR n : Forall (fun c => c <> CR) (CONTENT_LENGTH ++ N_toString n).
Proof.
  apply Forall_app; split.
  - unfold CONTENT_LENGTH, CR.
    repeat (apply Forall_cons; split; [discriminate|]). apply Forall_nil_2.
  - destruct (N_toString_spec n) as (_ & Hd & _).
    apply Forall_forall. intros c Hc. apply isDigit_not_CR.
    rewrite forallb_forall in Hd. apply Hd. apply list_elem_of_In. exact Hc.
Qed.

(** ASCII text takes one byte for each code unit. *)
Lemma byteLength_ascii s : isAscii s = true -> Buffer_byteLength s = length s.
Proof.
  unfold Buffer_byteLength, isAscii.
  induction s as [|c s IH]; [reflexivity|]. simpl.
  intros Ha. apply andb_true_iff in Ha as [Hc Hs].
  assert (isHighSurrogate c = false) as ->.
  { unfold isHighSurrogate. apply N.ltb_lt in Hc.
    apply andb_false_iff. left. apply N.leb_gt. lia. }
  assert (isLowSurrogate c = false) as ->.
  { unfold isLowSurrogate. apply N.ltb_lt in Hc.
    apply andb_false_iff. left. apply N.leb_gt. lia. }
  unfold utf8_unit. rewrite Hc. simpl. rewrite (IH Hs). reflexivity.
Qed.

(** ** The framer *)

Section FramerFacts.
Context `{JSONRuntime}.

Lemma slice_0 k (s : jsstring) : slice 0 k s = take k s.
Proof. unfold slice. rewrite Nat.sub_0_r, drop_0. reflexivity. Qed.

(** More code units than turns are never needed: every turn that goes
    on drops the delimiter at least. *)
Lemma parseLoop_total fuel : forall messages remaining,
  length remaining < fuel -> is_Some (parseLoop fuel messages remaining).
Proof.
  induction fuel as [|fuel IH]; intros messages remaining Hlen; [lia|].
  cbn [parseLoop].
  destruct (indexOf CRLFCRLF remaining) as [headerEnd|] eqn:Hidx; [|eauto].
  apply indexOf_bound in Hidx. change (length CRLFCRLF) with 4 in Hidx.
  destruct (matchContentLength _) as [digits|].
  - destruct (N.ltb_spec (N.of_nat (length remaining))
                (N.of_nat (headerEnd + 4) + parseInt10 digits)); [eauto|].
    apply IH. rewrite length_drop. lia.
  - apply IH. rewrite length_drop. lia.
Qed.

Lemma parseLoop_mono fuel : forall fuel' messages remaining r,
  parseLoop fuel messages remaining = Some r -> fuel <= fuel' ->
  parseLoop fuel' messages remaining = Some r.
Proof.
  induction fuel as [|fuel IH]; intros fuel' messages remaining r; [discriminate|].
  destruct fuel' as [|fuel']; [lia|]. intros Hr Hle.
  cbn [parseLoop] in *.
  destruct (indexOf CRLFCRLF remaining) as [headerEnd|]; [|exact Hr].
  destruct (matchContentLength _) as [digits|].
  - destruct (N.ltb _ _); [exact Hr|]. apply IH; [exact Hr | lia].
  - apply IH; [exact Hr | lia].
Qed.

(** With enough turns the count does not matter. *)
Lemma parseLoop_enough fuel messages remaining :
  length remaining < fuel ->
  parseLoop fuel messages remaining = parseLoop (S (length remaining)) messages remaining.
Proof.
  intros Hlen.
  destruct (parseLoop_total (S (length remaining)) messages remaining) as [r Hr]; [lia|].
  rewrite Hr. apply parseLoop_mono with (S (length remaining)); [exact Hr | lia].
Qed.

(** The messages found so far are only ever added to. *)
Lemma parseLoop_acc fuel : forall acc messages remaining,
  parseLoop fuel (acc ++ messages) remaining
  = prepend acc <$> parseLoop fuel messages remaining.
Proof.
  induction fuel as [|fuel IH]; intros acc messages remaining; [reflexivity|].
  cbn [parseLoop].
  destruct (indexOf CRLFCRLF remaining) as [headerEnd|]; [|reflexivity].
  destruct (matchContentLength _) as [digits|]; [|apply IH].
  destruct (N.ltb _ _); [reflexivity|].
  destruct (JSON_parse _) as [v|]; [|apply IH].
  rewrite <- app_assoc. apply IH.
Qed.

Lemma parseMessages_total buffer :
  exists messages remaining, parseMessages buffer = Some (messages, remaining).
Proof.
  destruct (parseLoop_total (S (length buffer)) [] buffer) as [[ms rem] Hr]; [lia|].
  exists ms, rem. exact Hr.
Qed.

(** No delimiter: nothing is decoded and the buffer is kept. *)
Lemma parseMessages_no_delimiter buffer :
  indexOf CRLFCRLF buffer = None -> parseMessages buffer = Some ([], buffer).
Proof. intros Hidx. unfold parseMessages. cbn [parseLoop]. rewrite Hidx. reflexivity. Qed.

(** A header without a length: decoding goes on behind its delimiter. *)
Lemma parseMessages_skip buffer headerEnd :
  indexOf CRLFCRLF buffer = Some headerEnd ->
  matchContentLength (slice 0 headerEnd buffer) = None ->
  parseMessages buffer = parseMessages (drop (headerEnd + 4) buffer).
Proof.
  intros Hidx Hm. unfold parseMessages at 1. cbn [parseLoop]. rewrite Hidx, Hm.
  apply parseLoop_enough. rewrite length_drop.
  apply indexOf_bound in Hidx. change (length CRLFCRLF) with 4 in Hidx. lia.
Qed.

(** A header whose payload is not all there yet: the buffer is kept. *)
Lemma parseMessages_wait buffer headerEnd digits :
  indexOf CRLFCRLF buffer = Some headerEnd ->
  matchContentLength (slice 0 headerEnd buffer) = Some digits ->
  (N.of_nat (length buffer) < N.of_nat (headerEnd + 4) + parseInt10 digits)%N ->
  parseMessages buffer = Some ([], buffer).
Proof.
  intros Hidx Hm Hlt. unfold parseMessages. cbn [parseLoop]. rewrite Hidx, Hm.
  apply N.ltb_lt in Hlt. rewrite Hlt. reflexivity.
Qed.

(** A header with its whole payload: the payload is parsed, kept if it
    is JSON, and decoding goes on behind it. *)
Lemma parseMessages_take buffer headerEnd digits :
  indexOf CRLFCRLF buffer = Some headerEnd ->
  matchContentLength (slice 0 headerEnd buffer) = Some digits ->
  (N.of_nat (headerEnd + 4) + parseInt10 digits <= N.of_nat (length buffer))%N ->
  parseMessages buffer
  = prepend (parsed (slice (headerEnd + 4)
                       (headerEnd + 4 + N.to_nat (parseInt10 digits)) buffer))
      <$> parseMessages (drop (headerEnd + 4 + N.to_nat (parseInt10 digits)) buffer).
Proof.
  intros Hidx Hm Hle. unfold parseMessages at 1. cbn [parseLoop]. rewrite Hidx, Hm.
  rewrite (proj2 (N.ltb_ge _ _) Hle).
  replace (N.to_nat (N.of_nat (headerEnd + 4) + parseInt10 digits))
    with (headerEnd + 4 + N.to_nat (parseInt10 digits)) by lia.
  rewrite parseLoop_enough by (rewrite length_drop; lia).
  fold (parseMessages (drop (headerEnd + 4 + N.to_nat (parseInt10 digits)) buffer)).
  unfold parsed. destruct (JSON_parse _) as [v|].
  - rewrite <- (app_nil_r ([] ++ [v])). rewrite parseLoop_acc. reflexivity.
  - unfold parseMessages. destruct (parseLoop _ _ _) as [[ms rem]|]; reflexivity.
Qed.

Lemma frame_length n payload :
  length (frame n payload) = length (CONTENT_LENGTH ++ N_toString n) + 4 + length payload.
Proof. unfold frame. rewrite !length_app. simpl. lia. Qed.

(** A frame whose payload has as many code units as its header says is
    taken off the front of the buffer. *)
Lemma parseMessages_frame payload rest :
  parseMessages (frame (N.of_nat (length payload)) payload ++ rest)
  = prepend (parsed payload) <$> parseMessages rest.
Proof.
  set (n := N.of_nat (length payload)).
  set (h := CONTENT_LENGTH ++ N_toString n).
  assert (frame n payload ++ rest = h ++ CRLFCRLF ++ payload ++ rest) as E.
  { unfold frame, h. rewrite <- !app_assoc. reflexivity. }
  rewrite E.
  assert (indexOf CRLFCRLF (h ++ CRLFCRLF ++ payload ++ rest) = Some (length h)) as Hidx
    by (apply indexOf_after_header, header_no_CR).
  assert (matchContentLength (slice 0 (length h) (h ++ CRLFCRLF ++ payload ++ rest))
          = Some (N_toString n)) as Hm
    by (rewrite slice_0, take_app_length; apply matchContentLength_header).
  rewrite (parseMessages_take _ _ _ Hidx Hm);
    rewrite parseInt10_N_toString; [|rewrite !length_app; simpl; lia].
  unfold n. rewrite Nat2N.id.
  assert (drop (length h + 4) (h ++ CRLFCRLF ++ payload ++ rest) = payload ++ rest) as Hd
    by (rewrite drop_app_add' by reflexivity; reflexivity).
  unfold slice. rewrite <- (drop_drop _ (length payload) (length h + 4)), !Hd, drop_app_length.
  replace (length h + 4 + length payload - (length h + 4)) with (length payload) by lia.
  rewrite take_app_length. reflexivity.
Qed.

(** A frame cut short of what its header says, if only by one code
    unit, yields nothing: the decoder keeps all of it and waits. *)
Lemma parseMessages_frame_prefix n payload k :
  (N.of_nat k < N.of_nat (length (CONTENT_LENGTH ++ N_toString n) + 4) + n)%N ->
  parseMessages (take k (frame n payload)) = Some ([], take k (frame n payload)).
Proof.
  intros Hk. set (h := CONTENT_LENGTH ++ N_toString n) in *.
  assert (frame n payload = h ++ CRLFCRLF ++ payload) as E
    by (unfold frame, h; rewrite <- !app_assoc; reflexivity).
  rewrite E. destruct (Nat.lt_ge_cases k (length h + 4)) as [Hshort|Hlong].
  - apply parseMessages_no_delimiter, indexOf_before_delimiter; [apply header_no_CR | exact Hshort].
  - assert (take k (h ++ CRLFCRLF ++ payload)
            = h ++ CRLFCRLF ++ take (k - (length h + 4)) payload) as Et.
    { rewrite take_app_ge by lia. f_equal.
      rewrite take_app_ge by (change (length CRLFCRLF) with 4; lia).
      change (length CRLFCRLF) with 4. do 2 f_equal. lia. }
    rewrite Et. eapply parseMessages_wait.
    + apply indexOf_after_header, header_no_CR.
    + rewrite slice_0, take_app_length. apply matchContentLength_header.
    + rewrite parseInt10_N_toString, <- Et, length_take. fold h. lia.
Qed.
End FramerFacts.

(** *** Bytes and code units *)

Lemma utf8_unit_length c :
  1 <= length (utf8_unit c) /\ ((128 <= c)%N -> 2 <= length (utf8_unit c)).
Proof.
  unfold utf8_unit. destruct (N.ltb_spec c 128); [simpl; lia|].
  destruct (N.ltb_spec c 2048); simpl; lia.
Qed.

Lemma byteLength_ge_aux n : forall s, length s <= n ->
  length s <= Buffer_byteLength s /\
  (isAscii s = false -> length s < Buffer_byteLength s).
Proof.
  unfold Buffer_byteLength.
  induction n as [|n IH]; intros [|c s] Hn; simpl in Hn; try lia.
  - split; [reflexivity | discriminate].
  - split; [reflexivity | discriminate].
  - cbn [utf8_encode isAscii forallb].
    destruct (IH s ltac:(lia)) as [IHle IHlt].
    destruct (isHighSurrogate c) eqn:Hhi.
    + destruct s as [|d s'].
      * simpl. split; intros; lia.
      * destruct (isLowSurrogate d).
        -- destruct (IH s' ltac:(simpl in Hn; lia)) as [IHle' _].
           rewrite length_app. simpl. split; intros; lia.
        -- rewrite length_app. simpl in *. split; intros; lia.
    + destruct (isLowSurrogate c) eqn:Hlo.
      * rewrite length_app. simpl. split; intros; lia.
      * rewrite length_app. destruct (utf8_unit_length c) as [H1 H2].
        split; [simpl; lia|]. simpl.
        destruct (N.ltb_spec c 128) as [Hc|Hc]; simpl.
        -- intros Hs. specialize (IHlt Hs). lia.
        -- intros _. specialize (H2 Hc). lia.
Qed.

(** Code units are never more than bytes, and fewer as soon as one of
    them is not ASCII. *)
Lemma byteLength_ge s : length s <= Buffer_byteLength s.
Proof. apply (byteLength_ge_aux (length s)). lia. Qed.

Lemma byteLength_non_ascii s : isAscii s = false -> length s < Buffer_byteLength s.
Proof. apply (byteLength_ge_aux (length s)). lia. Qed.

(** *** A message arriving in pieces *)

Section Chunks.
Context `{JSONRuntime}.

Lemma encodeMessage_frame msg :
  encodeMessage msg
  = frame (N.of_nat (Buffer_byteLength (JSON_stringify msg))) (JSON_stringify msg).
Proof. reflexivity. Qed.

Lemma prefix_take (buffer rest whole : jsstring) :
  buffer ++ rest = whole -> buffer = take (length buffer) whole.
Proof. intros <-. rewrite take_app_length. reflexivity. Qed.

(** While the frame is short of what its header says, a chunk only
    lengthens the buffer. *)
Lemma receive_frame_prefix n payload buffer chunk rest :
  (buffer ++ chunk) ++ rest = frame n payload ->
  (N.of_nat (length (buffer ++ chunk))
   < N.of_nat (length (CONTENT_LENGTH ++ N_toString n) + 4) + n)%N ->
  receive ([], buffer) chunk = Some ([], buffer ++ chunk).
Proof.
  intros E Hlen. unfold receive.
  rewrite (prefix_take _ _ _ E), parseMessages_frame_prefix by exact Hlen.
  reflexivity.
Qed.

(** A frame whose header announces more code units than its payload
    has is never decoded, however it is cut into chunks. *)
Lemma receiveAll_frame_stuck n payload : forall chunks buffer,
  (N.of_nat (length payload) < n)%N ->
  buffer ++ concat chunks = frame n payload ->
  receiveAll ([], buffer) chunks = Some ([], frame n payload).
Proof.
  induction chunks as [|chunk chunks IH]; intros buffer Hn E.
  - simpl in *. rewrite app_nil_r in E. subst. reflexivity.
  - cbn [receiveAll concat] in *. rewrite app_assoc in E.
    rewrite (receive_frame_prefix n payload buffer chunk (concat chunks) E).
    + apply IH; assumption.
    + apply (f_equal length) in E. rewrite frame_length, length_app in E. lia.
Qed.

Lemma receiveAll_nothing_left seen : forall chunks,
  concat chunks = [] -> receiveAll (seen, []) chunks = Some (seen, []).
Proof.
  induction chunks as [|chunk chunks IH]; [reflexivity|]. cbn [concat].
  intros E. apply app_eq_nil in E as [-> E].
  cbn [receiveAll receive app]. rewrite parseMessages_no_delimiter by reflexivity.
  rewrite app_nil_r. apply IH, E.
Qed.

(** A frame whose header announces exactly the code units of its
    payload is decoded once, by the chunk that completes it. *)
Lemma receiveAll_frame_exact payload : forall chunks buffer,
  buffer ++ concat chunks = frame (N.of_nat (length payload)) payload ->
  length buffer < length (frame (N.of_nat (length payload)) payload) ->
  receiveAll ([], buffer) chunks = Some (parsed payload, []).
Proof.
  set (n := N.of_nat (length payload)).
  induction chunks as [|chunk chunks IH]; intros buffer E Hlen.
  - simpl in E. rewrite app_nil_r in E. subst. lia.
  - cbn [receiveAll concat] in *. rewrite app_assoc in E.
    destruct (Nat.lt_ge_cases (length (buffer ++ chunk)) (length (frame n payload)))
      as [Hshort|Hfull].
    + rewrite (receive_frame_prefix n payload buffer chunk (concat chunks) E).
      * apply IH; assumption.
      * rewrite frame_length in Hshort. lia.
    + assert (concat chunks = []) as Hrest.
      { apply (f_equal length) in E. rewrite length_app in E.
        apply length_zero_iff_nil. lia. }
      rewrite Hrest, app_nil_r in E. unfold receive. rewrite E.
      rewrite <- (app_nil_r (frame n payload)). unfold n.
      rewrite parseMessages_frame, parseMessages_no_delimiter by reflexivity.
      cbn [fmap option_fmap option_map prepend fst snd app].
      rewrite app_nil_r. apply receiveAll_nothing_left, Hrest.
Qed.

(** Round trip of a message whose JSON text is ASCII, for every way of
    cutting its encoding into chunks. *)
Lemma roundtrip_ascii msg chunks :
  isAscii (JSON_stringify msg) = true ->
  JSON_parse (JSON_stringify msg) = Some msg ->
  concat chunks = encodeMessage msg ->
  receiveAll ([], []) chunks = Some ([msg], []).
Proof.
  intros Ha Hp E. rewrite encodeMessage_frame, byteLength_ascii in E by exact Ha.
  rewrite (receiveAll_frame_exact (JSON_stringify msg) chunks []).
  - unfold parsed. rewrite Hp. reflexivity.
  - exact E.
  - rewrite frame_length. simpl. lia.
Qed.

(** A message whose JSON text has a character outside ASCII is never
    decoded, however its encoding is cut into chunks: the header counts
    bytes, the decoder code units. *)
Lemma roundtrip_non_ascii msg chunks :
  isAscii (JSON_stringify msg) = false ->
  concat chunks = encodeMessage msg ->
  receiveAll ([], []) chunks = Some ([], encodeMessage msg).
Proof.
  intros Ha E. rewrite encodeMessage_frame in *.
  apply receiveAll_frame_stuck; [|exact E].
  apply byteLength_non_ascii in Ha. lia.
Qed.

(** Two ASCII messages and a tail without a delimiter. *)
Lemma two_frames_ascii m1 m2 tail :
  isAscii (JSON_stringify m1) = true -> JSON_parse (JSON_stringify m1) = Some m1 ->
  isAscii (JSON_stringify m2) = true -> JSON_parse (JSON_stringify m2) = Some m2 ->
  indexOf CRLFCRLF tail = None ->
  parseMessages (encodeMessage m1 ++ encodeMessage m2 ++ tail) = Some ([m1; m2], tail).
Proof.
  intros Ha1 Hp1 Ha2 Hp2 Ht.
  rewrite !encodeMessage_frame, !byteLength_ascii by assumption.
  rewrite !parseMessages_frame, parseMessages_no_delimiter by exact Ht.
  unfold parsed. rewrite Hp1, Hp2. reflexivity.
Qed.
End Chunks.

(** C1 (the code breaks it).  The encoding of [{"a":"é"}] announces ten
    bytes for nine code units; decoding it, whole or one code unit at a
    time, yields no message and leaves the whole encoding in the buffer,
    where the round trip asks for the message and an empty buffer. *)
Theorem C1_roundtrip_breaks_outside_ascii :
  parseMessages (encodeMessage msg_e_acute) = Some ([], encodeMessage msg_e_acute) /\
  receiveAll ([], []) [encodeMessage msg_e_acute] = Some ([], encodeMessage msg_e_acute) /\
  receiveAll ([], []) (unitChunks (encodeMessage msg_e_acute))
  = Some ([], encodeMessage msg_e_acute).
Proof. repeat split; vm_compute; reflexivity. Qed.

(** C7 (the code breaks it).  Two complete frames, the first with the
    payload [{"a":"é"}], and the incomplete header [Content-Len]: the
    decoder cuts ten code units where the payload has nine, loses both
    messages and leaves more than the tail. *)
Theorem C7_two_frames_break_outside_ascii :
  parseMessages (encodeMessage msg_e_acute ++ encodeMessage msg_b1 ++ js "Content-Len")
  = Some ([], JSON_stringify msg_b1 ++ js "Content-Len").
Proof. vm_compute. reflexivity. Qed.

(** C8.  For every buffer the decoder returns, with messages and a
    rest: no turn of its loop throws and the loop ends.  A buffer
    without a delimiter is kept as it is.  Where the first delimiter
    ends a header that has no [Content-Length] with digits, the header
    and the delimiter are dropped and what follows is decoded as if it
    were the buffer.  So a frame behind such a header is decoded, and
    what comes after that frame, short of a delimiter, is the rest. *)
Theorem C8_decode_total_skips_malformed `{JSONRuntime} (buffer : jsstring) :
  (exists messages remaining, parseMessages buffer = Some (messages, remaining)) /\
  (indexOf CRLFCRLF buffer = None -> parseMessages buffer = Some ([], buffer)) /\
  (forall headerEnd,
      indexOf CRLFCRLF buffer = Some headerEnd ->
      matchContentLength (slice 0 headerEnd buffer) = None ->
      parseMessages buffer = parseMessages (drop (headerEnd + 4) buffer)) /\
  (forall header payload tail,
      buffer = header ++ CRLFCRLF
                 ++ frame (N.of_nat (length payload)) payload ++ tail ->
      Forall (fun c => c <> CR) header ->
      matchContentLength header = None ->
      indexOf CRLFCRLF tail = None ->
      parseMessages buffer = Some (parsed payload, tail)).
Proof.
  split; [apply parseMessages_total|].
  split; [apply parseMessages_no_delimiter|].
  split; [intros headerEnd; apply parseMessages_skip|].
  intros header payload tail -> Hcr Hm Htail.
  rewrite (parseMessages_skip _ (length header)).
  - rewrite <- drop_drop, drop_app_length.
    change (drop 4 (CRLFCRLF ++ frame (N.of_nat (length payload)) payload ++ tail))
      with (frame (N.of_nat (length payload)) payload ++ tail).
    rewrite parseMessages_frame, (parseMessages_no_delimiter _ Htail).
    unfold prepend. cbn [fmap option_fmap option_map fst snd].
    rewrite app_nil_r. reflexivity.
  - apply indexOf_after_header. exact Hcr.
  - rewrite slice_0, take_app_length. exact Hm.
Qed.

Lemma C8_decode_total_skips_malformed_witness :
  parseMessages (js "Content-Type: x" ++ CRLFCRLF
                   ++ frame 7 (JSON_stringify msg_b1) ++ js "Content-Len")
  = Some ([msg_b1], js "Content-Len").
Proof.
  refine (proj2 (proj2 (proj2 (C8_decode_total_skips_malformed
                                 (js "Content-Type: x" ++ CRLFCRLF
                                    ++ frame 7 (JSON_stringify msg_b1) ++ js "Content-Len"))))
            (js "Content-Type: x") (JSON_stringify msg_b1) (js "Content-Len") eq_refl _ eq_refl eq_refl).
  repeat (apply Forall_cons; split; [discriminate|]). apply Forall_nil_2.
Defined.

(** ** The daemon state store *)

(** C4.  Lookup of a project: a record whose [pid] the system accepts
    is returned as parsed and nothing is touched; a record whose [pid]
    it refuses is unlinked and the answer is [null]; a file that is not
    there, that is not JSON, or that holds [null] gives [null] and
    nothing is touched.  [getDaemonState] has no way to throw. *)
Theorem C4_lookup `{JSONRuntime} (w : os) (projectPath : jsstring) :
  (forall text state pid,
      files w !! getStatePath projectPath = Some text ->
      JSON_parse text = Some state ->
      getProp state (js "pid") = Some pid ->
      kill0 w pid = true ->
      getDaemonState w projectPath = (Some state, w)) /\
  (forall text state pid,
      files w !! getStatePath projectPath = Some text ->
      JSON_parse text = Some state ->
      getProp state (js "pid") = Some pid ->
      kill0 w pid = false ->
      getDaemonState w projectPath
      = (None, {| files := delete (getStatePath projectPath) (files w);
                  kill0 := kill0 w |})) /\
  (files w !! getStatePath projectPath = None ->
   getDaemonState w projectPath = (None, w)) /\
  (forall text,
      files w !! getStatePath projectPath = Some text ->
      JSON_parse text = None \/ JSON_parse text = Some JNull ->
      getDaemonState w projectPath = (None, w)).
Proof.
  unfold getDaemonState, existsSync, readFileSync, unlinkSync, isProcessRunning.
  repeat split.
  - intros text state pid Hf Hp Hpid Hk.
    rewrite Hf, bool_decide_eq_true_2 by eauto. simpl. rewrite Hp, Hpid, Hk. reflexivity.
  - intros text state pid Hf Hp Hpid Hk.
    rewrite Hf, bool_decide_eq_true_2 by eauto. simpl. rewrite Hp, Hpid, Hk. reflexivity.
  - intros Hf. rewrite Hf, bool_decide_eq_false_2; [reflexivity|].
    intros [x Hx]. discriminate.
  - intros text Hf [Hp|Hp]; rewrite Hf, bool_decide_eq_true_2 by eauto; simpl;
      rewrite Hp; reflexivity.
Qed.

Lemma C4_lookup_witness :
  getDaemonState os_live demoProject = (Some demoRecord, os_live) /\
  getDaemonState os_stale demoProject
  = (None, {| files := delete (getStatePath demoProject) (files os_stale);
              kill0 := kill0 os_stale |}) /\
  getDaemonState os_none demoProject = (None, os_none) /\
  getDaemonState os_torn demoProject = (None, os_torn).
Proof.
  pose proof (C4_lookup os_live demoProject) as (Hlive & _).
  pose proof (C4_lookup os_stale demoProject) as (_ & Hstale & _).
  pose proof (C4_lookup os_none demoProject) as (_ & _ & Hnone & _).
  pose proof (C4_lookup os_torn demoProject) as (_ & _ & _ & Htorn).
  split; [|split; [|split]].
  - apply (Hlive (JSON_stringify demoRecord) demoRecord (Some (JNum 4242)));
      vm_compute; reflexivity.
  - apply (Hstale (JSON_stringify demoRecord) demoRecord (Some (JNum 4242)));
      vm_compute; reflexivity.
  - apply Hnone. vm_compute. reflexivity.
  - apply (Htorn (take 20 (JSON_stringify demoRecord))); [|left]; vm_compute; reflexivity.
Defined.

(** ** Port allocation *)

Lemma hexValue_hexChar d : (d < 16)%N -> hexValue (hexChar d) = Some d.
Proof.
  intros Hd.
  assert (d = 0 \/ d = 1 \/ d = 2 \/ d = 3 \/ d = 4 \/ d = 5 \/ d = 6 \/ d = 7 \/
          d = 8 \/ d = 9 \/ d = 10 \/ d = 11 \/ d = 12 \/ d = 13 \/ d = 14 \/ d = 15)%N
    as Hcases by lia.
  repeat (destruct Hcases as [->|Hcases]; [reflexivity|]). subst. reflexivity.
Qed.

(** The hash of a path starts with a hexadecimal digit, so that
    [parseInt(hashPath(p), 16)] is a number. *)
Lemma parseInt16_hashPath projectPath : exists h, parseInt16 (hashPath projectPath) = Some h.
Proof.
  unfold hashPath, SHA256.hexdigest.
  generalize (SHA256.hash (utf8_encode projectPath)). intros h.
  unfold slice, SHA256.hex8. cbn [drop seq fmap list_fmap app take Nat.sub].
  unfold parseInt16. cbn [spanHex].
  rewrite hexValue_hexChar by (apply N.mod_lt; discriminate).
  eauto.
Qed.

Lemma Bun_listen_stop taken port taken' :
  Bun_listen taken port = Some taken' -> server_stop taken' port = taken.
Proof.
  unfold Bun_listen, server_stop. destruct (decide _) as [[_ Hfree]|]; [|discriminate].
  intros [= <-]. apply set_eq. intros x.
  rewrite elem_of_difference, elem_of_union, !elem_of_singleton. split.
  - intros [[Hx|Hx] Hne]; [contradiction | exact Hx].
  - intros Hx. split; [right; exact Hx | intros ->; contradiction].
Qed.

Lemma Bun_listen_free taken port :
  (0 <= port <= 65535)%Z -> port ∉ taken -> is_Some (Bun_listen taken port).
Proof.
  intros Hr Hfree. unfold Bun_listen. rewrite decide_True by auto. eauto.
Qed.

Lemma Bun_listen_taken taken port : port ∈ taken -> Bun_listen taken port = None.
Proof.
  intros Hin. unfold Bun_listen. rewrite decide_False; [reflexivity|]. tauto.
Qed.

Lemma findFreePort_loop_spec taken start : forall fuel port,
  (0 <= start)%Z -> (start + 99 <= 65535)%Z ->
  (start <= port <= start + 100)%Z ->
  (start + 100 - port < Z.of_nat fuel)%Z ->
  (forall q, (start <= q < port)%Z -> q ∈ taken) ->
  exists r, findFreePort_loop fuel taken start port = Some (r, taken) /\ probed taken start r.
Proof.
  induction fuel as [|fuel IH]; intros port H0 Hmax Hport Hfuel Hbelow; [lia|].
  cbn [findFreePort_loop]. destruct (Z.ltb_spec port (start + 100)) as [Hlt|Hge].
  - destruct (decide (port ∈ taken)) as [Hin|Hfree].
    + rewrite Bun_listen_taken by exact Hin.
      apply IH; try lia. intros q Hq.
      destruct (decide (q = port)) as [->|Hne]; [exact Hin | apply Hbelow; lia].
    + destruct (Bun_listen_free taken port) as [taken' Hl]; [lia | exact Hfree |].
      rewrite Hl, (Bun_listen_stop _ _ _ Hl).
      exists (Return port). split; [reflexivity|]. simpl. split; [lia|]. auto.
  - exists (ThrowError (js "No free port found")). split; [reflexivity|].
    simpl. split; [reflexivity|]. intros q Hq. apply Hbelow. lia.
Qed.

(** C5.  The hash of the project is a number [h]; the probe starts at
    [BASE_PORT + h mod 100], a port from 19200 to 19299; the call ends
    with the set of taken ports as it was; it returns the first port
    from the start that is not taken, among one hundred, and throws
    exactly when all hundred are taken. *)
Theorem C5_port_allocation (taken : gset Z) (projectPath : jsstring) :
  exists (h : N) (r : completion Z),
    parseInt16 (hashPath projectPath) = Some h /\
    let start := (BASE_PORT + Z.of_N h mod 100)%Z in
    (BASE_PORT <= start < BASE_PORT + 100)%Z /\
    spawnDaemon_port taken projectPath = Some (r, taken) /\
    (match r with
     | Return port =>
         (start <= port < start + 100)%Z /\ (port ∉ taken) /\
         forall q, (start <= q < port)%Z -> q ∈ taken
     | ThrowError message => message = js "No free port found"
     end) /\
    ((exists message, r = ThrowError message) <->
     (forall q, (start <= q < start + 100)%Z -> q ∈ taken)).
Proof.
  destruct (parseInt16_hashPath projectPath) as [h Hh].
  pose proof (Z.mod_pos_bound (Z.of_N h) 100 ltac:(lia)) as Hmod.
  destruct (findFreePort_loop_spec taken (BASE_PORT + Z.of_N h mod 100) 101
              (BASE_PORT + Z.of_N h mod 100)) as (r & Hr & Hprobed);
    unfold BASE_PORT in *; try lia.
  exists h, r. split; [exact Hh|]. cbv zeta. split; [lia|].
  split; [unfold spawnDaemon_port; rewrite Hh; exact Hr|].
  destruct r as [port|message]; simpl in Hprobed.
  - split; [exact Hprobed|]. split.
    + intros [message [=]].
    + intros Hall. destruct Hprobed as (Hrange & Hfree & _).
      exfalso. apply Hfree, Hall, Hrange.
  - destruct Hprobed as [-> Hall]. split; [reflexivity|]. split; [auto | eauto].
Qed.

(** ** The client *)

Section ClientFacts.
Context `{JSONRuntime}.

(** A message that answers no pending request and is a diagnostics
    push with its [params]: the entry of its URI is set, and that is
    all that happens. *)
Lemma dispatch_push rt msg hasId params uri diags :
  inOperator (js "id") msg = Some hasId ->
  (if hasId then pendingEntry (pending (client rt)) (field msg (js "id")) else None) = None ->
  field msg (js "method") = Some (JStr PUBLISH_DIAGNOSTICS) ->
  field msg (js "params") = Some params ->
  getProp params (js "uri") = Some uri ->
  getProp params (js "diagnostics") = Some diags ->
  dispatch rt msg
  = Some (with_client rt
            (with_diagnostics (client rt) (setDiagnostics (diagnostics (client rt)) uri diags))).
Proof.
  intros Hin Hnp Hm Hp Hu Hd. unfold dispatch.
  rewrite Hin, Hnp, Hm, Hp. cbn [isString getPropOf].
  rewrite bool_decide_eq_true_2 by reflexivity. rewrite Hu, Hd. reflexivity.
Qed.

Lemma dispatch_requestId rt msg rt' :
  dispatch rt msg = Some rt' -> requestId (client rt') = requestId (client rt).
Proof.
  unfold dispatch. destruct (inOperator _ _) as [hasId|]; [|discriminate].
  destruct (if hasId then _ else _) as [[id p]|].
  - intros [= <-]. reflexivity.
  - destruct (isString _ _); [|intros [= <-]; reflexivity].
    destruct (getPropOf _ _) as [uri|]; [|discriminate].
    destruct (getPropOf _ _) as [diags|]; [|discriminate].
    intros [= <-]. reflexivity.
Qed.

Lemma dispatchAll_requestId messages : forall rt,
  requestId (client (dispatchAll rt messages).1) = requestId (client rt).
Proof.
  induction messages as [|msg messages IH]; intros rt; [reflexivity|].
  cbn [dispatchAll]. destruct (dispatch rt msg) as [rt'|] eqn:E; [|reflexivity].
  rewrite IH. apply dispatch_requestId with msg. exact E.
Qed.

Lemma onData_requestId rt text :
  requestId (client (onData rt text).1) = requestId (client rt).
Proof.
  unfold onData, processBuffer. destruct (parseMessages _) as [[messages remaining]|].
  - rewrite dispatchAll_requestId. reflexivity.
  - reflexivity.
Qed.

Lemma send_requestId c msg : requestId (send c msg) = requestId c.
Proof. unfold send. destruct (socket c); reflexivity. Qed.

Lemma send_pending c msg : pending (send c msg) = pending c.
Proof. unfold send. destruct (socket c); reflexivity. Qed.

(** The id of a request is the counter after it. *)
Lemma request_requestId rt method params :
  requestId (client (request rt method params).2) = increment (requestId (client rt)).
Proof. unfold request. cbn [snd client]. rewrite send_requestId. reflexivity. Qed.

Lemma request_pending rt method params :
  pending (client (request rt method params).2)
  = <[increment (requestId (client rt)) := promiseCount rt]> (pending (client rt)).
Proof. unfold request. cbn [snd client]. rewrite send_pending. reflexivity. Qed.
End ClientFacts.

Lemma increment_ge n : (n <= increment n)%Z.
Proof. unfold increment. destruct (Z.ltb_spec n MAX_EXACT); lia. Qed.

Lemma increment_exact n : (n < MAX_EXACT)%Z -> increment n = (n + 1)%Z.
Proof. unfold increment. intros Hn. destruct (Z.ltb_spec n MAX_EXACT); lia. Qed.

Lemma onRequestTimeout_requestId rt id p :
  requestId (client (onRequestTimeout rt id p)) = requestId (client rt).
Proof. unfold onRequestTimeout. destruct (pending (client rt) !! id); reflexivity. Qed.

Lemma runCallbacks_requestId ts : forall rt,
  requestId (client (runCallbacks ts rt)) = requestId (client rt).
Proof.
  unfold runCallbacks. induction ts as [|t ts IH]; intros rt; [reflexivity|].
  cbn [fold_left]. rewrite IH. apply onRequestTimeout_requestId.
Qed.

Lemma advance_requestId rt ms : requestId (client (advance rt ms)) = requestId (client rt).
Proof. unfold advance. rewrite runCallbacks_requestId. reflexivity. Qed.

Section RunFacts.
Context `{JSONRuntime}.

(** Nothing ever lowers the counter. *)
Lemma step_requestId_mono rt ev :
  (requestId (client rt) <= requestId (client (step rt ev)))%Z.
Proof.
  destruct ev as [|text|method params|method params|ms|]; cbn [step].
  - reflexivity.
  - rewrite onData_requestId. reflexivity.
  - rewrite request_requestId. apply increment_ge.
  - unfold notify. cbn [with_client client]. rewrite send_requestId. reflexivity.
  - rewrite advance_requestId. reflexivity.
  - cbn [with_client client]. unfold close. destruct (socket (client rt)); reflexivity.
Qed.

Lemma step_requestId_succ rt ev :
  (requestId (client (step rt ev)) <= requestId (client rt) + 1)%Z.
Proof.
  pose proof (step_requestId_mono rt ev) as Hmono. revert Hmono.
  destruct ev as [|text|method params|method params|ms|]; cbn [step]; intros Hmono.
  - cbn. lia.
  - rewrite onData_requestId. lia.
  - rewrite request_requestId. unfold increment.
    destruct (Z.ltb_spec (requestId (client rt)) MAX_EXACT); lia.
  - unfold notify. cbn [with_client client]. rewrite send_requestId. lia.
  - rewrite advance_requestId. lia.
  - cbn [with_client client]. unfold close. destruct (socket (client rt)); cbn; lia.
Qed.

(** The counter of a new client is at most the number of things that
    happened to it: 2^53 is out of reach. *)
Lemma run_requestId_bound evs : forall rt,
  (requestId (client (run rt evs)) <= requestId (client rt) + Z.of_nat (length evs))%Z.
Proof.
  unfold run. induction evs as [|ev evs IH]; intros rt; [cbn; lia|].
  cbn [fold_left length]. specialize (IH (step rt ev)).
  pose proof (step_requestId_succ rt ev). lia.
Qed.

Lemma run_requestId_mono evs : forall rt,
  (requestId (client rt) <= requestId (client (run rt evs)))%Z.
Proof.
  unfold run. induction evs as [|ev evs IH]; intros rt; [reflexivity|].
  cbn [fold_left]. etransitivity; [apply step_requestId_mono | apply IH].
Qed.
End RunFacts.

(** C6.  A notification (no [id]) with the method of a diagnostics push,
    a URI and diagnostics: after its dispatch the entry of the URI is
    the diagnostics of the notification whatever it was before, the
    entries of the other URIs are as before, and so is the rest of the
    client. *)
Theorem C6_push_replaces_entry `{JSONRuntime}
    (rt : runtime) (msg params diags : json) (uri : jsstring) :
  inOperator (js "id") msg = Some false ->
  field msg (js "method") = Some (JStr PUBLISH_DIAGNOSTICS) ->
  field msg (js "params") = Some params ->
  getProp params (js "uri") = Some (Some (JStr uri)) ->
  getProp params (js "diagnostics") = Some (Some diags) ->
  exists rt',
    dispatch rt msg = Some rt' /\
    diagnostics (client rt') !! uri = Some diags /\
    (forall uri', uri' <> uri ->
                  diagnostics (client rt') !! uri' = diagnostics (client rt) !! uri') /\
    pending (client rt') = pending (client rt) /\
    requestId (client rt') = requestId (client rt) /\
    socket (client rt') = socket (client rt) /\
    settled rt' = settled rt.
Proof.
  intros Hin Hm Hp Hu Hd. eexists. split.
  - eapply dispatch_push; eauto.
  - cbn [with_client with_diagnostics client diagnostics setDiagnostics
           pending requestId socket settled].
    split; [apply lookup_insert_eq|].
    split; [intros uri' Hne; apply lookup_insert_ne; congruence|]. auto.
Qed.

Lemma C6_push_replaces_entry_witness :
  exists rt',
    dispatch rt_with_old demoPush = Some rt' /\
    diagnostics (client rt') !! demoUri = Some (JArr [demoDiagnostic (js "stub error")]) /\
    (forall uri', uri' <> demoUri ->
                  diagnostics (client rt') !! uri' = diagnostics (client rt_with_old) !! uri') /\
    pending (client rt') = pending (client rt_with_old) /\
    requestId (client rt') = requestId (client rt_with_old) /\
    socket (client rt') = socket (client rt_with_old) /\
    settled rt' = settled rt_with_old.
Proof.
  apply (C6_push_replaces_entry rt_with_old demoPush
           (JObj [(js "uri", JStr demoUri);
                  (js "diagnostics", JArr [demoDiagnostic (js "stub error")])]));
    reflexivity.
Defined.

(** The callback of a request whose entry is still pending, its promise
    not settled: the promise is rejected with "Request timeout" and the
    entry is removed; the other entries, the other promises, the socket
    and the rest of the client are as before. *)
Lemma onRequestTimeout_rejects_one (rt : runtime) (id : Z) (p : nat) :
  pending (client rt) !! id = Some p ->
  settled rt !! p = None ->
  settled (onRequestTimeout rt id p) !! p = Some timeoutError /\
  pending (client (onRequestTimeout rt id p)) !! id = None /\
  (forall id', id' <> id ->
     pending (client (onRequestTimeout rt id p)) !! id' = pending (client rt) !! id') /\
  (forall q, q <> p -> settled (onRequestTimeout rt id p) !! q = settled rt !! q) /\
  socket (client (onRequestTimeout rt id p)) = socket (client rt) /\
  buffer (client (onRequestTimeout rt id p)) = buffer (client rt) /\
  diagnostics (client (onRequestTimeout rt id p)) = diagnostics (client rt) /\
  requestId (client (onRequestTimeout rt id p)) = requestId (client rt).
Proof.
  intros Hp Hs. unfold onRequestTimeout, settle. rewrite Hp, Hs.
  cbn [with_settled with_client with_pending client settled pending socket buffer
         diagnostics requestId].
  split; [apply lookup_insert_eq|].
  split; [apply lookup_delete_eq|].
  split; [intros id' Hne; apply lookup_delete_ne; congruence|].
  split; [intros q Hne; apply lookup_insert_ne; congruence|]. auto.
Qed.

(** C10.  Two requests of one client, whatever happens before, between
    and after them: each is entered in [pending] under the counter as
    it stands after it, and the later one has the greater id, as long
    as the counter is below 2^53 when it is sent. *)
Theorem C10_ids_increase `{JSONRuntime}
    (rt0 : runtime) (evs1 evs2 : list event)
    (method1 method2 : jsstring) (params1 params2 : option json) :
  let rt1 := run rt0 evs1 in
  let rtA := (request rt1 method1 params1).2 in
  let rt2 := run rtA evs2 in
  let rtB := (request rt2 method2 params2).2 in
  (requestId (client rt2) < MAX_EXACT)%Z ->
  pending (client rtA) !! requestId (client rtA) = Some (promiseCount rt1) /\
  pending (client rtB) !! requestId (client rtB) = Some (promiseCount rt2) /\
  (requestId (client rtA) < requestId (client rtB))%Z.
Proof.
  intros rt1 rtA rt2 rtB Hexact. unfold rtA, rtB.
  rewrite !request_requestId, !request_pending, !lookup_insert_eq.
  split; [reflexivity|]. split; [reflexivity|].
  rewrite (increment_exact (requestId (client rt2))) by exact Hexact.
  pose proof (run_requestId_mono evs2 (request rt1 method1 params1).2) as Hmono.
  fold rtA rt2 in Hmono. unfold rtA in Hmono at 1. rewrite request_requestId in Hmono. lia.
Qed.

Lemma C10_ids_increase_witness :
  (requestId (client (run startup [Connect; Request (js "initialize") None]))
   < requestId (client rt_two_requests))%Z.
Proof.
  exact (proj2 (proj2 (C10_ids_increase startup [Connect] [] (js "initialize") (js "shutdown")
                         None None eq_refl))).
Defined.

(** ** A request that is not answered *)

Lemma settle_other p q s done : p <> q -> settle p s done !! q = done !! q.
Proof.
  intros Hne. unfold settle. destruct (done !! p); [reflexivity|].
  apply lookup_insert_ne. exact Hne.
Qed.

Lemma settle_fresh p s done : done !! p = None -> settle p s done !! p = Some s.
Proof. intros Hp. unfold settle. rewrite Hp. apply lookup_insert_eq. Qed.

Lemma pendingEntry_Some pend v id p :
  pendingEntry pend v = Some (id, p) -> v = Some (JNum id) /\ pend !! id = Some p.
Proof.
  unfold pendingEntry. destruct v as [[| | n | | |]|]; try discriminate.
  destruct (pend !! n) as [p'|] eqn:E; [|discriminate].
  intros [= <- <-]. auto.
Qed.

(** [awaiting] looks at the pending map, the settled promises, the
    counters, the timers and the clock, and at nothing else. *)
Lemma awaiting_ext id p deadline rt rt' :
  pending (client rt') = pending (client rt) ->
  settled rt' = settled rt ->
  requestId (client rt') = requestId (client rt) ->
  promiseCount rt' = promiseCount rt ->
  timers rt' = timers rt ->
  now rt' = now rt ->
  awaiting id p deadline rt -> awaiting id p deadline rt'.
Proof.
  unfold awaiting. intros -> -> -> -> -> ->. auto.
Qed.

(** The callback of another request leaves this one waiting. *)
Lemma onRequestTimeout_awaiting id p deadline rt id' p' :
  id' <> id -> p' <> p ->
  awaiting id p deadline rt -> awaiting id p deadline (onRequestTimeout rt id' p').
Proof.
  intros Hid Hp (Hpend & Hset & Hle & Hlt & Hinj & Htim & Hin & Hnow).
  unfold onRequestTimeout. destruct (pending (client rt) !! id') as [q|] eqn:E.
  - unfold awaiting.
    cbn [with_settled with_client with_pending client pending settled requestId
           promiseCount timers now].
    rewrite lookup_delete_ne by exact Hid. rewrite settle_other by exact Hp.
    repeat split; try assumption.
    intros id'' p'' Hl Hne. apply lookup_delete_Some in Hl as [_ Hl]. eauto.
  - repeat split; assumption.
Qed.

Lemma runCallbacks_awaiting id p deadline ts : forall rt,
  (forall t, t ∈ ts -> t.2.1 <> id /\ t.2.2 <> p) ->
  awaiting id p deadline rt -> awaiting id p deadline (runCallbacks ts rt).
Proof.
  unfold runCallbacks. induction ts as [|t ts IH]; intros rt Hts Haw; [exact Haw|].
  cbn [fold_left]. apply IH.
  - intros t' Ht'. apply Hts. apply elem_of_cons. auto.
  - destruct (Hts t) as [Hid Hp]; [apply elem_of_cons; auto|].
    apply onRequestTimeout_awaiting; assumption.
Qed.

(** Time that stops short of the deadline leaves the request waiting. *)
Lemma advance_awaiting id p deadline rt ms :
  (now rt + ms < deadline)%Z ->
  awaiting id p deadline rt -> awaiting id p deadline (advance rt ms).
Proof.
  intros Hms Haw. unfold advance. apply runCallbacks_awaiting.
  - intros [due [id' p']] Ht. apply list_elem_of_filter in Ht as [Hdue Ht]. cbn in *.
    destruct Haw as (_ & _ & _ & _ & _ & Htim & _).
    destruct (Htim due id' p' Ht) as [(_ & _ & ->)|[Hid Hp]]; [lia | auto].
  - destruct Haw as (Hpend & Hset & Hle & Hlt & Hinj & Htim & Hin & Hnow).
    unfold awaiting. cbn [client settled promiseCount timers now].
    repeat split; try assumption.
    + intros due id' p' Ht. apply list_elem_of_filter in Ht as [_ Ht]. eauto.
    + apply list_elem_of_filter. split; [cbn; lia | exact Hin].
Qed.

(** Passing the deadline runs the callback of the request: its promise
    is rejected with the timeout, its entry is gone. *)
Lemma runCallbacks_fires id p ts : forall rt,
  (forall t, t ∈ ts -> t.2 = (id, p) \/ (t.2.1 <> id /\ t.2.2 <> p)) ->
  (pending (client rt) !! id = Some p /\ settled rt !! p = None /\
   exists t, t ∈ ts /\ t.2 = (id, p)) \/
  (pending (client rt) !! id = None /\ settled rt !! p = Some timeoutError) ->
  pending (client (runCallbacks ts rt)) !! id = None /\
  settled (runCallbacks ts rt) !! p = Some timeoutError.
Proof.
  unfold runCallbacks. induction ts as [|t ts IH]; intros rt Hts Hstate.
  - destruct Hstate as [(_ & _ & t & Ht & _)|Hdone]; [|exact Hdone].
    apply elem_of_nil in Ht. contradiction.
  - cbn [fold_left]. apply IH; [intros t' Ht'; apply Hts, elem_of_cons; auto|].
    destruct (Hts t) as [Hme|[Hid Hp]]; [apply elem_of_cons; auto | |].
    + rewrite Hme. cbn [fst snd]. right.
      destruct Hstate as [(Hpend & Hset & _)|[Hgone Hrej]].
      * unfold onRequestTimeout. rewrite Hpend.
        cbn [with_settled with_client with_pending client pending settled].
        split; [apply lookup_delete_eq | apply settle_fresh, Hset].
      * unfold onRequestTimeout. rewrite Hgone. auto.
    + assert (pending (client (onRequestTimeout rt t.2.1 t.2.2)) !! id
              = pending (client rt) !! id /\
              settled (onRequestTimeout rt t.2.1 t.2.2) !! p = settled rt !! p)
        as [Epend Eset].
      { unfold onRequestTimeout. destruct (pending (client rt) !! t.2.1); [|auto].
        cbn [with_settled with_client with_pending client pending settled].
        split; [apply lookup_delete_ne; exact Hid | apply settle_other; exact Hp]. }
      rewrite Epend, Eset.
      destruct Hstate as [(Hpend & Hset & t' & Ht' & Hme)|Hdone]; [left | right; exact Hdone].
      split; [exact Hpend|]. split; [exact Hset|]. exists t'. split; [|exact Hme].
      apply elem_of_cons in Ht' as [->|Ht']; [|exact Ht'].
      rewrite Hme in Hid. cbn in Hid. congruence.
Qed.

Lemma onRequestTimeout_socket rt id p :
  socket (client (onRequestTimeout rt id p)) = socket (client rt).
Proof. unfold onRequestTimeout. destruct (pending (client rt) !! id); reflexivity. Qed.

Lemma runCallbacks_socket ts : forall rt,
  socket (client (runCallbacks ts rt)) = socket (client rt).
Proof.
  unfold runCallbacks. induction ts as [|t ts IH]; intros rt; [reflexivity|].
  cbn [fold_left]. rewrite IH. apply onRequestTimeout_socket.
Qed.

Lemma advance_fires id p deadline rt ms :
  (deadline <= now rt + ms)%Z ->
  awaiting id p deadline rt ->
  settled (advance rt ms) !! p = Some timeoutError /\
  pending (client (advance rt ms)) !! id = None /\
  socket (client (advance rt ms)) = socket (client rt).
Proof.
  intros Hms (Hpend & Hset & _ & _ & _ & Htim & Hin & _). unfold advance.
  rewrite runCallbacks_socket.
  destruct (runCallbacks_fires id p
              (filter (fun t => (t.1 <= now rt + ms)%Z) (timers rt))
              {| client := client rt; settled := settled rt; promiseCount := promiseCount rt;
                 timers := filter (fun t => (now rt + ms < t.1)%Z) (timers rt);
                 now := (now rt + ms)%Z |}) as [Hgone Hrej].
  - intros [due [id' p']] Ht. apply list_elem_of_filter in Ht as [_ Ht]. cbn.
    destruct (Htim due id' p' Ht) as [(-> & -> & _)|Hother]; auto.
  - left. cbn [client settled]. split; [exact Hpend|]. split; [exact Hset|].
    exists (deadline, (id, p)). split; [|reflexivity].
    apply list_elem_of_filter. split; [cbn; lia | exact Hin].
  - auto.
Qed.

Section TimeoutFacts.
Context `{JSONRuntime}.

(** A message with another id leaves the request waiting. *)
Lemma dispatch_awaiting id p deadline rt msg rt' :
  hasId id msg = false ->
  dispatch rt msg = Some rt' ->
  awaiting id p deadline rt -> awaiting id p deadline rt'.
Proof.
  intros Hmsg Hd Haw. unfold dispatch in Hd.
  destruct (inOperator _ _) as [has|]; [|discriminate].
  destruct (if has then _ else _) as [[id' p']|] eqn:Hentry.
  - assert (field msg (js "id") = Some (JNum id') /\ pending (client rt) !! id' = Some p')
      as [Hf Hl].
    { destruct has; [|discriminate]. apply pendingEntry_Some. exact Hentry. }
    assert (id' <> id) as Hid.
    { unfold hasId in Hmsg. rewrite Hf in Hmsg. apply Z.eqb_neq. exact Hmsg. }
    destruct Haw as (Hpend & Hset & Hle & Hlt & Hinj & Htim & Hin & Hnow).
    assert (p' <> p) as Hp by eauto.
    injection Hd as <-. unfold awaiting.
    cbn [with_settled with_client with_pending client pending settled requestId
           promiseCount timers now].
    rewrite lookup_delete_ne by exact Hid. rewrite settle_other by exact Hp.
    repeat split; try assumption.
    intros id'' p'' Hl' Hne. apply lookup_delete_Some in Hl' as [_ Hl']. eauto.
  - destruct (isString _ _).
    + destruct (getPropOf _ _) as [uri|]; [|discriminate].
      destruct (getPropOf _ _) as [diags|]; [|discriminate].
      injection Hd as <-. revert Haw. apply awaiting_ext; reflexivity.
    + injection Hd as <-. exact Haw.
Qed.

Lemma dispatchAll_awaiting id p deadline messages : forall rt,
  forallb (fun msg => negb (hasId id msg)) messages = true ->
  awaiting id p deadline rt -> awaiting id p deadline (dispatchAll rt messages).1.
Proof.
  induction messages as [|msg messages IH]; intros rt Hq Haw; [exact Haw|].
  cbn [forallb] in Hq. apply andb_true_iff in Hq as [Hmsg Hq].
  apply negb_true_iff in Hmsg. cbn [dispatchAll].
  destruct (dispatch rt msg) as [rt'|] eqn:Hd; [|exact Haw].
  apply IH; [exact Hq|]. eapply dispatch_awaiting; eassumption.
Qed.

(** A further request gets a later id and a later promise. *)
Lemma request_awaiting id p deadline rt method params :
  (requestId (client rt) < MAX_EXACT)%Z ->
  awaiting id p deadline rt -> awaiting id p deadline (request rt method params).2.
Proof.
  intros Hexact (Hpend & Hset & Hle & Hlt & Hinj & Htim & Hin & Hnow).
  unfold awaiting. rewrite request_pending, request_requestId.
  unfold request. cbn [snd settled promiseCount timers now].
  rewrite !(increment_exact _ Hexact).
  rewrite lookup_insert_ne by lia.
  repeat split; try assumption; try lia.
  - intros id' p' Hl Hne. apply lookup_insert_Some in Hl as [[_ <-]|[_ Hl]]; [lia | eauto].
  - intros due id' p' Ht. apply elem_of_app in Ht as [Ht|Ht]; [eauto|].
    apply list_elem_of_singleton in Ht. injection Ht as -> -> ->. right. lia.
  - apply elem_of_app. auto.
Qed.

Lemma step_awaiting id p deadline rt ev :
  quietEvent id deadline rt ev = true ->
  awaiting id p deadline rt -> awaiting id p deadline (step rt ev).
Proof.
  destruct ev as [|text|method params|method params|ms|]; cbn [step quietEvent]; intros Hq Haw.
  - revert Haw. apply awaiting_ext; reflexivity.
  - unfold onData, processBuffer.
    cbn [with_client with_buffer client buffer] in *.
    destruct (parseMessages _) as [[messages remaining]|].
    + apply dispatchAll_awaiting; [exact Hq|].
      revert Haw. apply awaiting_ext; reflexivity.
    + revert Haw. apply awaiting_ext; reflexivity.
  - apply request_awaiting; [apply Z.ltb_lt; exact Hq | exact Haw].
  - revert Haw. apply awaiting_ext; try reflexivity; unfold notify;
      cbn [with_client client]; [apply send_pending | apply send_requestId].
  - apply advance_awaiting; [apply Z.ltb_lt; exact Hq | exact Haw].
  - revert Haw. apply awaiting_ext; try reflexivity; unfold close;
      cbn [with_client client]; destruct (socket (client rt)); reflexivity.
Qed.

Lemma run_awaiting id p deadline evs : forall rt,
  quiet id deadline rt evs = true ->
  awaiting id p deadline rt -> awaiting id p deadline (run rt evs).
Proof.
  unfold run. induction evs as [|ev evs IH]; intros rt Hq Haw; [exact Haw|].
  cbn [quiet] in Hq. apply andb_true_iff in Hq as [Hev Hq]. cbn [fold_left].
  apply IH; [exact Hq|]. apply step_awaiting; assumption.
Qed.

(** A request sent while the counter is exact is waiting from then on. *)
Lemma request_awaits rt method params :
  wellFormed rt ->
  (requestId (client rt) < MAX_EXACT)%Z ->
  awaiting (requestId (client (request rt method params).2))
           (request rt method params).1
           (now rt + REQUEST_TIMEOUT)
           (request rt method params).2.
Proof.
  intros (Wpend & Wtim & Wset) Hexact.
  unfold awaiting. rewrite request_pending, request_requestId.
  unfold request. cbn [fst snd settled promiseCount timers now].
  rewrite !(increment_exact _ Hexact).
  rewrite lookup_insert_eq.
  repeat split; try lia.
  - apply Wset. lia.
  - intros id' p' Hl Hne. apply lookup_insert_Some in Hl as [[Heq _]|[_ Hl]]; [lia|].
    apply Wpend in Hl. lia.
  - intros due id' p' Ht. apply elem_of_app in Ht as [Ht|Ht].
    + apply Wtim in Ht. right. lia.
    + apply list_elem_of_singleton in Ht. injection Ht as -> -> ->. left. auto.
  - apply elem_of_app. right. apply list_elem_of_singleton. reflexivity.
  - unfold REQUEST_TIMEOUT. lia.
Qed.
End TimeoutFacts.

(** *** Every state a client reaches is well formed *)

Lemma wellFormed_startup : wellFormed startup.
Proof.
  split; [|split].
  - intros id p Hl. discriminate.
  - intros due id p Ht. apply elem_of_nil in Ht. contradiction.
  - reflexivity.
Qed.

Lemma wellFormed_ext rt rt' :
  pending (client rt') = pending (client rt) ->
  settled rt' = settled rt ->
  requestId (client rt') = requestId (client rt) ->
  promiseCount rt' = promiseCount rt ->
  timers rt' = timers rt ->
  wellFormed rt -> wellFormed rt'.
Proof.
  unfold wellFormed. intros -> -> -> -> ->. auto.
Qed.

(** Removing an entry and settling a promise that exists. *)
Lemma wellFormed_settle rt id p s :
  p < promiseCount rt ->
  wellFormed rt ->
  wellFormed (with_settled
                (with_client rt (with_pending (client rt) (delete id (pending (client rt)))))
                (settle p s (settled rt))).
Proof.
  intros Hp (Wpend & Wtim & Wset). unfold wellFormed.
  cbn [with_settled with_client with_pending client pending settled requestId
         promiseCount timers].
  split; [|split].
  - intros id' p' Hl. apply lookup_delete_Some in Hl as [_ Hl]. auto.
  - exact Wtim.
  - intros q Hq. rewrite settle_other by lia. auto.
Qed.

Lemma onRequestTimeout_wellFormed rt id p :
  p < promiseCount rt -> wellFormed rt -> wellFormed (onRequestTimeout rt id p).
Proof.
  intros Hp Hw. unfold onRequestTimeout.
  destruct (pending (client rt) !! id); [apply wellFormed_settle; assumption | exact Hw].
Qed.

Lemma onRequestTimeout_promiseCount rt id p :
  promiseCount (onRequestTimeout rt id p) = promiseCount rt.
Proof. unfold onRequestTimeout. destruct (pending (client rt) !! id); reflexivity. Qed.

Lemma runCallbacks_wellFormed ts : forall rt,
  (forall t, t ∈ ts -> t.2.2 < promiseCount rt) ->
  wellFormed rt -> wellFormed (runCallbacks ts rt).
Proof.
  unfold runCallbacks. induction ts as [|t ts IH]; intros rt Hts Hw; [exact Hw|].
  cbn [fold_left]. apply IH.
  - intros t' Ht'. rewrite onRequestTimeout_promiseCount. apply Hts, elem_of_cons. auto.
  - apply onRequestTimeout_wellFormed; [apply Hts, elem_of_cons; auto | exact Hw].
Qed.

Lemma advance_wellFormed rt ms : wellFormed rt -> wellFormed (advance rt ms).
Proof.
  intros (Wpend & Wtim & Wset). unfold advance. apply runCallbacks_wellFormed.
  - intros [due [id p]] Ht. apply list_elem_of_filter in Ht as [_ Ht].
    cbn. apply (Wtim due id p Ht).
  - unfold wellFormed. cbn [client settled promiseCount timers].
    split; [exact Wpend|]. split; [|exact Wset].
    intros due id p Ht. apply list_elem_of_filter in Ht as [_ Ht]. eauto.
Qed.

Section WellFormedFacts.
Context `{JSONRuntime}.

Lemma dispatch_wellFormed rt msg rt' :
  dispatch rt msg = Some rt' -> wellFormed rt -> wellFormed rt'.
Proof.
  intros Hd Hw. unfold dispatch in Hd.
  destruct (inOperator _ _) as [has|]; [|discriminate].
  destruct (if has then _ else _) as [[id p]|] eqn:Hentry.
  - assert (pending (client rt) !! id = Some p) as Hl.
    { destruct has; [|discriminate]. apply pendingEntry_Some in Hentry. tauto. }
    injection Hd as <-. apply wellFormed_settle; [|exact Hw].
    destruct Hw as (Wpend & _). apply (Wpend id p Hl).
  - destruct (isString _ _).
    + destruct (getPropOf _ _) as [uri|]; [|discriminate].
      destruct (getPropOf _ _) as [diags|]; [|discriminate].
      injection Hd as <-. revert Hw. apply wellFormed_ext; reflexivity.
    + injection Hd as <-. exact Hw.
Qed.

Lemma dispatchAll_wellFormed messages : forall rt,
  wellFormed rt -> wellFormed (dispatchAll rt messages).1.
Proof.
  induction messages as [|msg messages IH]; intros rt Hw; [exact Hw|].
  cbn [dispatchAll]. destruct (dispatch rt msg) as [rt'|] eqn:Hd; [|exact Hw].
  apply IH. eapply dispatch_wellFormed; eassumption.
Qed.

Lemma request_wellFormed rt method params :
  wellFormed rt -> wellFormed (request rt method params).2.
Proof.
  intros (Wpend & Wtim & Wset). unfold wellFormed.
  rewrite request_pending, request_requestId.
  unfold request. cbn [snd settled promiseCount timers].
  pose proof (increment_ge (requestId (client rt))) as Hge.
  split; [|split].
  - intros id p Hl. apply lookup_insert_Some in Hl as [[<- <-]|[_ Hl]]; [lia|].
    apply Wpend in Hl. lia.
  - intros due id p Ht. apply elem_of_app in Ht as [Ht|Ht].
    + apply Wtim in Ht. lia.
    + apply list_elem_of_singleton in Ht. injection Ht as -> -> ->. lia.
  - intros p Hp. apply Wset. lia.
Qed.

Lemma step_wellFormed rt ev : wellFormed rt -> wellFormed (step rt ev).
Proof.
  destruct ev as [|text|method params|method params|ms|]; cbn [step]; intros Hw.
  - revert Hw. apply wellFormed_ext; reflexivity.
  - unfold onData, processBuffer. cbn [with_client with_buffer client buffer].
    destruct (parseMessages _) as [[messages remaining]|].
    + apply dispatchAll_wellFormed. revert Hw. apply wellFormed_ext; reflexivity.
    + revert Hw. apply wellFormed_ext; reflexivity.
  - apply request_wellFormed, Hw.
  - revert Hw. apply wellFormed_ext; try reflexivity; unfold notify;
      cbn [with_client client]; [apply send_pending | apply send_requestId].
  - apply advance_wellFormed, Hw.
  - revert Hw. apply wellFormed_ext; try reflexivity; unfold close;
      cbn [with_client client]; destruct (socket (client rt)); reflexivity.
Qed.

Lemma run_wellFormed evs : forall rt, wellFormed rt -> wellFormed (run rt evs).
Proof.
  unfold run. induction evs as [|ev evs IH]; intros rt Hw; [exact Hw|].
  cbn [fold_left]. apply IH, step_wellFormed, Hw.
Qed.
End WellFormedFacts.

(** C3.  A request sent by a client, in any state it has reached with
    its counter below 2^53, and then anything that answers no request
    of this id and stops short of 30 s: the entry of the request is
    still pending and its promise not settled.  Its timer callback then
    rejects this promise with "Request timeout" and removes this entry,
    and leaves every other entry, every other promise, the socket and
    the rest of the client as they are.  Time that passes the 30 s runs
    the callback: the promise is rejected, the entry gone, the socket
    as it was. *)
Theorem C3_unanswered_request_times_out `{JSONRuntime}
    (evs0 evs : list event) (method : jsstring) (params : option json) (ms : Z) :
  let rt := run startup evs0 in
  let p := (request rt method params).1 in
  let rt1 := (request rt method params).2 in
  let id := requestId (client rt1) in
  let deadline := (now rt + REQUEST_TIMEOUT)%Z in
  let rt2 := run rt1 evs in
  (requestId (client rt) < MAX_EXACT)%Z ->
  quiet id deadline rt1 evs = true ->
  (deadline <= now rt2 + ms)%Z ->
  (pending (client rt2) !! id = Some p /\ settled rt2 !! p = None) /\
  (settled (onRequestTimeout rt2 id p) !! p = Some timeoutError /\
   pending (client (onRequestTimeout rt2 id p)) !! id = None /\
   (forall id', id' <> id ->
      pending (client (onRequestTimeout rt2 id p)) !! id' = pending (client rt2) !! id') /\
   (forall q, q <> p -> settled (onRequestTimeout rt2 id p) !! q = settled rt2 !! q) /\
   socket (client (onRequestTimeout rt2 id p)) = socket (client rt2) /\
   buffer (client (onRequestTimeout rt2 id p)) = buffer (client rt2) /\
   diagnostics (client (onRequestTimeout rt2 id p)) = diagnostics (client rt2) /\
   requestId (client (onRequestTimeout rt2 id p)) = requestId (client rt2)) /\
  (settled (advance rt2 ms) !! p = Some timeoutError /\
   pending (client (advance rt2 ms)) !! id = None /\
   socket (client (advance rt2 ms)) = socket (client rt2)).
Proof.
  intros rt p rt1 id deadline rt2 Hexact Hquiet Hms.
  assert (awaiting id p deadline rt2) as Haw.
  { apply run_awaiting; [exact Hquiet|].
    apply request_awaits; [apply run_wellFormed, wellFormed_startup | exact Hexact]. }
  split; [|split].
  - destruct Haw as (Hpend & Hset & _). auto.
  - destruct Haw as (Hpend & Hset & _). apply onRequestTimeout_rejects_one; assumption.
  - apply advance_fires with deadline; assumption.
Qed.

Lemma C3_unanswered_request_times_out_witness :
  let rt2 := run (request (run startup demoBefore) (js "shutdown") None).2 demoMeanwhile in
  (pending (client rt2) !! 2%Z = Some 1 /\ settled rt2 !! 1 = None) /\
  (settled (advance rt2 1) !! 1 = Some timeoutError /\
   pending (client (advance rt2 1)) !! 2%Z = None /\
   socket (client (advance rt2 1)) = socket (client rt2)).
Proof.
  pose proof (C3_unanswered_request_times_out demoBefore demoMeanwhile (js "shutdown") None 1
                eq_refl) as Hthm.
  cbv zeta in Hthm.
  destruct Hthm as (Hstill & _ & Hfired); [vm_compute; reflexivity | vm_compute; discriminate |].
  split; [exact Hstill | exact Hfired].
Defined.

(** ** Waiting for diagnostics *)

Section WaitingFacts.
Variable clientAt : Z -> SimpleLspClient.
Variable wake : Z -> Z.

(** [Bun.sleep(100)] takes 100 ms at least. *)
Hypothesis wake_later : forall t, (t + POLL_INTERVAL <= wake t)%Z.

(** The loop, entered at [t] with turns enough for the time that is
    left: it ends at a look-up; the look-ups before it were in time
    and found nothing; the last one either was in time and found the
    result, or was late and the result is empty. *)
Lemma waitLoop_spec uri timeoutMs start : forall fuel t,
  (timeoutMs - (t - start) <= POLL_INTERVAL * Z.of_nat fuel)%Z ->
  exists k result,
    waitLoop clientAt wake (S fuel) uri timeoutMs start t
    = Some (result, pollTime wake k t) /\
    (forall j, j < k ->
       (pollTime wake j t - start < timeoutMs)%Z /\
       diagnostics (clientAt (pollTime wake j t)) !! uri = None) /\
    (((pollTime wake k t - start < timeoutMs)%Z /\
      diagnostics (clientAt (pollTime wake k t)) !! uri = Some result) \/
     ((timeoutMs <= pollTime wake k t - start)%Z /\ result = JArr [])).
Proof.
  unfold POLL_INTERVAL in *.
  induction fuel as [|fuel IH]; intros t Hfuel.
  - exists 0, (JArr []). cbn [waitLoop pollTime].
    destruct (Z.ltb_spec (t - start) timeoutMs); [lia|].
    split; [reflexivity|]. split; [intros j Hj; lia|]. right. split; [lia | reflexivity].
  - cbn [waitLoop]. destruct (Z.ltb_spec (t - start) timeoutMs) as [Hin|Hout].
    + destruct (diagnostics (clientAt t) !! uri) as [diags|] eqn:Hd.
      * exists 0, diags. cbn [pollTime]. split; [reflexivity|].
        split; [intros j Hj; lia|]. left. split; [exact Hin | exact Hd].
      * destruct (IH (wake t)) as (k & result & Hrun & Hbefore & Hlast).
        { pose proof (wake_later t). lia. }
        exists (S k), result. cbn [pollTime]. split; [exact Hrun|].
        split; [|exact Hlast].
        intros [|j] Hj; cbn [pollTime]; [split; [exact Hin | exact Hd]|].
        apply Hbefore. lia.
    + exists 0, (JArr []). cbn [pollTime]. split; [reflexivity|].
      split; [intros j Hj; lia|]. right. split; [exact Hout | reflexivity].
Qed.

(** An entry that is there at the call is returned at once when the
    timeout is positive. *)
Lemma wait_present uri timeoutMs start diags fuel :
  (0 < timeoutMs)%Z ->
  diagnostics (clientAt start) !! uri = Some diags ->
  waitForDiagnostics clientAt wake (S fuel) uri timeoutMs start = Some (diags, start).
Proof.
  intros Hpos Hd. unfold waitForDiagnostics. cbn [waitLoop].
  destruct (Z.ltb_spec (start - start) timeoutMs); [|lia].
  rewrite Hd. reflexivity.
Qed.

(** Without any time to wait the map is not looked at. *)
Lemma wait_no_time uri timeoutMs start fuel :
  (timeoutMs <= 0)%Z ->
  waitForDiagnostics clientAt wake (S fuel) uri timeoutMs start = Some (JArr [], start).
Proof.
  intros Hpos. unfold waitForDiagnostics. cbn [waitLoop].
  destruct (Z.ltb_spec (start - start) timeoutMs); [lia | reflexivity].
Qed.
End WaitingFacts.

(** C2 (as amended).  With sleeps of 100 ms at least and turns enough
    for the timeout, [waitForDiagnostics] returns, at one of its
    look-ups: the look-ups before it came before the timeout and found
    no entry; the last one came before the timeout and found the entry
    that is returned, or came when the timeout had passed, and then the
    result is the empty sequence.  It never throws. *)
Theorem C2_wait_returns_first_entry_polled
    (clientAt : Z -> SimpleLspClient) (wake : Z -> Z)
    (uri : jsstring) (timeoutMs start : Z) (fuel : nat) :
  (forall t, (t + POLL_INTERVAL <= wake t)%Z) ->
  (timeoutMs <= POLL_INTERVAL * Z.of_nat fuel)%Z ->
  exists k result,
    waitForDiagnostics clientAt wake (S fuel) uri timeoutMs start
    = Some (result, pollTime wake k start) /\
    (forall j, j < k ->
       (pollTime wake j start - start < timeoutMs)%Z /\
       diagnostics (clientAt (pollTime wake j start)) !! uri = None) /\
    (((pollTime wake k start - start < timeoutMs)%Z /\
      diagnostics (clientAt (pollTime wake k start)) !! uri = Some result) \/
     ((timeoutMs <= pollTime wake k start - start)%Z /\ result = JArr [])).
Proof.
  intros Hwake Hfuel. apply waitLoop_spec; [exact Hwake | lia].
Qed.

Lemma sleepExactly_later t : (t + POLL_INTERVAL <= sleepExactly t)%Z.
Proof. unfold sleepExactly. lia. Qed.

Lemma C2_wait_returns_first_entry_polled_witness :
  exists k result,
    waitForDiagnostics (pushedAt 200) sleepExactly 31 demoUri 3000 0
    = Some (result, pollTime sleepExactly k 0) /\
    (forall j, j < k ->
       (pollTime sleepExactly j 0 - 0 < 3000)%Z /\
       diagnostics (pushedAt 200 (pollTime sleepExactly j 0)) !! demoUri = None) /\
    (((pollTime sleepExactly k 0 - 0 < 3000)%Z /\
      diagnostics (pushedAt 200 (pollTime sleepExactly k 0)) !! demoUri = Some result) \/
     ((3000 <= pollTime sleepExactly k 0 - 0)%Z /\ result = JArr [])).
Proof.
  apply (C2_wait_returns_first_entry_polled (pushedAt 200) sleepExactly demoUri 3000 0 30
           sleepExactly_later).
  vm_compute. discriminate.
Defined.

(** C2 as it stands fails: with a timeout of 50 ms and the push at
    30 ms the entry is there before the timeout, and yet the only
    look-ups are at 0 ms, too early, and at 100 ms, too late; the
    result is the empty sequence, for any number of turns that lets
    the loop end. *)
Lemma C2_entry_before_timeout_missed :
  diagnostics (pushedAt 30 30) !! demoUri = Some demoEntry /\
  (0 <= 30 < 0 + 50)%Z /\
  waitForDiagnostics (pushedAt 30) sleepExactly 2 demoUri 50 0 = Some (JArr [], 100%Z) /\
  (forall fuel result t,
     waitForDiagnostics (pushedAt 30) sleepExactly fuel demoUri 50 0 = Some (result, t) ->
     result = JArr [] /\ t = 100%Z) /\
  JArr [] <> demoEntry.
Proof.
  split; [reflexivity|]. split; [lia|]. split; [reflexivity|]. split; [|discriminate].
  intros [|[|fuel]] result t; [discriminate | discriminate |].
  cbv. intros [= <- <-]. split; reflexivity.
Qed.

(** C9 (as amended).  With a positive timeout, an entry that is there
    at the call, empty or not, is returned at the time of the call.
    With a timeout that is not positive the entries are not looked at:
    the result is the empty sequence, at the time of the call, whatever
    is there.  The empty sequence is thus returned for an empty entry at
    once, and also, after the timeout, when no look-up finds an entry.
    [getDiagnostics] gives the empty sequence for a URI without entry. *)
Theorem C9_present_entry_returned_at_once
    (clientAt : Z -> SimpleLspClient) (wake : Z -> Z)
    (uri : jsstring) (timeoutMs start : Z) (fuel : nat) :
  (forall t, (t + POLL_INTERVAL <= wake t)%Z) ->
  (timeoutMs <= POLL_INTERVAL * Z.of_nat fuel)%Z ->
  ((0 < timeoutMs)%Z ->
   forall diags,
     diagnostics (clientAt start) !! uri = Some diags ->
     waitForDiagnostics clientAt wake (S fuel) uri timeoutMs start = Some (diags, start)) /\
  ((0 < timeoutMs)%Z ->
   diagnostics (clientAt start) !! uri = Some (JArr []) ->
   waitForDiagnostics clientAt wake (S fuel) uri timeoutMs start = Some (JArr [], start)) /\
  ((timeoutMs <= 0)%Z ->
   waitForDiagnostics clientAt wake (S fuel) uri timeoutMs start = Some (JArr [], start)) /\
  ((forall t, diagnostics (clientAt t) !! uri = None) ->
   exists t_end,
     waitForDiagnostics clientAt wake (S fuel) uri timeoutMs start = Some (JArr [], t_end) /\
     (start + timeoutMs <= t_end)%Z) /\
  (forall t, diagnostics (clientAt t) !! uri = None ->
             getDiagnostics (clientAt t) uri = JArr []).
Proof.
  intros Hwake Hfuel. split; [|split; [|split; [|split]]].
  - intros Hpos diags Hd. apply wait_present; assumption.
  - intros Hpos Hd. apply wait_present; assumption.
  - intros Hle. apply wait_no_time. exact Hle.
  - intros Hnone.
    destruct (waitLoop_spec clientAt wake Hwake uri timeoutMs start fuel start)
      as (k & result & Hrun & _ & [[_ Hfound]|[Hlate ->]]); [lia | |].
    + rewrite Hnone in Hfound. discriminate.
    + exists (pollTime wake k start). split; [exact Hrun | lia].
  - intros t Hnone. unfold getDiagnostics. rewrite Hnone. reflexivity.
Qed.

Lemma C9_present_entry_returned_at_once_witness :
  waitForDiagnostics (pushedAt 0) sleepExactly 31 demoUri 3000 0 = Some (demoEntry, 0%Z) /\
  waitForDiagnostics (pushedAt 0) sleepExactly 31 demoUri 0 0 = Some (JArr [], 0%Z) /\
  (exists t_end,
     waitForDiagnostics neverPushed sleepExactly 31 demoUri 3000 0 = Some (JArr [], t_end) /\
     (0 + 3000 <= t_end)%Z) /\
  getDiagnostics (neverPushed 0) demoUri = JArr [].
Proof.
  assert (3000 <= POLL_INTERVAL * Z.of_nat 30)%Z as Hfuel by (vm_compute; discriminate).
  assert (0 <= POLL_INTERVAL * Z.of_nat 30)%Z as Hfuel0 by (vm_compute; discriminate).
  pose proof (C9_present_entry_returned_at_once (pushedAt 0) sleepExactly demoUri 3000 0 30
                sleepExactly_later Hfuel) as (Hnow & _).
  pose proof (C9_present_entry_returned_at_once (pushedAt 0) sleepExactly demoUri 0 0 30
                sleepExactly_later Hfuel0) as (_ & _ & Hzero & _).
  pose proof (C9_present_entry_returned_at_once neverPushed sleepExactly demoUri 3000 0 30
                sleepExactly_later Hfuel) as (_ & _ & _ & Hnever & Hget).
  split; [apply Hnow; reflexivity|].
  split; [apply Hzero; reflexivity|].
  split; [apply Hnever; reflexivity | apply (Hget 0%Z); reflexivity].
Defined.

(** C9 as it stands fails: with a timeout of 0 ms the loop is not
    entered, and an entry that is there at the call is not returned. *)
Lemma C9_present_entry_ignored_without_time :
  diagnostics (pushedAt 0 0) !! demoUri = Some demoEntry /\
  waitForDiagnostics (pushedAt 0) sleepExactly 1 demoUri 0 0 = Some (JArr [], 0%Z) /\
  (forall fuel result t,
     waitForDiagnostics (pushedAt 0) sleepExactly fuel demoUri 0 0 = Some (result, t) ->
     result = JArr [] /\ t = 0%Z) /\
  JArr [] <> demoEntry.
Proof.
  split; [reflexivity|]. split; [reflexivity|]. split; [|discriminate].
  intros [|fuel] result t; [discriminate|].
  cbv. intros [= <- <-]. split; reflexivity.
Qed.

(** ** The model at work on the samples *)

Example sha256_abc :
  SHA256.hexdigest (utf8_encode (js "abc"))
  = js "ba7816bf8f01cfea414140de5dae2223b00361a396177a9cb410ff61f20015ad".
Proof. vm_compute. reflexivity. Qed.

Example hashPath_demo : hashPath demoProject = js "9c09f805".
Proof. vm_compute. reflexivity. Qed.

Example getStatePath_demo : getStatePath demoProject = js "/tmp/claude-lsp/ra-9c09f805.json".
Proof. vm_compute. reflexivity. Qed.

(** 0x9c09f805 is 2617899013: port 19213 when it is free, the next one
    when it is not. *)
Example port_demo_free : fst <$> spawnDaemon_port ∅ demoProject = Some (Return 19213%Z).
Proof. vm_compute. reflexivity. Qed.

Example port_demo_taken :
  fst <$> spawnDaemon_port {[19213%Z; 19214%Z]} demoProject = Some (Return 19215%Z).
Proof. vm_compute. reflexivity. Qed.

Example json_roundtrip_demo : JSON_parse (JSON_stringify demoPush) = Some demoPush.
Proof. vm_compute. reflexivity. Qed.

(** The push, which is ASCII, survives every cutting of its encoding. *)
Example roundtrip_demoPush chunks :
  concat chunks = encodeMessage demoPush ->
  receiveAll ([], []) chunks = Some ([demoPush], []).
Proof. apply roundtrip_ascii; vm_compute; reflexivity. Qed.

Example roundtrip_demoPush_units :
  receiveAll ([], []) (unitChunks (encodeMessage demoPush)) = Some ([demoPush], []).
Proof. vm_compute. reflexivity. Qed.

Example two_frames_demo :
  parseMessages (encodeMessage msg_b1 ++ encodeMessage demoPush ++ js "Content-Len")
  = Some ([msg_b1; demoPush], js "Content-Len").
Proof. vm_compute. reflexivity. Qed.

(** A header in other case and among other fields is read all the same. *)
Example header_case_demo :
  parseMessages (js "Content-Type: x" ++ [CR; LF] ++ js "content-length: 7" ++ CRLFCRLF
                   ++ JSON_stringify msg_b1)
  = Some ([msg_b1], []).
Proof. vm_compute. reflexivity. Qed.

(** A payload that is no JSON is dropped, and decoding goes on. *)
Example bad_payload_demo :
  parseMessages (js "Content-Length: 3" ++ CRLFCRLF ++ js "{x}" ++ encodeMessage msg_b1)
  = Some ([msg_b1], []).
Proof. vm_compute. reflexivity. Qed.

(** The push arrives while the client waits: the look-up at 200 ms
    returns it. *)
Example wait_demo :
  waitForDiagnostics (pushedAt 200) sleepExactly 31 demoUri 3000 0 = Some (demoEntry, 200%Z).
Proof. vm_compute. reflexivity. Qed.

(** No push: the look-up at 100 ms is late for a timeout of 50 ms. *)
Example wait_timeout_demo :
  waitForDiagnostics neverPushed sleepExactly 2 demoUri 50 0 = Some (JArr [], 100%Z).
Proof. vm_compute. reflexivity. Qed.

(** A push at 2950 ms is missed by a wait of 3000 ms: the look-ups are
    at 0, 100, ..., 2900 and, late, at 3000 ms. *)
Example wait_last_window_demo :
  waitForDiagnostics (pushedAt 2950) sleepExactly 31 demoUri 3000 0 = Some (JArr [], 3000%Z).
Proof. vm_compute. reflexivity. Qed.

(** A message that is no object stops the loop of [processBuffer]: the
    push behind it in the same chunk is lost. *)
Example primitive_message_demo :
  let rt := (onData (with_client startup (connect new_SimpleLspClient))
               (js "Content-Length: 1" ++ CRLFCRLF ++ js "5" ++ encodeMessage demoPush)) in
  rt.2 = true /\ diagnostics (client rt.1) !! demoUri = None /\ buffer (client rt.1) = [].
Proof. vm_compute. repeat split. Qed.

(** The push in one chunk replaces the two older diagnostics. *)
Example push_demo :
  let rt := (onData rt_with_old (encodeMessage demoPush)).1 in
  diagnostics (client rt) !! demoUri = Some demoEntry /\ getDiagnostics (client rt) demoUri = demoEntry.
Proof. vm_compute. split; reflexivity. Qed.

(** * Further properties *)

(** ** The framer: bytes on the wire, leftovers, chunk boundaries *)

Lemma utf8_encode_ascii_app (a s : jsstring) :
  isAscii a = true -> utf8_encode (a ++ s) = a ++ utf8_encode s.
Proof.
  unfold isAscii. induction a as [|c a IH]; [reflexivity|]. cbn [forallb app].
  intros Ha. apply andb_true_iff in Ha as [Hc Ha]. apply N.ltb_lt in Hc.
  cbn [utf8_encode].
  assert (isHighSurrogate c = false) as ->
    by (unfold isHighSurrogate; apply andb_false_iff; left; apply N.leb_gt; lia).
  assert (isLowSurrogate c = false) as ->
    by (unfold isLowSurrogate; apply andb_false_iff; left; apply N.leb_gt; lia).
  unfold utf8_unit. rewrite (proj2 (N.ltb_lt c 128) Hc). cbn [app].
  rewrite (IH Ha). reflexivity.
Qed.

Lemma isAscii_app a b : isAscii (a ++ b) = isAscii a && isAscii b.
Proof. unfold isAscii. apply forallb_app. Qed.

Lemma isAscii_digits ds : forallb isDigit ds = true -> isAscii ds = true.
Proof.
  unfold isAscii. induction ds as [|d ds IH]; [reflexivity|]. cbn [forallb].
  intros Hd. apply andb_true_iff in Hd as [Hd Hds]. rewrite (IH Hds), andb_true_r.
  unfold isDigit in Hd. apply andb_true_iff in Hd as [_ Hd].
  apply N.leb_le in Hd. apply N.ltb_lt. lia.
Qed.

(** X1.  On the wire the header of [encodeMessage] is ASCII, and the
    number it announces is the number of bytes that follow the blank
    line. *)
Theorem encodeMessage_announces_bytes `{JSONRuntime} (msg : json) :
  exists header digits,
    isAscii header = true /\
    utf8_encode (encodeMessage msg)
    = header ++ CRLFCRLF ++ utf8_encode (JSON_stringify msg) /\
    matchContentLength header = Some digits /\
    parseInt10 digits = N.of_nat (length (utf8_encode (JSON_stringify msg))).
Proof.
  set (n := N.of_nat (Buffer_byteLength (JSON_stringify msg))).
  destruct (N_toString_spec n) as (_ & Hd & Hv).
  exists (CONTENT_LENGTH ++ N_toString n), (N_toString n).
  assert (isAscii (CONTENT_LENGTH ++ N_toString n) = true) as Ha
    by (rewrite isAscii_app, (isAscii_digits _ Hd); reflexivity).
  split; [exact Ha|]. split; [|split].
  - unfold encodeMessage. fold n.
    rewrite (app_assoc CONTENT_LENGTH), (app_assoc _ CRLFCRLF).
    rewrite utf8_encode_ascii_app.
    + rewrite <- app_assoc. reflexivity.
    + rewrite isAscii_app, Ha. reflexivity.
  - apply matchContentLength_header.
  - exact Hv.
Qed.

Lemma startsWith_app pat s x :
  startsWith pat s = true -> startsWith pat (s ++ x) = true.
Proof.
  revert s. induction pat as [|p pat IH]; intros [|c s]; simpl; try discriminate; auto.
  intros Hs. apply andb_true_iff in Hs as [Hc Hs]. rewrite Hc, (IH _ Hs). reflexivity.
Qed.

Lemma startsWith_app_false pat s x :
  length pat <= length s -> startsWith pat s = false -> startsWith pat (s ++ x) = false.
Proof.
  revert s. induction pat as [|p pat IH]; intros [|c s]; simpl; try discriminate; try lia.
  intros Hlen Hs. apply andb_false_iff in Hs as [Hc|Hs].
  - rewrite Hc. reflexivity.
  - rewrite (IH s) by (assumption || lia). apply andb_false_r.
Qed.

(** An occurrence that is there stays the first one when text follows. *)
Lemma indexOf_app pat s x k : indexOf pat s = Some k -> indexOf pat (s ++ x) = Some k.
Proof.
  revert k. induction s as [|c s IH]; intros k; cbn [indexOf app].
  - destruct (startsWith pat []) eqn:E; [|discriminate].
    intros [= <-]. destruct pat; [|discriminate]. destruct x; reflexivity.
  - destruct (startsWith pat (c :: s)) eqn:E.
    + intros [= <-]. change (c :: s ++ x) with ((c :: s) ++ x).
      rewrite startsWith_app by exact E. reflexivity.
    + destruct (indexOf pat s) as [j|] eqn:Hj; [|discriminate].
      cbn. intros [= <-]. change (c :: s ++ x) with ((c :: s) ++ x).
      rewrite startsWith_app_false; [rewrite (IH j eq_refl); reflexivity | | exact E].
      apply indexOf_bound in Hj. simpl. lia.
Qed.

Section Streaming.
Context `{JSONRuntime}.

(** What is left by the loop is a tail of what it was given. *)
Lemma parseLoop_suffix fuel : forall messages remaining messages' remaining',
  parseLoop fuel messages remaining = Some (messages', remaining') ->
  exists consumed, remaining = consumed ++ remaining'.
Proof.
  induction fuel as [|fuel IH]; intros messages remaining messages' remaining';
    [discriminate|]. cbn [parseLoop].
  destruct (indexOf CRLFCRLF remaining) as [headerEnd|].
  2:{ intros [= <- <-]. exists []. reflexivity. }
  destruct (matchContentLength _) as [digits|].
  - destruct (N.ltb _ _).
    + intros [= <- <-]. exists []. reflexivity.
    + intros Hrun. apply IH in Hrun as [consumed Hc].
      eexists (take _ remaining ++ consumed).
      rewrite <- app_assoc, <- Hc. symmetry. apply take_drop.
  - intros Hrun. apply IH in Hrun as [consumed Hc].
    eexists (take _ remaining ++ consumed).
    rewrite <- app_assoc, <- Hc. symmetry. apply take_drop.
Qed.

(** What is left by the loop holds no frame that is complete. *)
Lemma parseLoop_leftover fuel : forall messages remaining messages' remaining',
  parseLoop fuel messages remaining = Some (messages', remaining') ->
  parseMessages remaining' = Some ([], remaining').
Proof.
  induction fuel as [|fuel IH]; intros messages remaining messages' remaining';
    [discriminate|]. cbn [parseLoop].
  destruct (indexOf CRLFCRLF remaining) as [headerEnd|] eqn:Hidx.
  2:{ intros [= <- <-]. apply parseMessages_no_delimiter, Hidx. }
  destruct (matchContentLength _) as [digits|] eqn:Hm; [|apply IH].
  destruct (N.ltb_spec (N.of_nat (length remaining))
              (N.of_nat (headerEnd + 4) + parseInt10 digits)) as [Hlt|Hge]; [|apply IH].
  intros [= <- <-]. eapply parseMessages_wait; eassumption.
Qed.

(** Text that follows does not change what the loop does with the
    text before it: it goes on from where it stopped. *)
Lemma parseLoop_extend x fuel : forall messages remaining messages' remaining' fuel1 fuel2,
  parseLoop fuel messages remaining = Some (messages', remaining') ->
  length (remaining ++ x) < fuel1 ->
  length (remaining' ++ x) < fuel2 ->
  parseLoop fuel1 messages (remaining ++ x) = parseLoop fuel2 messages' (remaining' ++ x).
Proof.
  induction fuel as [|fuel IH];
    intros messages remaining messages' remaining' fuel1 fuel2; [discriminate|].
  cbn [parseLoop].
  destruct (indexOf CRLFCRLF remaining) as [headerEnd|] eqn:Hidx.
  2:{ intros [= <- <-] H1 H2. rewrite (parseLoop_enough fuel1), (parseLoop_enough fuel2) by assumption.
      reflexivity. }
  pose proof (indexOf_bound _ _ _ Hidx) as Hb. change (length CRLFCRLF) with 4 in Hb.
  destruct (matchContentLength (slice 0 headerEnd remaining)) as [digits|] eqn:Hm.
  - destruct (N.ltb_spec (N.of_nat (length remaining))
                (N.of_nat (headerEnd + 4) + parseInt10 digits)) as [Hlt|Hge].
    + intros [= <- <-] H1 H2. rewrite (parseLoop_enough fuel1), (parseLoop_enough fuel2) by assumption.
      reflexivity.
    + intros Hrun H1 H2. destruct fuel1 as [|fuel1]; [lia|]. cbn [parseLoop].
      rewrite (indexOf_app _ _ x _ Hidx).
      replace (slice 0 headerEnd (remaining ++ x)) with (slice 0 headerEnd remaining)
        by (rewrite !slice_0, take_app_le by lia; reflexivity).
      rewrite Hm.
      destruct (N.ltb_spec (N.of_nat (length (remaining ++ x)))
                  (N.of_nat (headerEnd + 4) + parseInt10 digits)) as [Hlt'|_];
        [rewrite length_app in Hlt'; lia|].
      set (e := N.to_nat (N.of_nat (headerEnd + 4) + parseInt10 digits)) in *.
      assert (e <= length remaining) as He by (unfold e; lia).
      replace (slice (headerEnd + 4) e (remaining ++ x))
        with (slice (headerEnd + 4) e remaining).
      2:{ unfold slice. rewrite drop_app_le by lia.
          rewrite take_app_le; [reflexivity|]. rewrite length_drop. lia. }
      rewrite drop_app_le by exact He.
      apply (IH _ _ _ _ _ _ Hrun); [|exact H2].
      rewrite length_app, length_drop in *. unfold e in *. lia.
  - intros Hrun H1 H2. destruct fuel1 as [|fuel1]; [lia|]. cbn [parseLoop].
    rewrite (indexOf_app _ _ x _ Hidx).
    replace (slice 0 headerEnd (remaining ++ x)) with (slice 0 headerEnd remaining)
      by (rewrite !slice_0, take_app_le by lia; reflexivity).
    rewrite Hm, drop_app_le by lia.
    apply (IH _ _ _ _ _ _ Hrun); [|exact H2].
    rewrite length_app, length_drop in *. lia.
Qed.

Lemma parseMessages_extend buffer x messages remaining :
  parseMessages buffer = Some (messages, remaining) ->
  parseMessages (buffer ++ x) = prepend messages <$> parseMessages (remaining ++ x).
Proof.
  intros Hrun. unfold parseMessages at 1.
  rewrite (parseLoop_extend x _ _ _ _ _ _ (S (length (remaining ++ x))) Hrun) by lia.
  rewrite <- (app_nil_r messages) at 1. rewrite parseLoop_acc. reflexivity.
Qed.

Lemma prepend_prepend a b r : prepend a (prepend b r) = prepend (a ++ b) r.
Proof. unfold prepend. cbn. rewrite app_assoc. reflexivity. Qed.

Lemma receiveAll_batch chunks : forall seen buffer,
  parseMessages buffer = Some ([], buffer) ->
  receiveAll (seen, buffer) chunks = prepend seen <$> parseMessages (buffer ++ concat chunks).
Proof.
  induction chunks as [|chunk chunks IH]; intros seen buffer Hleft.
  - cbn [receiveAll concat]. rewrite app_nil_r, Hleft. cbn. unfold prepend. cbn.
    rewrite app_nil_r. reflexivity.
  - cbn [receiveAll concat receive].
    destruct (parseMessages_total (buffer ++ chunk)) as (ms & rem & Hrun).
    rewrite Hrun, app_assoc, (parseMessages_extend _ _ _ _ Hrun).
    rewrite (IH (seen ++ ms) rem) by (eapply parseLoop_leftover; exact Hrun).
    destruct (parseMessages (rem ++ concat chunks)) as [r|]; [|reflexivity].
    cbn. rewrite prepend_prepend. reflexivity.
Qed.
End Streaming.

(** X2.  Whatever the buffer, what [parseMessages] leaves is a tail of
    it, and decoding that tail again yields no message and leaves it
    as it is. *)
Theorem parseMessages_leaves_idle_tail `{JSONRuntime}
    (buffer : jsstring) (messages : list json) (remaining : jsstring) :
  parseMessages buffer = Some (messages, remaining) ->
  (exists consumed, buffer = consumed ++ remaining) /\
  parseMessages remaining = Some ([], remaining).
Proof.
  intros Hrun. split.
  - eapply parseLoop_suffix. exact Hrun.
  - eapply parseLoop_leftover. exact Hrun.
Qed.

Lemma parseMessages_leaves_idle_tail_witness :
  (exists consumed,
      encodeMessage msg_b1 ++ js "Content-Len" = consumed ++ js "Content-Len") /\
  parseMessages (js "Content-Len") = Some ([], js "Content-Len").
Proof.
  apply (parseMessages_leaves_idle_tail (encodeMessage msg_b1 ++ js "Content-Len") [msg_b1]).
  vm_compute. reflexivity.
Defined.

Lemma decodeFrom_ascii bytes :
  Forall (fun b => (b < 128)%N) bytes -> decodeFrom None bytes = bytes.
Proof.
  induction 1 as [|b bytes Hb _ IH]; [reflexivity|]. cbn [decodeFrom]. unfold lead.
  destruct (N.leb_spec b 127) as [_|Hgt]; [|lia]. cbn [fst snd app]. rewrite IH. reflexivity.
Qed.

(** Bytes of ASCII are their own text. *)
Lemma TextDecoder_decode_ascii bytes :
  Forall (fun b => (b < 128)%N) bytes -> TextDecoder_decode bytes = bytes.
Proof.
  intros Hb. unfold TextDecoder_decode. rewrite (decodeFrom_ascii _ Hb).
  destruct Hb as [|b bytes Hb _]; [reflexivity|].
  destruct (N.eqb_spec b BOM) as [->|_]; [|reflexivity]. unfold BOM in Hb. lia.
Qed.

Lemma concat_decode_ascii chunks :
  Forall (Forall (fun b => (b < 128)%N)) chunks ->
  concat (TextDecoder_decode <$> chunks) = TextDecoder_decode (concat chunks).
Proof.
  intros Hc. rewrite (TextDecoder_decode_ascii (concat chunks)).
  - induction Hc as [|data chunks Hd _ IH]; [reflexivity|].
    cbn [fmap list_fmap concat]. rewrite (TextDecoder_decode_ascii _ Hd). f_equal. exact IH.
  - induction Hc as [|data chunks Hd _ IH]; [constructor|].
    cbn [concat]. apply Forall_app. split; assumption.
Qed.

Lemma receiveAllBytes_texts `{JSONRuntime} chunks : forall st,
  receiveAllBytes st chunks = receiveAll st (TextDecoder_decode <$> chunks).
Proof.
  induction chunks as [|data chunks IH]; intros st; [reflexivity|].
  cbn [receiveAllBytes receiveAll fmap list_fmap]. unfold receiveBytes.
  destruct (receive st (TextDecoder_decode data)) as [st'|]; [apply IH | reflexivity].
Qed.

(** X3.  The boundaries of the chunks matter through the decoding of the
    bytes only.  A client that receives bytes in chunks, decoding each
    chunk for itself and then the buffer, ends with the messages and
    the rest that decoding the buffer once gives for the texts of the
    chunks put together.  For chunks of ASCII these texts are the text
    of all the bytes, and the boundaries do not matter at all. *)
Theorem receiveAllBytes_is_parseMessages `{JSONRuntime} (chunks : list (list N)) :
  receiveAllBytes ([], []) chunks
  = parseMessages (concat (TextDecoder_decode <$> chunks)) /\
  (Forall (Forall (fun b => (b < 128)%N)) chunks ->
   receiveAllBytes ([], []) chunks = parseMessages (TextDecoder_decode (concat chunks))).
Proof.
  assert (receiveAllBytes ([], []) chunks
          = parseMessages (concat (TextDecoder_decode <$> chunks))) as E.
  { rewrite receiveAllBytes_texts, receiveAll_batch by reflexivity. cbn [app].
    destruct (parseMessages _) as [[ms rem]|]; reflexivity. }
  split; [exact E|]. intros Hascii. rewrite E, (concat_decode_ascii _ Hascii). reflexivity.
Qed.

(** A chunk that ends inside a character: the two bytes of [é] give
    two replacement characters when they come in two chunks. *)
Example TextDecoder_cut_inside_character :
  TextDecoder_decode [195; 169]%N = [233]%N /\
  concat (TextDecoder_decode <$> [[195]; [169]])%N = [65533; 65533]%N.
Proof. split; reflexivity. Qed.

(** ** The client: responses, settled promises, the buffer, pending requests *)




Section BufferFacts.
Context `{JSONRuntime}.

(** The buffer after a chunk holds no complete frame. *)
Lemma dispatch_buffer rt msg rt' :
  dispatch rt msg = Some rt' -> buffer (client rt') = buffer (client rt).
Proof.
  unfold dispatch. destruct (inOperator _ _) as [has|]; [|discriminate].
  destruct (if has then _ else _) as [[id q]|].
  - intros [= <-]. reflexivity.
  - destruct (isString _ _); [|intros [= <-]; reflexivity].
    destruct (getPropOf _ _) as [uri|]; [|discriminate].
    destruct (getPropOf _ _) as [diags|]; [|discriminate].
    intros [= <-]. reflexivity.
Qed.

Lemma dispatchAll_buffer messages : forall rt,
  buffer (client (dispatchAll rt messages).1) = buffer (client rt).
Proof.
  induction messages as [|msg messages IH]; intros rt; [reflexivity|].
  cbn [dispatchAll]. destruct (dispatch rt msg) as [rt'|] eqn:Hd; [|reflexivity].
  rewrite IH. eapply dispatch_buffer. exact Hd.
Qed.

Lemma onData_buffer_idle rt text :
  parseMessages (buffer (client (onData rt text).1))
  = Some ([], buffer (client (onData rt text).1)).
Proof.
  unfold onData, processBuffer. cbn [with_client with_buffer client buffer].
  destruct (parseMessages_total (buffer (client rt) ++ text)) as (ms & rem & Hrun).
  rewrite Hrun, dispatchAll_buffer. cbn [with_client with_buffer client buffer].
  eapply parseLoop_leftover. exact Hrun.
Qed.

Lemma send_buffer c msg : buffer (send c msg) = buffer c.
Proof. unfold send. destruct (socket c); reflexivity. Qed.

Lemma onRequestTimeout_buffer rt id p :
  buffer (client (onRequestTimeout rt id p)) = buffer (client rt).
Proof. unfold onRequestTimeout. destruct (pending (client rt) !! id); reflexivity. Qed.

Lemma runCallbacks_buffer ts : forall rt,
  buffer (client (runCallbacks ts rt)) = buffer (client rt).
Proof.
  unfold runCallbacks. induction ts as [|t ts IH]; intros rt; [reflexivity|].
  cbn [fold_left]. rewrite IH. apply onRequestTimeout_buffer.
Qed.

Lemma step_buffer_idle rt ev :
  parseMessages (buffer (client rt)) = Some ([], buffer (client rt)) ->
  parseMessages (buffer (client (step rt ev))) = Some ([], buffer (client (step rt ev))).
Proof.
  destruct ev as [|text|method params|method params|ms|]; cbn [step]; intros Hidle.
  - exact Hidle.
  - apply onData_buffer_idle.
  - unfold request. cbn [snd client]. rewrite send_buffer. exact Hidle.
  - unfold notify. cbn [with_client client]. rewrite send_buffer. exact Hidle.
  - unfold advance. rewrite runCallbacks_buffer. exact Hidle.
  - cbn [with_client client]. unfold close. destruct (socket (client rt)); exact Hidle.
Qed.
End BufferFacts.

(** X6.  In every state a client reaches its buffer holds no frame that
    is complete: what could be decoded has been decoded when the data
    callback returns. *)
Theorem buffer_never_holds_a_frame `{JSONRuntime} (evs : list event) :
  parseMessages (buffer (client (run startup evs)))
  = Some ([], buffer (client (run startup evs))).
Proof.
  unfold run. generalize startup (eq_refl : parseMessages (buffer (client startup))
                                          = Some ([], buffer (client startup))).
  induction evs as [|ev evs IH]; intros rt Hidle; [exact Hidle|].
  cbn [fold_left]. apply IH, step_buffer_idle, Hidle.
Qed.

(** *** No request stays pending beyond its timeout *)

Lemma onRequestTimeout_pending_Some rt id' p' id p :
  pending (client (onRequestTimeout rt id' p')) !! id = Some p ->
  pending (client rt) !! id = Some p /\ id' <> id.
Proof.
  unfold onRequestTimeout. destruct (pending (client rt) !! id') as [q|] eqn:E.
  - cbn [with_settled with_client with_pending client pending].
    intros Hl. apply lookup_delete_Some in Hl as [Hne Hl]. auto.
  - intros Hl. split; [exact Hl|]. intros ->. congruence.
Qed.

(** The callbacks only remove entries, and they remove those of their ids. *)
Lemma runCallbacks_pending_Some ts id p : forall rt,
  pending (client (runCallbacks ts rt)) !! id = Some p ->
  pending (client rt) !! id = Some p /\ forall t, t ∈ ts -> t.2.1 <> id.
Proof.
  unfold runCallbacks. induction ts as [|t ts IH]; intros rt Hl.
  - split; [exact Hl|]. intros t Ht. apply elem_of_nil in Ht. contradiction.
  - cbn [fold_left] in Hl. apply IH in Hl as [Hl Hts].
    apply onRequestTimeout_pending_Some in Hl as [Hl Hne].
    split; [exact Hl|]. intros t' Ht'. apply elem_of_cons in Ht' as [->|Ht']; auto.
Qed.

Lemma runCallbacks_timers ts : forall rt, timers (runCallbacks ts rt) = timers rt.
Proof.
  unfold runCallbacks. induction ts as [|t ts IH]; intros rt; [reflexivity|].
  cbn [fold_left]. rewrite IH. unfold onRequestTimeout.
  destruct (pending (client rt) !! t.2.1); reflexivity.
Qed.

Lemma runCallbacks_now ts : forall rt, now (runCallbacks ts rt) = now rt.
Proof.
  unfold runCallbacks. induction ts as [|t ts IH]; intros rt; [reflexivity|].
  cbn [fold_left]. rewrite IH. unfold onRequestTimeout.
  destruct (pending (client rt) !! t.2.1); reflexivity.
Qed.

Lemma armed_startup : armed startup.
Proof. intros id p Hl. discriminate. Qed.

Lemma armed_ext rt rt' :
  (forall id p, pending (client rt') !! id = Some p -> pending (client rt) !! id = Some p) ->
  timers rt' = timers rt -> now rt' = now rt ->
  armed rt -> armed rt'.
Proof.
  intros Hsub Ht Hn Ha id p Hl. rewrite Ht, Hn. apply Ha, Hsub, Hl.
Qed.

Lemma advance_armed rt ms : (0 <= ms)%Z -> armed rt -> armed (advance rt ms).
Proof.
  intros Hms Ha id p Hl. unfold advance in *.
  rewrite runCallbacks_timers, runCallbacks_now. cbn [timers now].
  apply runCallbacks_pending_Some in Hl as [Hl Hts]. cbn [client] in Hl.
  destruct (Ha id p Hl) as (due & Hin & Hdue).
  exists due. split; [|lia]. apply list_elem_of_filter. split; [|exact Hin].
  cbn. destruct (Z.lt_ge_cases (now rt + ms) due) as [Hlt|Hge]; [exact Hlt|].
  exfalso. apply (Hts (due, (id, p))); [|reflexivity].
  apply list_elem_of_filter. split; [cbn; lia | exact Hin].
Qed.

Section ArmedFacts.
Context `{JSONRuntime}.

Lemma dispatch_pending_sub rt msg rt' id p :
  dispatch rt msg = Some rt' ->
  pending (client rt') !! id = Some p -> pending (client rt) !! id = Some p.
Proof.
  unfold dispatch. destruct (inOperator _ _) as [has|]; [|discriminate].
  destruct (if has then _ else _) as [[id' q]|].
  - intros [= <-]. cbn [with_settled with_client with_pending client pending].
    intros Hl. apply lookup_delete_Some in Hl as [_ Hl]. exact Hl.
  - destruct (isString _ _); [|intros [= <-]; auto].
    destruct (getPropOf _ _) as [uri|]; [|discriminate].
    destruct (getPropOf _ _) as [diags|]; [|discriminate].
    intros [= <-]. auto.
Qed.

Lemma dispatch_timers_now rt msg rt' :
  dispatch rt msg = Some rt' -> timers rt' = timers rt /\ now rt' = now rt.
Proof.
  unfold dispatch. destruct (inOperator _ _) as [has|]; [|discriminate].
  destruct (if has then _ else _) as [[id' q]|].
  - intros [= <-]. auto.
  - destruct (isString _ _); [|intros [= <-]; auto].
    destruct (getPropOf _ _) as [uri|]; [|discriminate].
    destruct (getPropOf _ _) as [diags|]; [|discriminate].
    intros [= <-]. auto.
Qed.

Lemma dispatchAll_armed messages : forall rt, armed rt -> armed (dispatchAll rt messages).1.
Proof.
  induction messages as [|msg messages IH]; intros rt Ha; [exact Ha|].
  cbn [dispatchAll]. destruct (dispatch rt msg) as [rt'|] eqn:Hd; [|exact Ha].
  apply IH. destruct (dispatch_timers_now _ _ _ Hd) as [Ht Hn].
  revert Ha. apply armed_ext; [|exact Ht | exact Hn].
  intros id p. eapply dispatch_pending_sub. exact Hd.
Qed.

Lemma request_armed rt method params : armed rt -> armed (request rt method params).2.
Proof.
  intros Ha id p. rewrite request_pending. unfold request. cbn [snd timers now].
  intros Hl. apply lookup_insert_Some in Hl as [[<- <-]|[_ Hl]].
  - eexists. split; [apply elem_of_app; right; apply list_elem_of_singleton; reflexivity|].
    lia.
  - destruct (Ha id p Hl) as (due & Hin & Hdue). exists due.
    split; [apply elem_of_app; auto | exact Hdue].
Qed.

Lemma step_armed rt ev : forwardEvent ev = true -> armed rt -> armed (step rt ev).
Proof.
  destruct ev as [|text|method params|method params|ms|]; cbn [step forwardEvent];
    intros Hf Ha.
  - revert Ha. apply armed_ext; auto.
  - unfold onData, processBuffer. cbn [with_client with_buffer client buffer].
    destruct (parseMessages _) as [[messages remaining]|].
    + apply dispatchAll_armed. revert Ha. apply armed_ext; auto.
    + revert Ha. apply armed_ext; auto.
  - apply request_armed, Ha.
  - revert Ha. apply armed_ext; auto. unfold notify. cbn [with_client client].
    rewrite send_pending. auto.
  - apply advance_armed; [apply Z.leb_le; exact Hf | exact Ha].
  - revert Ha. apply armed_ext; auto. cbn [with_client client]. unfold close.
    destruct (socket (client rt)); auto.
Qed.

Lemma run_armed evs : forall rt, timeForward evs = true -> armed rt -> armed (run rt evs).
Proof.
  unfold run, timeForward. induction evs as [|ev evs IH]; intros rt Hf Ha; [exact Ha|].
  cbn [forallb] in Hf. apply andb_true_iff in Hf as [Hev Hf].
  cbn [fold_left]. apply IH; [exact Hf|]. apply step_armed; assumption.
Qed.
End ArmedFacts.

(** X7.  No request stays pending beyond its timeout: in whatever state
    a client is, 30 s later, with nothing else happening, its pending
    map is empty. *)
Theorem no_request_pending_after_timeout `{JSONRuntime} (evs : list event) :
  timeForward evs = true ->
  pending (client (advance (run startup evs) REQUEST_TIMEOUT)) = ∅.
Proof.
  intros Hf. pose proof (run_armed evs startup Hf armed_startup) as Ha.
  apply map_empty. intros id.
  destruct (pending (client (advance (run startup evs) REQUEST_TIMEOUT)) !! id)
    as [p|] eqn:Hl; [|reflexivity].
  exfalso. unfold advance in Hl.
  apply runCallbacks_pending_Some in Hl as [Hl Hts]. cbn [client] in Hl.
  destruct (Ha id p Hl) as (due & Hin & Hdue).
  apply (Hts (due, (id, p))); [|reflexivity].
  apply list_elem_of_filter. split; [exact Hdue | exact Hin].
Qed.

Lemma no_request_pending_after_timeout_witness :
  pending (client (advance
                     (run startup [Connect; Request (js "initialize") None; Advance 12000;
                                   Request (js "shutdown") None])
                     REQUEST_TIMEOUT)) = ∅.
Proof.
  apply (no_request_pending_after_timeout
           [Connect; Request (js "initialize") None; Advance 12000;
            Request (js "shutdown") None]).
  reflexivity.
Defined.

(** ** A pending request has a promise that is not settled *)

Lemma unsettledPending_startup ts : unsettledPending ts startup.
Proof. split; [|split]; intros; discriminate. Qed.

Lemma unsettledPending_ext ts ts' rt rt' :
  pending (client rt') = pending (client rt) ->
  settled rt' = settled rt ->
  (forall t, t ∈ ts' -> t ∈ ts) ->
  unsettledPending ts rt -> unsettledPending ts' rt'.
Proof.
  unfold unsettledPending. intros -> -> Hsub (H1 & H2 & H3).
  split; [exact H1|]. split; [exact H2|]. intros due id p id' Ht. apply (H3 due), Hsub, Ht.
Qed.

(** Removing the entry of an id and settling a promise that is pending
    under this id at most. *)
Lemma unsettledPending_settle ts rt id p s :
  (forall id', pending (client rt) !! id' = Some p -> id' = id) ->
  unsettledPending ts rt ->
  unsettledPending ts
    (with_settled (with_client rt (with_pending (client rt) (delete id (pending (client rt)))))
       (settle p s (settled rt))).
Proof.
  intros Honly (H1 & H2 & H3). unfold unsettledPending.
  cbn [with_settled with_client with_pending client pending settled].
  split; [|split].
  - intros id' p' Hl. apply lookup_delete_Some in Hl as [Hne Hl].
    destruct (decide (p' = p)) as [->|Hp].
    + exfalso. apply Hne. symmetry. apply Honly, Hl.
    + rewrite settle_other by congruence. apply (H1 id'), Hl.
  - intros id1 id2 q Hl1 Hl2. apply lookup_delete_Some in Hl1 as [_ Hl1].
    apply lookup_delete_Some in Hl2 as [_ Hl2]. apply (H2 id1 id2 q); assumption.
  - intros due id1 q id2 Ht Hl. apply lookup_delete_Some in Hl as [_ Hl].
    apply (H3 due id1 q id2); assumption.
Qed.

Lemma onRequestTimeout_unsettledPending ts rt due id p :
  (due, (id, p)) ∈ ts -> unsettledPending ts rt -> unsettledPending ts (onRequestTimeout rt id p).
Proof.
  intros Ht Hu. unfold onRequestTimeout.
  destruct (pending (client rt) !! id); [|exact Hu].
  apply unsettledPending_settle; [|exact Hu].
  intros id' Hl. destruct Hu as (_ & _ & H3). apply (H3 due id p id'); assumption.
Qed.

Lemma runCallbacks_unsettledPending ts due_now : forall rt,
  (forall t, t ∈ due_now -> t ∈ ts) ->
  unsettledPending ts rt -> unsettledPending ts (runCallbacks due_now rt).
Proof.
  unfold runCallbacks. induction due_now as [|[due [id p]] due_now IH]; intros rt Hsub Hu;
    [exact Hu|].
  cbn [fold_left fst snd]. apply IH.
  - intros t Ht. apply Hsub, elem_of_cons. auto.
  - apply (onRequestTimeout_unsettledPending ts rt due); [|exact Hu].
    apply Hsub, elem_of_cons. auto.
Qed.

Lemma advance_unsettledPending rt ms :
  unsettledPending (timers rt) rt -> unsettledPending (timers (advance rt ms)) (advance rt ms).
Proof.
  intros Hu. unfold advance. rewrite runCallbacks_timers. cbn [timers].
  apply (unsettledPending_ext (timers rt) _
           (runCallbacks (filter (fun t => (t.1 <= now rt + ms)%Z) (timers rt))
              {| client := client rt; settled := settled rt; promiseCount := promiseCount rt;
                 timers := filter (fun t => (now rt + ms < t.1)%Z) (timers rt);
                 now := (now rt + ms)%Z |})); [reflexivity | reflexivity | |].
  - intros t Ht. apply list_elem_of_filter in Ht as [_ Ht]. exact Ht.
  - apply runCallbacks_unsettledPending.
    + intros t Ht. apply list_elem_of_filter in Ht as [_ Ht]. exact Ht.
    + revert Hu. apply unsettledPending_ext; [reflexivity | reflexivity | auto].
Qed.

Section PromiseFacts.
Context `{JSONRuntime}.

Lemma dispatch_unsettledPending ts rt msg rt' :
  dispatch rt msg = Some rt' -> unsettledPending ts rt -> unsettledPending ts rt'.
Proof.
  intros Hd Hu. unfold dispatch in Hd.
  destruct (inOperator _ _) as [has|]; [|discriminate].
  destruct (if has then _ else _) as [[id p]|] eqn:Hentry.
  - assert (pending (client rt) !! id = Some p) as Hl.
    { destruct has; [|discriminate]. apply pendingEntry_Some in Hentry. tauto. }
    injection Hd as <-. apply unsettledPending_settle; [|exact Hu].
    intros id' Hl'. destruct Hu as (_ & H2 & _). apply (H2 id' id p); assumption.
  - destruct (isString _ _).
    + destruct (getPropOf _ _) as [uri|]; [|discriminate].
      destruct (getPropOf _ _) as [diags|]; [|discriminate].
      injection Hd as <-. revert Hu. apply unsettledPending_ext; [reflexivity..|auto].
    + injection Hd as <-. exact Hu.
Qed.

Lemma dispatchAll_timers messages : forall rt,
  timers (dispatchAll rt messages).1 = timers rt.
Proof.
  induction messages as [|msg messages IH]; intros rt; [reflexivity|].
  cbn [dispatchAll]. destruct (dispatch rt msg) as [rt'|] eqn:Hd; [|reflexivity].
  rewrite IH. apply (dispatch_timers_now _ _ _ Hd).
Qed.

Lemma dispatchAll_unsettledPending ts messages : forall rt,
  unsettledPending ts rt -> unsettledPending ts (dispatchAll rt messages).1.
Proof.
  induction messages as [|msg messages IH]; intros rt Hu; [exact Hu|].
  cbn [dispatchAll]. destruct (dispatch rt msg) as [rt'|] eqn:Hd; [|exact Hu].
  apply IH. eapply dispatch_unsettledPending; eassumption.
Qed.

(** The promise of a new request is new. *)
Lemma request_unsettledPending rt method params :
  wellFormed rt ->
  unsettledPending (timers rt) rt ->
  unsettledPending (timers (request rt method params).2) (request rt method params).2.
Proof.
  intros (Wpend & Wtim & Wset) (H1 & H2 & H3). unfold unsettledPending.
  rewrite request_pending. unfold request. cbn [snd settled timers].
  set (id := increment (requestId (client rt))). set (p := promiseCount rt).
  split; [|split].
  - intros id' p' Hl. apply lookup_insert_Some in Hl as [[<- <-]|[_ Hl]].
    + apply Wset. unfold p. lia.
    + apply (H1 id'), Hl.
  - intros id1 id2 q Hl1 Hl2.
    apply lookup_insert_Some in Hl1 as [[<- <-]|[Hne1 Hl1]];
      apply lookup_insert_Some in Hl2 as [[<- Hq]|[Hne2 Hl2]].
    + reflexivity.
    + apply Wpend in Hl2. unfold p in Hl2. lia.
    + subst q. apply Wpend in Hl1. unfold p in Hl1. lia.
    + apply (H2 id1 id2 q); assumption.
  - intros due id1 q id2 Ht Hl. apply elem_of_app in Ht as [Ht|Ht].
    + apply lookup_insert_Some in Hl as [[<- <-]|[_ Hl]].
      * apply Wtim in Ht. unfold p in Ht. lia.
      * apply (H3 due id1 q id2); assumption.
    + apply list_elem_of_singleton in Ht. injection Ht as -> -> ->.
      apply lookup_insert_Some in Hl as [[<- _]|[_ Hl]]; [reflexivity|].
      apply Wpend in Hl. unfold p in Hl. lia.
Qed.

Lemma step_unsettledPending rt ev :
  wellFormed rt ->
  unsettledPending (timers rt) rt -> unsettledPending (timers (step rt ev)) (step rt ev).
Proof.
  destruct ev as [|text|method params|method params|ms|]; cbn [step]; intros Hw Hu.
  - revert Hu. apply unsettledPending_ext; [reflexivity | reflexivity | auto].
  - unfold onData, processBuffer. cbn [with_client with_buffer client buffer].
    destruct (parseMessages _) as [[messages remaining]|] eqn:Hp.
    + rewrite dispatchAll_timers. cbn [with_client timers].
      apply dispatchAll_unsettledPending.
      revert Hu. apply unsettledPending_ext; [reflexivity | reflexivity | auto].
    + revert Hu. apply unsettledPending_ext; [reflexivity | reflexivity | auto].
  - apply request_unsettledPending; assumption.
  - revert Hu. apply unsettledPending_ext; [|reflexivity | auto].
    unfold notify. cbn [with_client client]. apply send_pending.
  - apply advance_unsettledPending, Hu.
  - revert Hu. apply unsettledPending_ext; [|reflexivity | auto].
    unfold close. cbn [with_client client]. destruct (socket (client rt)); reflexivity.
Qed.

Lemma run_unsettledPending evs : forall rt,
  wellFormed rt ->
  unsettledPending (timers rt) rt ->
  unsettledPending (timers (run rt evs)) (run rt evs).
Proof.
  unfold run. induction evs as [|ev evs IH]; intros rt Hw Hu; [exact Hu|].
  cbn [fold_left]. apply IH; [apply step_wellFormed, Hw | apply step_unsettledPending; assumption].
Qed.
End PromiseFacts.

(** X5.  A request that is pending has a promise that is not settled:
    in every state a client reaches, no entry of the pending map
    belongs to a promise that was resolved or rejected, and no two
    entries belong to one promise.  So the response or the timer that
    finds an entry and removes it is the first to settle its promise. *)
Theorem pending_promise_is_unsettled `{JSONRuntime} (evs : list event) :
  (forall id p,
      pending (client (run startup evs)) !! id = Some p ->
      settled (run startup evs) !! p = None) /\
  (forall id id' p,
      pending (client (run startup evs)) !! id = Some p ->
      pending (client (run startup evs)) !! id' = Some p -> id = id').
Proof.
  destruct (run_unsettledPending evs startup wellFormed_startup
              (unsettledPending_startup _)) as (H1 & H2 & _).
  split; assumption.
Qed.

(** ** [findCargoRoot] *)

Lemma dropSlashes_spec s :
  exists pre, s = pre ++ Path.dropSlashes s /\
              match Path.dropSlashes s with
              | c :: _ => c <> Path.SLASH
              | [] => True
              end.
Proof.
  induction s as [|c s IH]; [exists []; cbn; auto|]. destruct IH as (pre & E & Hh).
  cbn [Path.dropSlashes].
  destruct (N.eqb_spec c Path.SLASH) as [->|Hne].
  - exists (Path.SLASH :: pre). split; [cbn; f_equal; exact E | exact Hh].
  - exists []. auto.
Qed.

Lemma dropSegment_spec s :
  exists pre, s = pre ++ Path.dropSegment s /\
              match Path.dropSegment s with
              | c :: _ => c = Path.SLASH
              | [] => True
              end /\
              (match s with c :: _ => c <> Path.SLASH | [] => False end -> pre <> []).
Proof.
  induction s as [|c s IH]; [exists []; cbn; auto|]. destruct IH as (pre & E & Hh & _).
  cbn [Path.dropSegment].
  destruct (N.eqb_spec c Path.SLASH) as [->|Hne].
  - exists []. cbn. split; [reflexivity|]. split; [reflexivity|]. intros Hc. congruence.
  - exists (c :: pre). split; [cbn; f_equal; exact E|]. split; [exact Hh|]. discriminate.
Qed.

(** The directory of an absolute path other than [/] is absolute, a
    prefix of the path, and shorter. *)
Lemma dirname_absolute rest :
  rest <> [] ->
  exists rest',
    Path.dirname (Path.SLASH :: rest) = Path.SLASH :: rest' /\
    length rest' < length rest /\
    (Path.SLASH :: rest') `prefix_of` (Path.SLASH :: rest).
Proof.
  intros Hrest. unfold Path.dirname. rewrite N.eqb_refl. cbn [andb].
  destruct (dropSlashes_spec (rev rest)) as (pre1 & E1 & H1).
  destruct (dropSegment_spec (Path.dropSlashes (rev rest))) as (pre2 & E2 & H2 & Hpre2).
  assert (length rest > 0) as Hlen by (destruct rest; [congruence | cbn; lia]).
  destruct (Path.dropSegment (Path.dropSlashes (rev rest))) as [|x before] eqn:Er.
  - exists []. split; [reflexivity|]. split; [exact Hlen|].
    exists rest. reflexivity.
  - subst x.
    assert (pre2 <> []) as Hne.
    { intros ->. rewrite E2 in H1. cbn in H1. congruence. }
    assert (rest = rev before ++ [Path.SLASH] ++ rev pre2 ++ rev pre1) as Erest.
    { rewrite <- (rev_involutive rest), E1, E2, !rev_app_distr. cbn [rev].
      rewrite <- !app_assoc. reflexivity. }
    assert (length pre2 > 0) as Hl2 by (destruct pre2; [congruence | cbn; lia]).
    destruct (Nat.eqb_spec (length before) 0) as [Hz|Hnz].
    + apply length_zero_iff_nil in Hz. subst before. exists [Path.SLASH].
      split; [reflexivity|]. rewrite Erest. cbn [rev app].
      split; [cbn [length]; rewrite ?length_app, ?length_rev; lia|].
      exists (rev pre2 ++ rev pre1). reflexivity.
    + exists (rev before). split; [reflexivity|]. rewrite Erest.
      split; [rewrite ?length_app, ?length_rev; cbn [length]; rewrite ?length_app, ?length_rev; lia|].
      exists ([Path.SLASH] ++ rev pre2 ++ rev pre1). cbn. reflexivity.
Qed.

Lemma dropSegment_no_slash s :
  Forall (fun c => c <> Path.SLASH) s -> Path.dropSegment (Path.dropSlashes s) = [].
Proof.
  intros Hs.
  assert (Path.dropSlashes s = s) as ->.
  { destruct Hs as [|c s Hc _]; [reflexivity|]. cbn.
    destruct (N.eqb_spec c Path.SLASH); [congruence | reflexivity]. }
  induction Hs as [|c s Hc _ IH]; [reflexivity|]. cbn.
  destruct (N.eqb_spec c Path.SLASH); [congruence | exact IH].
Qed.

(** The directory of a bare file name is [.]. *)
Lemma dirname_bare filePath :
  Forall (fun c => c <> Path.SLASH) filePath -> Path.dirname filePath = js ".".
Proof.
  intros Hs. destruct Hs as [|c0 rest Hc Hrest]; [reflexivity|]. unfold Path.dirname.
  rewrite dropSegment_no_slash.
  - destruct (N.eqb_spec c0 Path.SLASH); [congruence | reflexivity].
  - apply Forall_rev. exact Hrest.
Qed.

(** The test of the loop is [isCargoRoot]. *)
Lemma findCargoRoot_loop_step fuel fs dir :
  dir <> js "/" ->
  Utils.findCargoRoot_loop (S fuel) fs dir
  = if Utils.isCargoRoot fs dir then Some (Some dir)
    else Utils.findCargoRoot_loop fuel fs (Path.dirname dir).
Proof.
  intros Hne. cbn [Utils.findCargoRoot_loop]. rewrite decide_False by exact Hne.
  unfold Utils.isCargoRoot, existsSync, readFileSync.
  destruct (fs !! Path.join dir Utils.CARGO_TOML) as [content|] eqn:E.
  - rewrite bool_decide_eq_true_2 by eauto. reflexivity.
  - rewrite bool_decide_eq_false_2; [reflexivity|]. intros [x Hx]. discriminate.
Qed.

Lemma findCargoRoot_loop_absolute fs : forall fuel rest,
  length rest < fuel ->
  exists k r,
    Utils.findCargoRoot_loop fuel fs (Path.SLASH :: rest) = Some r /\
    (forall j, j < k ->
       Nat.iter j Path.dirname (Path.SLASH :: rest) <> js "/" /\
       Utils.isCargoRoot fs (Nat.iter j Path.dirname (Path.SLASH :: rest)) = false) /\
    ((r = Some (Nat.iter k Path.dirname (Path.SLASH :: rest)) /\
      Nat.iter k Path.dirname (Path.SLASH :: rest) <> js "/" /\
      Utils.isCargoRoot fs (Nat.iter k Path.dirname (Path.SLASH :: rest)) = true /\
      Nat.iter k Path.dirname (Path.SLASH :: rest) `prefix_of` (Path.SLASH :: rest)) \/
     (r = None /\ Nat.iter k Path.dirname (Path.SLASH :: rest) = js "/")).
Proof.
  induction fuel as [|fuel IH]; intros rest Hlen; [lia|].
  destruct rest as [|c rest'].
  - exists 0, None. split; [reflexivity|]. split; [intros j Hj; lia|]. right. auto.
  - set (dir := Path.SLASH :: c :: rest').
    assert (dir <> js "/") as Hne by discriminate.
    rewrite (findCargoRoot_loop_step _ _ _ Hne).
    destruct (Utils.isCargoRoot fs dir) eqn:Hroot.
    + exists 0, (Some dir). split; [reflexivity|]. split; [intros j Hj; lia|].
      left. cbn [Nat.iter]. auto.
    + destruct (dirname_absolute (c :: rest')) as (rest1 & Ed & Hshort & Hpre); [discriminate|].
      fold dir in Ed, Hpre. rewrite Ed.
      destruct (IH rest1) as (k & r & Hrun & Hbefore & Hlast); [cbn in *; lia|].
      exists (S k), r. rewrite !Nat.iter_succ_r, Ed. split; [exact Hrun|]. split.
      * intros [|j] Hj; [cbn; auto|]. rewrite Nat.iter_succ_r, Ed. apply Hbefore. lia.
      * destruct Hlast as [(-> & Hn & Hr & Hp)|Hnull]; [left | right; exact Hnull].
        repeat split; try assumption. etransitivity; eassumption.
Qed.

(** X8.  For an absolute file path [findCargoRoot] returns, within as
    many turns as the path is long.  The directories it tries are the
    directory of the file and those above it, from the nearest on and
    [/] excluded; it returns the first that has a [Cargo.toml] with a
    [workspace] section or with no [Cargo.toml] in the directory above,
    which is a prefix of the file path, and [null] if it reaches [/]. *)
Theorem findCargoRoot_absolute_returns
    (fs : gmap jsstring jsstring) (rest : jsstring) :
  let filePath := Path.SLASH :: rest in
  let dir := fun j => Nat.iter j Path.dirname (Path.dirname filePath) in
  exists k r,
    Utils.findCargoRoot (S (length filePath)) fs filePath = Some r /\
    (forall j, j < k -> dir j <> js "/" /\ Utils.isCargoRoot fs (dir j) = false) /\
    ((r = Some (dir k) /\ dir k <> js "/" /\ Utils.isCargoRoot fs (dir k) = true /\
      dir k `prefix_of` filePath) \/
     (r = None /\ dir k = js "/")).
Proof.
  intros filePath dir. unfold Utils.findCargoRoot, dir.
  destruct rest as [|c rest'].
  - exists 0, None. split; [reflexivity|]. split; [intros j Hj; lia|]. right. auto.
  - destruct (dirname_absolute (c :: rest')) as (rest1 & Ed & Hshort & Hpre); [discriminate|].
    fold filePath in Ed, Hpre. rewrite Ed.
    destruct (findCargoRoot_loop_absolute fs (S (length filePath)) rest1)
      as (k & r & Hrun & Hbefore & Hlast); [unfold filePath; cbn in *; lia|].
    exists k, r. split; [exact Hrun|]. split; [exact Hbefore|].
    destruct Hlast as [(-> & Hn & Hr & Hp)|Hnull]; [left | right; exact Hnull].
    repeat split; try assumption. etransitivity; eassumption.
Qed.

(** X9.  For a bare file name [findCargoRoot] looks at [.] again and
    again: unless [Cargo.toml] in the working directory has a
    [workspace] section it never returns. *)
Theorem findCargoRoot_bare_name_never_returns
    (fs : gmap jsstring jsstring) (filePath : jsstring) (fuel : nat) :
  Forall (fun c => c <> Path.SLASH) filePath ->
  (forall content, fs !! js "Cargo.toml" = Some content ->
                   Utils.includes (js "[workspace]") content = false) ->
  Utils.findCargoRoot fuel fs filePath = None.
Proof.
  intros Hbare Hno. unfold Utils.findCargoRoot. rewrite (dirname_bare _ Hbare).
  induction fuel as [|fuel IH]; [reflexivity|].
  rewrite findCargoRoot_loop_step by discriminate.
  replace (Utils.isCargoRoot fs (js ".")) with false; [exact IH|].
  unfold Utils.isCargoRoot, readFileSync, existsSync.
  change (Path.join (js ".") Utils.CARGO_TOML) with (js "Cargo.toml").
  change (Path.join (Path.dirname (js ".")) Utils.CARGO_TOML) with (js "Cargo.toml").
  destruct (fs !! js "Cargo.toml") as [content|] eqn:E; [|reflexivity].
  rewrite (Hno content eq_refl), bool_decide_eq_true_2 by eauto. reflexivity.
Qed.

Lemma findCargoRoot_bare_name_never_returns_witness :
  Utils.findCargoRoot 1000 ∅ (js "main.rs") = None.
Proof.
  apply (findCargoRoot_bare_name_never_returns ∅ (js "main.rs") 1000).
  - repeat (apply Forall_cons; split; [discriminate|]). apply Forall_nil_2.
  - intros content Hc. discriminate.
Defined.

(** ** The hook: what is printed and how it exits *)

Lemma count_LF_digits ds : forallb isDigit ds = true -> count_occ N.eq_dec ds LF = 0.
Proof.
  induction ds as [|d ds IH]; [reflexivity|]. cbn [forallb count_occ].
  intros Hd. apply andb_true_iff in Hd as [Hd Hds].
  destruct (N.eq_dec d LF) as [->|_]; [discriminate | exact (IH Hds)].
Qed.

Lemma count_LF_Z_toString z : count_occ N.eq_dec (Z_toString z) LF = 0.
Proof.
  destruct z as [|p|p]; cbn [Z_toString].
  - apply count_LF_digits, (N_toString_spec 0).
  - apply count_LF_digits, (N_toString_spec (N.pos p)).
  - rewrite count_occ_app, (count_LF_digits (N_toString _))
      by apply (N_toString_spec (N.pos p)).
    reflexivity.
Qed.

Lemma count_LF_severityWord d : count_occ N.eq_dec (Utils.severityWord d) LF = 0.
Proof.
  unfold Utils.severityWord.
  destruct (Utils.severity d) as [[|[[]|[]|]|]|]; reflexivity.
Qed.

Lemma count_LF_formatLine d :
  count_occ N.eq_dec (Utils.formatLine d) LF = count_occ N.eq_dec (Utils.message d) LF.
Proof.
  unfold Utils.formatLine.
  rewrite !count_occ_app, !count_LF_Z_toString, count_LF_severityWord. reflexivity.
Qed.

Lemma formatLine_not_empty d : Utils.formatLine d <> [].
Proof.
  unfold Utils.formatLine. intros E. apply (f_equal (@length N)) in E.
  rewrite !length_app in E. cbn in E. lia.
Qed.

Lemma formatDiagnostics_not_empty d ds : Utils.formatDiagnostics (d :: ds) <> [].
Proof.
  unfold Utils.formatDiagnostics. cbn [fmap list_fmap Path.joinWith].
  pose proof (formatLine_not_empty d) as Hd.
  destruct ds as [|d' ds']; [exact Hd|]. cbn.
  intros E. apply app_eq_nil in E as [E _]. contradiction.
Qed.

(** X10.  [formatDiagnostics] writes one line for each diagnostic: if no
    message holds a line feed, the text has one line feed less than
    there are diagnostics, and none for an empty list. *)
Theorem formatDiagnostics_one_line_each (diagnostics : list Utils.Diagnostic) :
  Forall (fun d => count_occ N.eq_dec (Utils.message d) LF = 0) diagnostics ->
  count_occ N.eq_dec (Utils.formatDiagnostics diagnostics) LF = length diagnostics - 1.
Proof.
  unfold Utils.formatDiagnostics.
  induction 1 as [|d ds Hd Hds IH]; [reflexivity|].
  destruct ds as [|d' ds'].
  - cbn. rewrite count_LF_formatLine. exact Hd.
  - change (count_occ N.eq_dec
              (Utils.formatLine d ++ [LF]
                 ++ Path.joinWith [LF] (Utils.formatLine <$> d' :: ds')) LF
            = S (length ds')).
    rewrite !count_occ_app, count_LF_formatLine, Hd, IH. cbn. lia.
Qed.

Lemma formatDiagnostics_one_line_each_witness :
  count_occ N.eq_dec
    (Utils.formatDiagnostics [demoDiag (Some 1%Z) 2 4 (js "mismatched types");
                              demoDiag None 7 0 (js "unused")]) LF = 1.
Proof.
  apply (formatDiagnostics_one_line_each
           [demoDiag (Some 1%Z) 2 4 (js "mismatched types"); demoDiag None 7 0 (js "unused")]).
  repeat (apply Forall_cons; split; [reflexivity|]). apply Forall_nil_2.
Defined.

Lemma filter_nil_iff {A} (f : A -> bool) (l : list A) :
  List.filter f l = [] <-> forall x, In x l -> f x = false.
Proof.
  induction l as [|a l IH]; cbn; [tauto|]. destruct (f a) eqn:E; split.
  - discriminate.
  - intros Hall. specialize (Hall a (or_introl eq_refl)). congruence.
  - intros Hf x [<-|Hx]; [exact E | apply IH; assumption].
  - intros Hall. apply IH. intros x Hx. apply Hall. auto.
Qed.

(** X11.  With the diagnostics in hand the hook exits with 2 exactly when
    one of them has severity 1, and then prints the errors and nothing
    else; without an error it runs to its end, printing the warnings
    if there are any and nothing if there are none, so that a
    diagnostic of another severity, or of none, is never shown. *)
Theorem report_blocks_on_errors_only (diagnostics : list Utils.Diagnostic) :
  ((Hook.report diagnostics).2 = Hook.Exit 2 <->
   exists d, In d diagnostics /\ Utils.severity d = Some 1%Z) /\
  ((Hook.report diagnostics).2 = Hook.Exit 2 ->
   (Hook.report diagnostics).1
   = [Utils.formatDiagnostics (List.filter (Hook.hasSeverity 1) diagnostics)]) /\
  ((Hook.report diagnostics).2 <> Hook.Exit 2 ->
   (Hook.report diagnostics).2 = Hook.Returns /\
   ((exists d, In d diagnostics /\ Utils.severity d = Some 2%Z) ->
    (Hook.report diagnostics).1
    = [js "[warnings]" ++ [LF]
         ++ Utils.formatDiagnostics (List.filter (Hook.hasSeverity 2) diagnostics)]) /\
   ((forall d, In d diagnostics -> Utils.severity d <> Some 2%Z) ->
    (Hook.report diagnostics).1 = [])).
Proof.
  assert (forall n d, Hook.hasSeverity n d = true <-> Utils.severity d = Some n) as Hsev.
  { intros n d. unfold Hook.hasSeverity. destruct (Utils.severity d) as [m|].
    - rewrite Z.eqb_eq. split; congruence.
    - split; discriminate. }
  unfold Hook.report.
  destruct (List.filter (Hook.hasSeverity 1) diagnostics) as [|e errors] eqn:Ee.
  - assert (forall d, In d diagnostics -> Utils.severity d <> Some 1%Z) as Hnone.
    { intros d Hd Hs. apply Hsev in Hs.
      rewrite (proj1 (filter_nil_iff _ _) Ee d Hd) in Hs. discriminate. }
    destruct (List.filter (Hook.hasSeverity 2) diagnostics) as [|x warnings] eqn:Ew;
      cbn [fst snd].
    + split; [split; [discriminate | intros (d & Hd & Hs); exfalso; eapply Hnone; eauto]|].
      split; [discriminate|]. intros _. split; [reflexivity|].
      split; [|reflexivity]. intros (d & Hd & Hs). apply Hsev in Hs.
      rewrite (proj1 (filter_nil_iff _ _) Ew d Hd) in Hs. discriminate.
    + split; [split; [discriminate | intros (d & Hd & Hs); exfalso; eapply Hnone; eauto]|].
      split; [discriminate|]. intros _. split; [reflexivity|].
      split; [reflexivity|]. intros Hno. exfalso.
      assert (In x (List.filter (Hook.hasSeverity 2) diagnostics)) as Hx
        by (rewrite Ew; left; reflexivity).
      apply filter_In in Hx as [Hx Hs]. apply Hsev in Hs. eapply Hno; eauto.
  - cbn [fst snd]. split; [split; [intros _|reflexivity]|].
    + assert (In e (List.filter (Hook.hasSeverity 1) diagnostics)) as He
        by (rewrite Ee; left; reflexivity).
      apply filter_In in He as [He Hs]. apply Hsev in Hs. eauto.
    + split; [reflexivity|]. intros Hne. congruence.
Qed.

Section HookFacts.
Context `{JSONRuntime}.

Lemma fallback_exit w filePath code :
  (Hook.fallbackSyntaxCheck w filePath).2 = Some code ->
  code = 2%Z /\
  exists text, (Hook.fallbackSyntaxCheck w filePath).1 = [text] /\ text <> [].
Proof.
  unfold Hook.fallbackSyntaxCheck.
  destruct (Hook.rustfmt w filePath) as [[stderr exitCode]|]; [|discriminate].
  destruct (negb (exitCode =? 0)%Z); [|discriminate].
  destruct stderr as [|c stderr]; [discriminate|]. cbn.
  intros [= <-]. split; [reflexivity|]. eexists. split; [reflexivity | discriminate].
Qed.
End HookFacts.

(** X12.  The hook never exits with 2 in silence: whatever the input,
    the files and the outside, an exit with 2 comes after a text
    that is not empty, the errors of the daemon or the complaint of
    [rustfmt], as the last thing printed. *)
Theorem main_exit_2_is_explained `{JSONRuntime}
    (fuel : nat) (fs : gmap jsstring jsstring) (w : Hook.world) (input : jsstring) :
  (Hook.main fuel fs w input).2 = Hook.Exit 2 ->
  exists text, last (Hook.main fuel fs w input).1 = Some text /\ text <> [].
Proof.
  unfold Hook.main. destruct input as [|c input]; [discriminate|].
  destruct (JSON_parse (c :: input)) as [data|]; [|discriminate].
  destruct (Hook.filePathOf data) as [[[| | |filePath| |]|]|]; try discriminate.
  destruct (negb (Hook.endsWith (js ".rs") filePath)); [discriminate|].
  destruct (Utils.findCargoRoot fuel fs filePath) as [[[|r0 root]|]|]; try discriminate.
  - cbn [fst snd].
    destruct ((Hook.fallbackSyntaxCheck w filePath).2) as [code|] eqn:Ef; [|discriminate].
    destruct (fallback_exit _ _ _ Ef) as (_ & text & Et & Hne). rewrite Et.
    intros _. exists text. auto.
  - destruct (Hook.daemon w (r0 :: root) filePath) as [diagnostics|message].
    + unfold Hook.report.
      destruct (List.filter (Hook.hasSeverity 1) diagnostics) as [|e errors].
      * destruct (List.filter (Hook.hasSeverity 2) diagnostics); discriminate.
      * intros _. eexists. split; [reflexivity|]. apply formatDiagnostics_not_empty.
    + cbn [fst snd].
      destruct ((Hook.fallbackSyntaxCheck w filePath).2) as [code|] eqn:Ef; [|discriminate].
      destruct (fallback_exit _ _ _ Ef) as (_ & text & Et & Hne). rewrite Et.
      intros _. exists text. auto.
  - cbn [fst snd].
    destruct ((Hook.fallbackSyntaxCheck w filePath).2) as [code|] eqn:Ef; [|discriminate].
    destruct (fallback_exit _ _ _ Ef) as (_ & text & Et & Hne). rewrite Et.
    intros _. exists text. auto.
Qed.

Lemma main_exit_2_is_explained_witness :
  exists text,
    last (Hook.main 20 demoTree demoWorld
            (JSON_stringify (demoHookInput (js "/w/src/a.rs")))).1 = Some text /\
    text <> [].
Proof.
  apply (main_exit_2_is_explained 20 demoTree demoWorld
           (JSON_stringify (demoHookInput (js "/w/src/a.rs")))).
  vm_compute. reflexivity.
Defined.

(** ** The state store and the names it uses *)

(** X14.  Looking a project up twice gives what looking it up once
    gives: the second lookup has the answer of the first and changes
    nothing, also after a stale record was removed. *)
Theorem getDaemonState_twice `{JSONRuntime} (w : os) (projectPath : jsstring) :
  getDaemonState (getDaemonState w projectPath).2 projectPath
  = getDaemonState w projectPath.
Proof.
  unfold getDaemonState at 2 3, existsSync, readFileSync, unlinkSync, isProcessRunning.
  destruct (files w !! getStatePath projectPath) as [text|] eqn:Hf.
  - rewrite bool_decide_eq_true_2 by eauto. cbn [negb].
    destruct (JSON_parse text) as [state|] eqn:Hp.
    + destruct (getProp state (js "pid")) as [pid|] eqn:Hpid.
      * destruct (kill0 w pid) eqn:Hk.
        -- cbn [snd]. unfold getDaemonState, existsSync, readFileSync, isProcessRunning.
           rewrite Hf, bool_decide_eq_true_2 by eauto. cbn [negb].
           rewrite Hp, Hpid, Hk. reflexivity.
        -- cbn [snd]. unfold getDaemonState, existsSync. cbn [files].
           rewrite lookup_delete_eq, bool_decide_eq_false_2; [reflexivity|].
           intros [x Hx]. discriminate.
      * cbn [snd]. unfold getDaemonState, existsSync, readFileSync.
        rewrite Hf, bool_decide_eq_true_2 by eauto. cbn [negb].
        rewrite Hp, Hpid. reflexivity.
    + cbn [snd]. unfold getDaemonState, existsSync, readFileSync.
      rewrite Hf, bool_decide_eq_true_2 by eauto. cbn [negb]. rewrite Hp. reflexivity.
  - rewrite bool_decide_eq_false_2 by (intros [x Hx]; discriminate). cbn [negb snd].
    unfold getDaemonState, existsSync.
    rewrite Hf, bool_decide_eq_false_2 by (intros [x Hx]; discriminate). reflexivity.
Qed.

(** X15.  A lookup touches the record of its project and nothing else:
    the processes and every other file are as before, and the record
    is as before or gone.  An answer that is not [null] is what the
    record on disk parses to, with a [pid] the system accepts, and
    then nothing at all was changed. *)
Theorem getDaemonState_touches_its_record_only `{JSONRuntime}
    (w : os) (projectPath : jsstring) :
  let r := getDaemonState w projectPath in
  kill0 r.2 = kill0 w /\
  (forall path, path <> getStatePath projectPath ->
                files r.2 !! path = files w !! path) /\
  (files r.2 !! getStatePath projectPath = None \/
   files r.2 !! getStatePath projectPath = files w !! getStatePath projectPath) /\
  (forall state, r.1 = Some state ->
     r.2 = w /\
     exists text pid,
       files w !! getStatePath projectPath = Some text /\
       JSON_parse text = Some state /\
       getProp state (js "pid") = Some pid /\
       kill0 w pid = true).
Proof.
  cbv zeta.
  unfold getDaemonState, existsSync, readFileSync, unlinkSync, isProcessRunning.
  destruct (files w !! getStatePath projectPath) as [text|] eqn:Hf.
  - rewrite bool_decide_eq_true_2 by eauto. cbn [negb].
    destruct (JSON_parse text) as [state|] eqn:Hp;
      [destruct (getProp state (js "pid")) as [pid|] eqn:Hpid;
       [destruct (kill0 w pid) eqn:Hk|]|];
      cbn [fst snd files kill0];
      (split; [reflexivity|]);
      (split; [intros path Hne; rewrite ?lookup_delete_ne by congruence; reflexivity|]);
      (split; [rewrite ?lookup_delete_eq; auto|]);
      intros state' [=]; subst.
    split; [reflexivity|]. eauto 10.
  - rewrite bool_decide_eq_false_2 by (intros [x Hx]; discriminate).
    cbn [negb fst snd]. repeat split; auto. discriminate.
Qed.


Lemma hexChar_range d :
  (d < 16)%N ->
  (48 <= hexChar d <= 57)%N \/ (97 <= hexChar d <= 102)%N.
Proof.
  intros Hd. unfold hexChar. destruct (N.ltb_spec d 10); lia.
Qed.

Lemma hex8_spec w :
  exists a b c d e f g h,
    SHA256.hex8 w = [hexChar a; hexChar b; hexChar c; hexChar d;
                     hexChar e; hexChar f; hexChar g; hexChar h] /\
    (a < 16 /\ b < 16 /\ c < 16 /\ d < 16 /\ e < 16 /\ f < 16 /\ g < 16 /\ h < 16)%N.
Proof.
  unfold SHA256.hex8. cbn [seq fmap list_fmap].
  do 8 eexists. split; [reflexivity|].
  repeat split; apply N.mod_lt; discriminate.
Qed.

(** X16.  The two hashes of a project agree: the eight digits in the
    name of the state file are the first eight of the twelve in the
    names of the socket and the pid file, and all of them are
    hexadecimal digits in lower case. *)
Theorem hashPath_starts_hashProjectPath (projectPath : jsstring) :
  hashPath projectPath = take 8 (Utils.hashProjectPath projectPath) /\
  length (hashPath projectPath) = 8 /\
  length (Utils.hashProjectPath projectPath) = 12 /\
  Forall (fun c => (48 <= c <= 57)%N \/ (97 <= c <= 102)%N)
         (Utils.hashProjectPath projectPath).
Proof.
  unfold hashPath, Utils.hashProjectPath, SHA256.hexdigest.
  generalize (SHA256.hash (utf8_encode projectPath)). intros h.
  destruct (hex8_spec (SHA256.wa h)) as (a1 & a2 & a3 & a4 & a5 & a6 & a7 & a8 & -> & Ha).
  destruct (hex8_spec (SHA256.wb h)) as (b1 & b2 & b3 & b4 & b5 & b6 & b7 & b8 & -> & Hb).
  unfold slice. cbn [drop Nat.sub app take length].
  split; [reflexivity|]. split; [reflexivity|]. split; [reflexivity|].
  repeat (apply Forall_cons; split; [apply hexChar_range; lia|]). apply Forall_nil_2.
Qed.

Lemma hashPath_chars projectPath :
  exists l, hashPath projectPath = l /\ length l = 8 /\
            Forall (fun c => (48 <= c <= 57)%N \/ (97 <= c <= 102)%N) l.
Proof.
  unfold hashPath, SHA256.hexdigest.
  generalize (SHA256.hash (utf8_encode projectPath)). intros h.
  destruct (hex8_spec (SHA256.wa h)) as (a1 & a2 & a3 & a4 & a5 & a6 & a7 & a8 & -> & Ha).
  unfold slice. cbn [drop Nat.sub app take].
  eexists. split; [reflexivity|]. split; [reflexivity|].
  repeat (apply Forall_cons; split; [apply hexChar_range; lia|]). apply Forall_nil_2.
Qed.

Lemma segments_no_slash s : forall cur t,
  Forall (fun c => c <> Path.SLASH) s ->
  Path.segments cur (s ++ t) = Path.segments (cur ++ s) t.
Proof.
  induction s as [|c s IH]; intros cur t Hs; [rewrite app_nil_r; reflexivity|].
  apply Forall_cons in Hs as [Hc Hs]. cbn [app Path.segments].
  destruct (N.eqb_spec c Path.SLASH); [congruence|].
  rewrite IH by exact Hs. rewrite <- app_assoc. reflexivity.
Qed.

Lemma dropSegment_app s t :
  Forall (fun c => c <> Path.SLASH) s ->
  Path.dropSegment (s ++ Path.SLASH :: t) = Path.SLASH :: t.
Proof.
  induction 1 as [|c s Hc _ IH]; [reflexivity|]. cbn [app Path.dropSegment].
  destruct (N.eqb_spec c Path.SLASH); [congruence | exact IH].
Qed.

Lemma hex_no_slash l :
  Forall (fun c => (48 <= c <= 57)%N \/ (97 <= c <= 102)%N) l ->
  Forall (fun c => c <> Path.SLASH) l.
Proof.
  intros Hl. eapply Forall_impl; [exact Hl|]. unfold Path.SLASH. intros c Hc. lia.
Qed.

Lemma pushSegment_plain allowAboveRoot stack c seg :
  c <> Path.DOT -> Path.pushSegment allowAboveRoot stack (c :: seg) = (c :: seg) :: stack.
Proof.
  intros Hc. unfold Path.pushSegment.
  rewrite decide_False by (intros [?|?]; congruence).
  rewrite decide_False by congruence. reflexivity.
Qed.

Lemma last_no_slash pre name :
  name <> [] -> Forall (fun c => c <> Path.SLASH) name ->
  match rev (pre ++ name) with c :: _ => (c =? Path.SLASH)%N | [] => false end = false.
Proof.
  intros Hne Hn. rewrite rev_app_distr. apply Forall_rev in Hn.
  destruct (rev name) as [|c r] eqn:E.
  - apply (f_equal (@rev N)) in E. rewrite rev_involutive in E. contradiction.
  - apply Forall_cons in Hn as [Hc _]. cbn [app].
    destruct (N.eqb_spec c Path.SLASH); [congruence | reflexivity].
Qed.

(** A name without a slash, joined to the state directory. *)
Lemma join_STATE_DIR c name :
  c <> Path.DOT -> Forall (fun x => x <> Path.SLASH) (c :: name) ->
  Path.join STATE_DIR (c :: name) = STATE_DIR ++ js "/" ++ c :: name.
Proof.
  intros Hdot Hn. unfold Path.join.
  change (match STATE_DIR with
          | [] => Path.normalize (c :: name)
          | _ :: _ => Path.normalize (STATE_DIR ++ [Path.SLASH] ++ c :: name)
          end) with (Path.normalize (STATE_DIR ++ [Path.SLASH] ++ c :: name)).
  unfold Path.normalize.
  change (STATE_DIR ++ [Path.SLASH] ++ c :: name)
    with (Path.SLASH :: (js "tmp/claude-lsp/" ++ c :: name)).
  cbv beta iota zeta. rewrite N.eqb_refl. cbn [negb].
  pose proof (last_no_slash (Path.SLASH :: js "tmp/claude-lsp/") (c :: name)
                ltac:(discriminate) Hn) as Hlast.
  change ((Path.SLASH :: js "tmp/claude-lsp/") ++ c :: name)
    with (Path.SLASH :: js "tmp/claude-lsp/" ++ c :: name) in Hlast.
  rewrite Hlast. clear Hlast.
  unfold Path.normalizeString.
  assert (Path.segments [] (Path.SLASH :: js "tmp/claude-lsp/" ++ c :: name)
          = [[]; js "tmp"; js "claude-lsp"; c :: name]) as ->.
  { change (Path.SLASH :: js "tmp/claude-lsp/" ++ c :: name)
      with (Path.SLASH :: js "tmp" ++ Path.SLASH :: js "claude-lsp"
              ++ Path.SLASH :: c :: name).
    cbn [Path.segments]. rewrite N.eqb_refl. f_equal.
    rewrite (segments_no_slash (js "tmp"))
      by (repeat (apply Forall_cons; split; [discriminate|]); apply Forall_nil_2).
    cbn [Path.segments app]. rewrite N.eqb_refl. f_equal.
    rewrite (segments_no_slash (js "claude-lsp"))
      by (repeat (apply Forall_cons; split; [discriminate|]); apply Forall_nil_2).
    cbn [Path.segments app]. rewrite N.eqb_refl. f_equal.
    apply Forall_cons in Hn as [Hc Hname].
    destruct (N.eqb_spec c Path.SLASH); [congruence|].
    rewrite <- (app_nil_r name) at 1.
    rewrite (segments_no_slash name) by exact Hname. reflexivity. }
  cbn [fold_left].
  rewrite (pushSegment_plain _ _ c name Hdot).
  reflexivity.
Qed.

(** The directory of a name without a slash, one level below an
    absolute directory. *)
Lemma dirname_child d name :
  d <> [] -> name <> [] -> Forall (fun x => x <> Path.SLASH) name ->
  Path.dirname (Path.SLASH :: d ++ Path.SLASH :: name) = Path.SLASH :: d.
Proof.
  intros Hd Hne Hn. unfold Path.dirname. rewrite N.eqb_refl.
  rewrite rev_app_distr. cbn [rev]. rewrite <- app_assoc. cbn [app].
  apply Forall_rev in Hn.
  destruct (rev name) as [|c r] eqn:E.
  { apply (f_equal (@rev N)) in E. rewrite rev_involutive in E. contradiction. }
  pose proof Hn as Hn'. apply Forall_cons in Hn' as [Hc _].
  assert (Path.dropSlashes ((c :: r) ++ Path.SLASH :: rev d)
          = (c :: r) ++ Path.SLASH :: rev d) as ->.
  { cbn. destruct (N.eqb_spec c Path.SLASH); [congruence | reflexivity]. }
  rewrite (dropSegment_app _ _ Hn).
  destruct (rev d) as [|x before] eqn:Ed.
  { apply (f_equal (@rev N)) in Ed. rewrite rev_involutive in Ed. contradiction. }
  cbn [length Nat.eqb andb]. rewrite <- Ed, rev_involutive. reflexivity.
Qed.

Lemma stateName_no_slash projectPath :
  Forall (fun x => x <> Path.SLASH) (js "ra-" ++ hashPath projectPath ++ js ".json").
Proof.
  destruct (hashPath_chars projectPath) as (l & -> & Hlen & Hhex).
  pose proof (hex_no_slash l Hhex) as Hl.
  apply Forall_app. split; [|apply Forall_app; split; [exact Hl|]];
    repeat (apply Forall_cons; split; [discriminate|]); apply Forall_nil_2.
Qed.

Lemma dirname_getStatePath projectPath :
  Path.dirname (getStatePath projectPath) = STATE_DIR.
Proof.
  apply (dirname_child (js "tmp/claude-lsp") (js "ra-" ++ hashPath projectPath ++ js ".json"));
    [discriminate | discriminate | apply stateName_no_slash].
Qed.

(** X17.  The state file of a project lies in the state directory, one
    level down: [join] finds nothing to normalize in its name, which is
    the directory, a slash, [ra-], the hash and [.json], and [dirname]
    leads from it back to the state directory. *)
Theorem getStatePath_in_STATE_DIR (projectPath : jsstring) :
  Path.join STATE_DIR (js "ra-" ++ hashPath projectPath ++ js ".json")
  = getStatePath projectPath /\
  Path.dirname (getStatePath projectPath) = STATE_DIR.
Proof.
  split; [|apply dirname_getStatePath].
  apply (join_STATE_DIR 114 (js "a-" ++ hashPath projectPath ++ js ".json"));
    [discriminate | apply stateName_no_slash].
Qed.

Lemma no_colon_digits ds : forallb isDigit ds = true -> Forall (fun c => c <> 58%N) ds.
Proof.
  intros Hd. apply Forall_forall. intros c Hc Ec. subst c.
  rewrite forallb_forall in Hd. specialize (Hd 58%N (proj1 (list_elem_of_In _ _) Hc)).
  discriminate.
Qed.

Lemma no_colon_Z_toString z : Forall (fun c => c <> 58%N) (Z_toString z).
Proof.
  destruct z as [|p|p]; cbn [Z_toString].
  - apply no_colon_digits, (N_toString_spec 0).
  - apply no_colon_digits, (N_toString_spec (N.pos p)).
  - apply Forall_cons. split; [discriminate|].
    apply no_colon_digits, (N_toString_spec (N.pos p)).
Qed.

Lemma N_toString_inj n m : N_toString n = N_toString m -> n = m.
Proof.
  intros E. rewrite <- (parseInt10_N_toString n), <- (parseInt10_N_toString m), E.
  reflexivity.
Qed.

Lemma N_toString_head n : exists d ds, N_toString n = d :: ds /\ isDigit d = true.
Proof.
  destruct (N_toString_spec n) as (Hne & Hd & _).
  destruct (N_toString n) as [|d ds]; [congruence|].
  cbn in Hd. apply andb_true_iff in Hd as [Hd _]. eauto.
Qed.

Lemma Z_toString_inj n m : Z_toString n = Z_toString m -> n = m.
Proof.
  assert (forall p q, Z_toString (Z.neg p) <> N_toString q) as Hsign.
  { intros p q E. destruct (N_toString_head q) as (d & ds & Eq & Hd).
    rewrite Eq in E. cbn in E. injection E as <- _. discriminate. }
  destruct n as [|p|p], m as [|q|q]; intros E; try reflexivity;
    try (exfalso; apply (Hsign _ _ E));
    try (exfalso; symmetry in E; apply (Hsign _ _ E));
    cbn [Z_toString Z.to_N] in E.
  - apply N_toString_inj in E. discriminate.
  - apply N_toString_inj in E. discriminate.
  - apply N_toString_inj in E. congruence.
  - apply app_inv_head, N_toString_inj in E. congruence.
Qed.

Lemma split_at_last {A} (x : A) : forall p1 p2 s1 s2,
  Forall (fun c => c <> x) s1 -> Forall (fun c => c <> x) s2 ->
  p1 ++ x :: s1 = p2 ++ x :: s2 -> p1 = p2 /\ s1 = s2.
Proof.
  induction p1 as [|a p1 IH]; intros [|b p2] s1 s2 H1 H2 E; cbn in E.
  - injection E as E. auto.
  - injection E as <- E. subst s1. apply Forall_app in H1 as [_ H1].
    apply Forall_cons in H1 as [H1 _]. congruence.
  - injection E as -> E. subst s2. apply Forall_app in H2 as [_ H2].
    apply Forall_cons in H2 as [H2 _]. congruence.
  - injection E as -> E. destruct (IH p2 s1 s2 H1 H2 E) as [-> ->]. auto.
Qed.

(** X18.  The cache of clients never takes one connection for another:
    two keys are the same only for the same project and the same port,
    whatever colons the paths hold. *)
Theorem cacheKey_injective (projectPath1 projectPath2 : jsstring) (port1 port2 : Z) :
  cacheKey projectPath1 port1 = cacheKey projectPath2 port2 <->
  projectPath1 = projectPath2 /\ port1 = port2.
Proof.
  split; [|intros [-> ->]; reflexivity].
  unfold cacheKey. intros E.
  apply (split_at_last 58%N) in E as [E1 E2]; try apply no_colon_Z_toString.
  split; [exact E1 | apply Z_toString_inj, E2].
Qed.

(** ** Finding and starting rust-analyzer *)

Lemma trimStart_head s c t : trimStart s = c :: t -> isWhiteSpace c = false.
Proof.
  induction s as [|x s IH]; [discriminate|]. cbn [trimStart].
  destruct (isWhiteSpace x) eqn:Hx; [exact IH|]. intros [= <- _]. exact Hx.
Qed.

Lemma trimStart_suffix s : exists pre, s = pre ++ trimStart s.
Proof.
  induction s as [|x s [pre IH]]; [exists []; reflexivity|]. cbn [trimStart].
  destruct (isWhiteSpace x).
  - exists (x :: pre). cbn. f_equal. exact IH.
  - exists []. reflexivity.
Qed.

(** What [trim] leaves has no white space at either end. *)
Lemma trim_ends s c t :
  trim s = c :: t ->
  isWhiteSpace c = false /\
  exists front z, trim s = front ++ [z] /\ isWhiteSpace z = false.
Proof.
  unfold trim. intros E.
  destruct (trimStart (rev (trimStart s))) as [|z u] eqn:Eu; [discriminate|].
  pose proof (trimStart_head _ _ _ Eu) as Hz.
  split; [|exists (rev u), z; split; [reflexivity | exact Hz]].
  destruct (trimStart_suffix (rev (trimStart s))) as [pre Hpre]. rewrite Eu in Hpre.
  apply (f_equal (@rev N)) in Hpre. rewrite rev_involutive, rev_app_distr, E in Hpre.
  cbn [app] in Hpre. exact (trimStart_head _ _ _ Hpre).
Qed.

Lemma trimmedOutput_ends proc out :
  trimmedOutput proc = Some out ->
  (exists c t, out = c :: t /\ isWhiteSpace c = false) /\
  (exists front z, out = front ++ [z] /\ isWhiteSpace z = false).
Proof.
  unfold trimmedOutput. destruct proc as [p|]; [|discriminate].
  destruct (exited p =? 0)%Z; [|discriminate].
  destruct (trim (output p)) as [|c t] eqn:E; [discriminate|]. intros [= <-].
  destruct (trim_ends _ _ _ E) as (Hc & front & z & Ez & Hz). rewrite E in Ez.
  split; eauto.
Qed.

(** X19.  A path that [findRustAnalyzer] returns is not empty and has
    no white space at either end, so that the test for a missing path
    in [spawnDaemon] is a test for [null]; and where [nix build] gave a
    path, the answer is built from it, whatever [which] says. *)
Theorem findRustAnalyzer_gives_a_path (nix which : option child) (raPath : jsstring) :
  findRustAnalyzer nix which = Some raPath ->
  (exists c t, raPath = c :: t /\ isWhiteSpace c = false) /\
  (exists front z, raPath = front ++ [z] /\ isWhiteSpace z = false) /\
  (forall out, trimmedOutput nix = Some out -> raPath = out ++ js "/bin/rust-analyzer").
Proof.
  unfold findRustAnalyzer. destruct (trimmedOutput nix) as [out|] eqn:En.
  - intros [= <-]. destruct (trimmedOutput_ends _ _ En) as ((c & t & -> & Hc) & _).
    split; [exists c, (t ++ js "/bin/rust-analyzer"); auto|].
    split; [|intros out' [= <-]; reflexivity].
    exists ((c :: t) ++ js "/bin/rust-analyze"), 114%N. split; [|reflexivity].
    rewrite <- app_assoc. reflexivity.
  - intros Hw. destruct (trimmedOutput_ends _ _ Hw) as (Hhead & Hlast).
    split; [exact Hhead|]. split; [exact Hlast | discriminate].
Qed.

Lemma findRustAnalyzer_gives_a_path_witness :
  (exists c t, js "/usr/bin/rust-analyzer" = c :: t /\ isWhiteSpace c = false) /\
  (exists front z, js "/usr/bin/rust-analyzer" = front ++ [z] /\ isWhiteSpace z = false) /\
  (forall out, trimmedOutput (nixBuild demoOutside) = Some out ->
               js "/usr/bin/rust-analyzer" = out ++ js "/bin/rust-analyzer").
Proof.
  apply (findRustAnalyzer_gives_a_path (nixBuild demoOutside) (whichRustAnalyzer demoOutside)
           (js "/usr/bin/rust-analyzer")).
  vm_compute. reflexivity.
Defined.

Lemma findRustAnalyzer_not_empty nix which : findRustAnalyzer nix which <> Some [].
Proof.
  unfold findRustAnalyzer. destruct (trimmedOutput nix) as [out|] eqn:En.
  - destruct (trimmedOutput_ends _ _ En) as ((c & t & -> & _) & _). discriminate.
  - intros Hw. destruct (trimmedOutput_ends _ _ Hw) as ((c & t & [=] & _) & _).
Qed.

Lemma spawnDaemon_port_spec taken projectPath :
  exists r, spawnDaemon_port taken projectPath = Some (r, taken) /\
    match r with
    | Return port => (19200 <= port < 19400)%Z /\ (port ∉ taken)
    | ThrowError message => message = js "No free port found"
    end.
Proof.
  destruct (parseInt16_hashPath projectPath) as [h Hh].
  pose proof (Z.mod_pos_bound (Z.of_N h) 100 ltac:(lia)) as Hmod.
  destruct (findFreePort_loop_spec taken (BASE_PORT + Z.of_N h mod 100) 101
              (BASE_PORT + Z.of_N h mod 100)) as (r & Hr & Hprobed);
    unfold BASE_PORT in *; try lia.
  exists r. unfold spawnDaemon_port. rewrite Hh. split; [exact Hr|].
  destruct r as [port|message]; simpl in Hprobed.
  - split; [lia | tauto].
  - tauto.
Qed.

Lemma with_ports_same m : with_ports m (ports m) = m.
Proof. destruct m; reflexivity. Qed.

Lemma with_dirs_same m : with_dirs m (dirs m) = m.
Proof. destruct m; reflexivity. Qed.

(** Where [ensureStateDir] returns, the directories are those of
    [withStateDir] and nothing else has changed. *)
Lemma ensureStateDir_Return m m1 :
  ensureStateDir m = Return m1 -> m1 = with_dirs m (withStateDir m).
Proof.
  unfold ensureStateDir, withStateDir, mkdirSync.
  destruct (negb (existsPath m STATE_DIR)).
  - destruct (refused m STATE_DIR); [discriminate|]. intros [= <-]. reflexivity.
  - intros [= <-]. rewrite with_dirs_same. reflexivity.
Qed.

Section SpawnFacts.
Context `{JSONRuntime}.

(** The ways [spawnDaemon] can end. *)
Lemma spawnDaemon_cases o m projectPath :
  (exists message,
      ensureStateDir m = ThrowError message /\
      spawnDaemon o m projectPath = Some (ThrowError message, m)) \/
  (findRustAnalyzer (nixBuild o) (whichRustAnalyzer o) = None /\
   spawnDaemon o m projectPath
   = Some (ThrowError (js "rust-analyzer not found"), with_dirs m (withStateDir m))) \/
  (findRustAnalyzer (nixBuild o) (whichRustAnalyzer o) <> None /\
   (spawnDaemon o m projectPath
    = Some (ThrowError (js "No free port found"), with_dirs m (withStateDir m)) \/
    exists port,
      (19200 <= port < 19400)%Z /\ (port ∉ ports m) /\
      ((exists message,
          spawned o = ThrowError message /\
          spawnDaemon o m projectPath
          = Some (ThrowError message, with_dirs m (withStateDir m))) \/
       (exists pid,
          spawned o = Return pid /\
          let text := JSON_stringify (daemonState pid port projectPath (dateNow o)) in
          ((writeFileSync (unwritten m pid port) (getStatePath projectPath) text
            = Return (started o m projectPath pid port) /\
            spawnDaemon o m projectPath
            = Some (Return (daemonState pid port projectPath (dateNow o)),
                    started o m projectPath pid port)) \/
           (exists message,
               writeFileSync (unwritten m pid port) (getStatePath projectPath) text
               = ThrowError message /\
               spawnDaemon o m projectPath
               = Some (ThrowError message, unwritten m pid port))))))).
Proof.
  unfold spawnDaemon.
  destruct (ensureStateDir m) as [m1|message] eqn:Hdir; [|left; eauto].
  apply ensureStateDir_Return in Hdir. subst m1. right.
  destruct (findRustAnalyzer (nixBuild o) (whichRustAnalyzer o)) as [[|c raPath]|] eqn:Hra;
    [exfalso; exact (findRustAnalyzer_not_empty _ _ Hra) | | left; auto].
  right. split; [discriminate|]. cbn [with_dirs ports disk].
  destruct (spawnDaemon_port_spec (ports m) projectPath) as (r & Hr & Hspec).
  rewrite Hr. destruct r as [port|message].
  - right. exists port. destruct Hspec as [Hrange Hfree].
    split; [exact Hrange|]. split; [exact Hfree|].
    destruct (spawned o) as [pid|message].
    + right. exists pid. split; [reflexivity|]. cbv zeta.
      unfold Bun_listen. rewrite decide_True by (split; [lia | exact Hfree]).
      change (with_ports
                (with_disk (with_ports (with_dirs m (withStateDir m)) (ports m))
                   (withProcess (disk m) pid)) ({[port]} ∪ ports m))
        with (unwritten m pid port).
      destruct (writeFileSync (unwritten m pid port) (getStatePath projectPath)
                  (JSON_stringify (daemonState pid port projectPath (dateNow o))))
        as [m4|message] eqn:Hw.
      * left. unfold writeFileSync in Hw.
        destruct (refused _ _); [discriminate|].
        destruct (negb _); [discriminate|].
        destruct (bool_decide _); [discriminate|].
        injection Hw as <-. split; reflexivity.
      * right. exists message. split; reflexivity.
    + left. exists message. split; reflexivity.
  - left. subst message. reflexivity.
Qed.

(** A write of the state file that succeeds had the state directory. *)
Lemma writeFileSync_state_dir m projectPath text m' :
  writeFileSync m (getStatePath projectPath) text = Return m' -> STATE_DIR ∈ dirs m.
Proof.
  unfold writeFileSync. destruct (refused _ _); [discriminate|].
  rewrite dirname_getStatePath.
  destruct (decide (STATE_DIR ∈ dirs m)) as [Hin|Hout]; [auto|].
  rewrite (bool_decide_eq_false_2 _ Hout). discriminate.
Qed.
End SpawnFacts.

Lemma with_disk_same m : with_disk m (disk m) = m.
Proof. destruct m; reflexivity. Qed.

Lemma server_stop_fresh taken port : port ∉ taken -> server_stop ({[port]} ∪ taken) port = taken.
Proof.
  intros Hfree. unfold server_stop. apply set_eq. intros x.
  rewrite elem_of_difference, elem_of_union, !elem_of_singleton. split.
  - intros [[Hx|Hx] Hne]; [contradiction | exact Hx].
  - intros Hx. split; [right; exact Hx | intros ->; contradiction].
Qed.

Section DaemonFacts.
Context `{JSONRuntime}.

(** A record that was just written is found. *)
Lemma getDaemonState_started o m projectPath pid port :
  let state := daemonState pid port projectPath (dateNow o) in
  JSON_parse (JSON_stringify state) = Some state ->
  getDaemonState (disk (started o m projectPath pid port)) projectPath
  = (Some state, disk (started o m projectPath pid port)).
Proof.
  intros state Hparse.
  unfold getDaemonState, existsSync, readFileSync, isProcessRunning.
  cbn [started disk files kill0 withProcess].
  rewrite lookup_insert_eq, bool_decide_eq_true_2 by eauto. cbn [negb].
  fold state. rewrite Hparse.
  change (getProp state (js "pid")) with (Some (Some (JNum pid))).
  cbn [isPid]. rewrite Z.eqb_refl. reflexivity.
Qed.
End DaemonFacts.

(** X20.  When [spawnDaemon] returns, rust-analyzer was found and
    started, the state is the one of this start, with the pid of the
    child and a port from 19200 to 19399 that was free, and the machine
    has the child running, the port bound, the state directory, and
    the state in the file of the project. *)
Theorem spawnDaemon_started `{JSONRuntime}
    (o : outside) (m m' : machine) (projectPath : jsstring) (state : json) :
  spawnDaemon o m projectPath = Some (Return state, m') ->
  exists pid port,
    findRustAnalyzer (nixBuild o) (whichRustAnalyzer o) <> None /\
    spawned o = Return pid /\
    state = daemonState pid port projectPath (dateNow o) /\
    (19200 <= port < 19400)%Z /\ (port ∉ ports m) /\
    ports m' = {[port]} ∪ ports m /\
    files (disk m') = <[getStatePath projectPath := JSON_stringify state]> (files (disk m)) /\
    kill0 (disk m') (Some (JNum pid)) = true /\
    STATE_DIR ∈ dirs m'.
Proof.
  intros Hs.
  destruct (spawnDaemon_cases o m projectPath)
    as [(msg & _ & E)|[[_ E]|(Hra & [E|(port & Hrange & Hfree &
         [(msg & _ & E)|(pid & Hpid & [(Hw & E)|(msg & _ & E)])])])]];
    rewrite E in Hs; try discriminate.
  injection Hs as <- <-. exists pid, port.
  apply writeFileSync_state_dir in Hw.
  cbn [started unwritten disk files kill0 withProcess ports dirs isPid] in *.
  rewrite Z.eqb_refl. auto 10.
Qed.

Lemma spawnDaemon_started_witness :
  exists pid port,
    findRustAnalyzer (nixBuild demoOutside) (whichRustAnalyzer demoOutside) <> None /\
    spawned demoOutside = Return pid /\
    daemonState 4711 demoPort demoProject 1700000000000
    = daemonState pid port demoProject (dateNow demoOutside) /\
    (19200 <= port < 19400)%Z /\ (port ∉ ports demoMachine) /\
    ports (started demoOutside demoMachine demoProject 4711 demoPort)
    = {[port]} ∪ ports demoMachine /\
    files (disk (started demoOutside demoMachine demoProject 4711 demoPort))
    = <[getStatePath demoProject :=
          JSON_stringify (daemonState 4711 demoPort demoProject 1700000000000)]>
        (files (disk demoMachine)) /\
    kill0 (disk (started demoOutside demoMachine demoProject 4711 demoPort))
      (Some (JNum pid)) = true /\
    STATE_DIR ∈ dirs (started demoOutside demoMachine demoProject 4711 demoPort).
Proof.
  apply (spawnDaemon_started demoOutside demoMachine
           (started demoOutside demoMachine demoProject 4711 demoPort) demoProject
           (daemonState 4711 demoPort demoProject 1700000000000)).
  vm_compute. reflexivity.
Defined.



(** X22.  A daemon that was started is found again: if the state reads
    back from its JSON text, a lookup after [spawnDaemon] returns this
    state and changes nothing, and [ensureDaemon] answers with its port
    at once, without a second start, whatever the outside would give. *)
Theorem spawnDaemon_then_lookup `{JSONRuntime}
    (o : outside) (m m' : machine) (projectPath : jsstring) (state : json) :
  spawnDaemon o m projectPath = Some (Return state, m') ->
  JSON_parse (JSON_stringify state) = Some state ->
  getDaemonState (disk m') projectPath = (Some state, disk m') /\
  forall o', ensureDaemon o' m' projectPath = Some (Return (portOf state), m').
Proof.
  intros Hs Hparse.
  destruct (spawnDaemon_cases o m projectPath)
    as [(msg & _ & E)|[[_ E]|(Hra & [E|(port & Hrange & Hfree &
         [(msg & _ & E)|(pid & Hpid & [(_ & E)|(msg & _ & E)])])])]];
    rewrite E in Hs; try discriminate.
  injection Hs as <- <-.
  pose proof (getDaemonState_started o m projectPath pid port Hparse) as Hfound.
  split; [exact Hfound|]. intros o'. unfold ensureDaemon.
  rewrite Hfound. cbn [fst snd truthy daemonState]. rewrite with_disk_same. reflexivity.
Qed.

Lemma spawnDaemon_then_lookup_witness :
  getDaemonState (disk (started demoOutside demoMachine demoProject 4711 demoPort))
    demoProject
  = (Some (daemonState 4711 demoPort demoProject 1700000000000),
     disk (started demoOutside demoMachine demoProject 4711 demoPort)) /\
  forall o',
    ensureDaemon o' (started demoOutside demoMachine demoProject 4711 demoPort) demoProject
    = Some (Return (portOf (daemonState 4711 demoPort demoProject 1700000000000)),
            started demoOutside demoMachine demoProject 4711 demoPort).
Proof.
  apply (spawnDaemon_then_lookup demoOutside demoMachine
           (started demoOutside demoMachine demoProject 4711 demoPort) demoProject
           (daemonState 4711 demoPort demoProject 1700000000000)).
  - vm_compute. reflexivity.
  - vm_compute. reflexivity.
Defined.

(** X23.  When rust-analyzer exits, the callback that [spawnDaemon] left
    takes back what the start added: the port is free again, the state
    file is gone, every other file is as it was before the start, and a
    lookup of the project answers [null] and changes nothing. *)
Theorem onExited_takes_back `{JSONRuntime}
    (o : outside) (m m' : machine) (projectPath : jsstring) (state : json) (port : Z) :
  spawnDaemon o m projectPath = Some (Return state, m') ->
  portOf state = Some (JNum port) ->
  ports (onExited m' projectPath port) = ports m /\
  files (disk (onExited m' projectPath port))
  = delete (getStatePath projectPath) (files (disk m)) /\
  getDaemonState (disk (onExited m' projectPath port)) projectPath
  = (None, disk (onExited m' projectPath port)).
Proof.
  intros Hs Hport.
  destruct (spawnDaemon_cases o m projectPath)
    as [(msg & _ & E)|[[_ E]|(Hra & [E|(port' & Hrange & Hfree &
         [(msg & _ & E)|(pid & Hpid & [(_ & E)|(msg & _ & E)])])])]];
    rewrite E in Hs; try discriminate.
  injection Hs as <- <-.
  change (portOf (daemonState pid port' projectPath (dateNow o)))
    with (Some (JNum port')) in Hport.
  injection Hport as ->.
  unfold onExited, existsPath, existsSync, unlinkSync.
  cbn [with_ports started disk files ports dirs kill0].
  rewrite lookup_insert_eq, bool_decide_eq_true_2 by eauto. cbn [orb].
  cbn [with_disk disk ports files].
  rewrite delete_insert_eq, (server_stop_fresh _ _ Hfree).
  split; [reflexivity|]. split; [reflexivity|].
  unfold getDaemonState, existsSync. cbn [files].
  rewrite lookup_delete_eq, bool_decide_eq_false_2; [reflexivity|].
  intros [x Hx]. discriminate.
Qed.

Lemma onExited_takes_back_witness :
  ports (onExited (started demoOutside demoMachine demoProject 4711 demoPort)
           demoProject demoPort) = ports demoMachine /\
  files (disk (onExited (started demoOutside demoMachine demoProject 4711 demoPort)
                 demoProject demoPort))
  = delete (getStatePath demoProject) (files (disk demoMachine)) /\
  getDaemonState (disk (onExited (started demoOutside demoMachine demoProject 4711 demoPort)
                          demoProject demoPort)) demoProject
  = (None, disk (onExited (started demoOutside demoMachine demoProject 4711 demoPort)
                   demoProject demoPort)).
Proof.
  apply (onExited_takes_back demoOutside demoMachine
           (started demoOutside demoMachine demoProject 4711 demoPort) demoProject
           (daemonState 4711 demoPort demoProject 1700000000000) demoPort).
  - vm_compute. reflexivity.
  - reflexivity.
Defined.

(** ** More on the data callback and on waiting *)

Section LoopFacts.
Context `{JSONRuntime}.

End LoopFacts.



Section BoundedWait.
Variable clientAt : Z -> SimpleLspClient.
Variable wake : Z -> Z.
Variable slack : Z.

(** [Bun.sleep(100)] takes 100 ms, and up to [slack] more. *)
Hypothesis wake_within : forall t, (t + POLL_INTERVAL <= wake t <= t + POLL_INTERVAL + slack)%Z.

Lemma waitLoop_bounded uri timeoutMs start : forall fuel t,
  (timeoutMs - (t - start) <= POLL_INTERVAL * Z.of_nat fuel)%Z ->
  (t < start + Z.max 0 timeoutMs + POLL_INTERVAL + slack)%Z ->
  exists result t_end,
    waitLoop clientAt wake (S fuel) uri timeoutMs start t = Some (result, t_end) /\
    (t <= t_end < start + Z.max 0 timeoutMs + POLL_INTERVAL + slack)%Z.
Proof.
  unfold POLL_INTERVAL in *.
  induction fuel as [|fuel IH]; intros t Hfuel Ht.
  - cbn [waitLoop]. destruct (Z.ltb_spec (t - start) timeoutMs); [lia|].
    exists (JArr []), t. split; [reflexivity | lia].
  - remember (S fuel) as n eqn:En. cbn [waitLoop].
    destruct (Z.ltb_spec (t - start) timeoutMs) as [Hlt|Hge].
    + destruct (diagnostics (clientAt t) !! uri) as [diags|].
      * exists diags, t. split; [reflexivity | lia].
      * subst n. pose proof (wake_within t) as Hw.
        destruct (IH (wake t)) as (result & t_end & Hrun & Hend); [lia | lia |].
        exists result, t_end. split; [exact Hrun | lia].
    + exists (JArr []), t. split; [reflexivity | lia].
Qed.
End BoundedWait.

(** X25.  [waitForDiagnostics] overruns its timeout by less than one
    sleep: with sleeps of 100 ms and at most [slack] more, and turns
    enough for the timeout, it returns, and it does so before the
    timeout, one sleep and the slack have passed since its start. *)
Theorem wait_returns_within_a_sleep_of_timeout
    (clientAt : Z -> SimpleLspClient) (wake : Z -> Z) (slack : Z)
    (uri : jsstring) (timeoutMs start : Z) (fuel : nat) :
  (forall t, (t + POLL_INTERVAL <= wake t <= t + POLL_INTERVAL + slack)%Z) ->
  (timeoutMs <= POLL_INTERVAL * Z.of_nat fuel)%Z ->
  exists result t_end,
    waitForDiagnostics clientAt wake (S fuel) uri timeoutMs start = Some (result, t_end) /\
    (start <= t_end < start + Z.max 0 timeoutMs + POLL_INTERVAL + slack)%Z.
Proof.
  intros Hwake Hfuel. unfold waitForDiagnostics.
  apply (waitLoop_bounded clientAt wake slack Hwake); [lia|].
  pose proof (Hwake start). unfold POLL_INTERVAL in *. lia.
Qed.

Lemma wait_returns_within_a_sleep_of_timeout_witness :
  exists result t_end,
    waitForDiagnostics neverPushed sleepExactly 31 demoUri 3000 0 = Some (result, t_end) /\
    (0 <= t_end < 0 + Z.max 0 3000 + POLL_INTERVAL + 0)%Z.
Proof.
  apply (wait_returns_within_a_sleep_of_timeout neverPushed sleepExactly 0 demoUri 3000 0 30).
  - intros t. unfold sleepExactly, POLL_INTERVAL. lia.
  - vm_compute. discriminate.
Defined.
